(** * Bob build tool: the local builder and the develop-mode directory oracle

    A shallow embedding of [pym/bob/cmds/build.py].  The persistent store
    ([BobState]), the attributes of [LocalBuilder] that change during a run
    and the observable actions on the outside world (scripts, archive
    transfers, file system changes) are threaded explicitly through a
    state-and-exception monad; Python dictionaries are finite maps, except
    where the iteration order decides the result (the directory oracle),
    where they are association lists in insertion order. *)

From Stdlib Require Import ZArith Ascii.
From stdpp Require Import gmap strings list fin_maps pretty.

#[local] Set Warnings "-register-all".
#[local] Open Scope string_scope.
#[local] Open Scope list_scope.

(** ** Values *)

(** Python [bytes] and [str] are both sequences of 8-bit characters here;
    where the code tells them apart ([isinstance]) the embedding uses a
    constructor. *)
Abbreviation bytes := string (only parsing).

(** Truth value of a [bytes] object: empty is false. *)
Definition truthy (b : bytes) : bool := negb (String.eqb b "").

(** A stored result hash is the directory digest or, while a step is
    running, the [datetime] the run started. *)
Inductive ResultHash :=
  | RHash (h : bytes)
  | RTime (t : N).

#[global] Instance ResultHash_eq_dec : EqDecision ResultHash.
Proof. solve_decision. Defined.

(** [BobState().getResultHash(p)] yields [None] when nothing is stored. *)
Abbreviation HashVal := (option ResultHash) (only parsing).

(** What [setInputHashes] stores: a list (of result hashes, for package
    steps with the build-id in front) or a bare build-id. *)
Inductive InputHashes :=
  | IHList (l : list HashVal)
  | IHBytes (b : bytes).

#[global] Instance InputHashes_eq_dec : EqDecision InputHashes.
Proof. solve_decision. Defined.

(** What [setDirectoryState] stores: for a checkout the dictionary from
    SCM directory ([None] for the variant-id entry) to digest, for a build
    step the build digest list, for a package step the variant-id. *)
Inductive DirState :=
  | DSCheckout (m : gmap (option string) (option bytes))
  | DSBuild (l : list string)
  | DSPackage (d : bytes).

#[global] Instance DirState_eq_dec : EqDecision DirState.
Proof. solve_decision. Defined.

(** ** Steps *)

Inductive Kind := Checkout | Build | Package.

#[global] Instance Kind_eq_dec : EqDecision Kind.
Proof. solve_decision. Defined.

Record PackageT := {
  getName : string;
  getRecipeName : string;
  getStack : list string }.

#[global] Instance PackageT_eq_dec : EqDecision PackageT.
Proof. solve_decision. Defined.

(** The attributes of a step the builder reads.  [getSandbox] is the
    workspace of the sandbox step if there is one; [getCheckoutStep] is
    [step.getPackage().getCheckoutStep()]. *)
Inductive Step : Type := MkStep {
  stepKind : Kind;
  isValid : bool;
  getWorkspacePath : string;
  getExecPath : string;
  getVariantId : bytes;
  _getSandboxVariantId : bytes;
  isDeterministic : bool;
  isRelocatable : bool;
  getSandbox : option string;
  hasLiveBuildId : bool;
  getScmDirectories : gmap string bytes;
  getPackage : PackageT;
  getAllDepSteps : list Step;
  getArguments : list Step;
  getCheckoutStep : option Step }.

Definition isCheckoutStep (s : Step) : bool := bool_decide (stepKind s = Checkout).
Definition isBuildStep (s : Step) : bool := bool_decide (stepKind s = Build).
Definition isPackageStep (s : Step) : bool := bool_decide (stepKind s = Package).

(** ** The persistent store *)

(** The dictionary [saveBuildState] hands to [setBuildState]. *)
Record BuildState := {
  st_wasRun : gmap string (bytes * bool);
  st_predictedBuidId : gmap (string * bytes) HashVal }.

(** Modelled from the spec: the class [BobState] (pym/bob/state.py) is not
    part of the sources at hand.  Section 4.1 lists its operations:
    get/set/del per workspace path for the variant-id, the directory state,
    the input hashes and the result hash, get/set/del of build-ids,
    get/set of the build state, and [resetWorkspaceState], which clears
    result and input hashes and stores the new directory state. *)
Record BobState := {
  bsVariantId : gmap string bytes;
  bsDirectoryState : gmap string DirState;
  bsInputHashes : gmap string InputHashes;
  bsResultHash : gmap string ResultHash;
  bsBuildId : gmap bytes bytes;
  bsBuildState : option BuildState }.

Definition BobState_empty : BobState :=
  {| bsVariantId := ∅; bsDirectoryState := ∅; bsInputHashes := ∅;
     bsResultHash := ∅; bsBuildId := ∅; bsBuildState := None |}.

(** ** What a run does to the outside world *)

Inductive Event :=
  | EvMakedirs (path : string)
  | EvEmptyDirectory (path : string)
  | EvAttic (scmPath atticName : string)
  (** the wrapper script was started: which step, the script name, the
      store as it was at that moment, and the wrapper's return code (or
      the text of the [OSError] if it could not be started) *)
  | EvRunShell (s : Step) (scriptName : string) (clean : bool)
               (store : BobState) (ret : Z + string)
  | EvAudit (s : Step) (buildId : HashVal) (resultHash : bytes) (executed : bool)
  | EvDownloadPackage (s : Step) (depth : N) (buildId : bytes) (ok : bool)
  | EvUploadPackage (s : Step) (buildId : bytes)
  | EvUploadLiveBuildId (s : Step) (liveBId realId : bytes)
  | EvMessage (s : Step) (what msg : string).

Record LocalBuilderStatistic := {
  checkouts : nat;
  packagesBuilt : nat;
  packagesDownloaded : nat }.

(** The store, the attributes of [LocalBuilder] that change while cooking,
    and the actions performed so far (newest first). *)
Record World := {
  bob : BobState;
  wasRun : gmap string (bytes * bool);
  wasSkipped : gmap string bool;
  srcBuildIds : gmap (string * bytes) (HashVal * bool);
  buildDistBuildIds : gmap string bytes;
  statistic : LocalBuilderStatistic;
  trace : list Event }.

Definition LocalBuilder_init : World :=
  {| bob := BobState_empty; wasRun := ∅; wasSkipped := ∅; srcBuildIds := ∅;
     buildDistBuildIds := ∅;
     statistic := {| checkouts := 0; packagesBuilt := 0; packagesDownloaded := 0 |};
     trace := [] |}.

(** ** Exceptions and the monad *)

Inductive Exc :=
  | BuildError (msg help : string)
  | MultiBobError (others : list Exc)
  | RestartBuildException
  | CancelBuildException
  | AssertionError (msg : string)
  (** a run-time error of the interpreter: a value of the wrong shape, or
      the recursion limit. *)
  | PyError (msg : string).

Inductive Res (A : Type) :=
  | Ok (a : A)
  | Raise (e : Exc).
Arguments Ok {A} a.
Arguments Raise {A} e.

Definition M (A : Type) : Type := World → Res A * World.

Definition ret {A} (a : A) : M A := λ w, (Ok a, w).
Definition raise {A} (e : Exc) : M A := λ w, (Raise e, w).
Definition bind {A B} (m : M A) (f : A → M B) : M B :=
  λ w, match m w with
       | (Ok a, w') => f a w'
       | (Raise e, w') => (Raise e, w')
       end.

Notation "x <- m ;; k" := (bind m (λ x, k))
  (at level 100, m at next level, right associativity, only parsing).

Definition get_world : M World := λ w, (Ok w, w).
Definition modify (f : World → World) : M unit := λ w, (Ok tt, f w).
Definition when (b : bool) (m : M unit) : M unit := if b then m else ret tt.

Fixpoint forM {A} (l : list A) (f : A → M unit) : M unit :=
  match l with
  | [] => ret tt
  | x :: l' => _ <- f x ;; forM l' f
  end.

Definition set_bob (f : BobState → BobState) : M unit :=
  modify (λ w, {| bob := f (bob w); wasRun := wasRun w; wasSkipped := wasSkipped w;
                  srcBuildIds := srcBuildIds w;
                  buildDistBuildIds := buildDistBuildIds w;
                  statistic := statistic w; trace := trace w |}).

Definition emit (e : Event) : M unit :=
  modify (λ w, {| bob := bob w; wasRun := wasRun w; wasSkipped := wasSkipped w;
                  srcBuildIds := srcBuildIds w;
                  buildDistBuildIds := buildDistBuildIds w;
                  statistic := statistic w; trace := e :: trace w |}).

Definition set_wasRun (f : gmap string (bytes * bool) → gmap string (bytes * bool)) : M unit :=
  modify (λ w, {| bob := bob w; wasRun := f (wasRun w); wasSkipped := wasSkipped w;
                  srcBuildIds := srcBuildIds w;
                  buildDistBuildIds := buildDistBuildIds w;
                  statistic := statistic w; trace := trace w |}).

Definition set_wasSkipped (f : gmap string bool → gmap string bool) : M unit :=
  modify (λ w, {| bob := bob w; wasRun := wasRun w; wasSkipped := f (wasSkipped w);
                  srcBuildIds := srcBuildIds w;
                  buildDistBuildIds := buildDistBuildIds w;
                  statistic := statistic w; trace := trace w |}).

Definition set_srcBuildIds
    (f : gmap (string * bytes) (HashVal * bool) → gmap (string * bytes) (HashVal * bool)) : M unit :=
  modify (λ w, {| bob := bob w; wasRun := wasRun w; wasSkipped := wasSkipped w;
                  srcBuildIds := f (srcBuildIds w);
                  buildDistBuildIds := buildDistBuildIds w;
                  statistic := statistic w; trace := trace w |}).

Definition set_buildDistBuildIds (f : gmap string bytes → gmap string bytes) : M unit :=
  modify (λ w, {| bob := bob w; wasRun := wasRun w; wasSkipped := wasSkipped w;
                  srcBuildIds := srcBuildIds w;
                  buildDistBuildIds := f (buildDistBuildIds w);
                  statistic := statistic w; trace := trace w |}).

Definition set_statistic (f : LocalBuilderStatistic → LocalBuilderStatistic) : M unit :=
  modify (λ w, {| bob := bob w; wasRun := wasRun w; wasSkipped := wasSkipped w;
                  srcBuildIds := srcBuildIds w;
                  buildDistBuildIds := buildDistBuildIds w;
                  statistic := f (statistic w); trace := trace w |}).

(** ** Operations of the store *)

Module BobStateOps.

Definition getVariantId (p : string) : M (option bytes) :=
  w <- get_world ;; ret (bsVariantId (bob w) !! p).

Definition setVariantId (p : string) (v : bytes) : M unit :=
  set_bob (λ b, {| bsVariantId := <[p := v]> (bsVariantId b);
                   bsDirectoryState := bsDirectoryState b;
                   bsInputHashes := bsInputHashes b; bsResultHash := bsResultHash b;
                   bsBuildId := bsBuildId b; bsBuildState := bsBuildState b |}).

Definition getDirectoryState (p : string) : M (option DirState) :=
  w <- get_world ;; ret (bsDirectoryState (bob w) !! p).

Definition setDirectoryState (p : string) (d : DirState) : M unit :=
  set_bob (λ b, {| bsVariantId := bsVariantId b;
                   bsDirectoryState := <[p := d]> (bsDirectoryState b);
                   bsInputHashes := bsInputHashes b; bsResultHash := bsResultHash b;
                   bsBuildId := bsBuildId b; bsBuildState := bsBuildState b |}).

Definition getInputHashes (p : string) : M (option InputHashes) :=
  w <- get_world ;; ret (bsInputHashes (bob w) !! p).

Definition setInputHashes (p : string) (h : InputHashes) : M unit :=
  set_bob (λ b, {| bsVariantId := bsVariantId b;
                   bsDirectoryState := bsDirectoryState b;
                   bsInputHashes := <[p := h]> (bsInputHashes b);
                   bsResultHash := bsResultHash b;
                   bsBuildId := bsBuildId b; bsBuildState := bsBuildState b |}).

Definition delInputHashes (p : string) : M unit :=
  set_bob (λ b, {| bsVariantId := bsVariantId b;
                   bsDirectoryState := bsDirectoryState b;
                   bsInputHashes := delete p (bsInputHashes b);
                   bsResultHash := bsResultHash b;
                   bsBuildId := bsBuildId b; bsBuildState := bsBuildState b |}).

Definition getResultHash (p : string) : M HashVal :=
  w <- get_world ;; ret (bsResultHash (bob w) !! p).

Definition setResultHash (p : string) (h : ResultHash) : M unit :=
  set_bob (λ b, {| bsVariantId := bsVariantId b;
                   bsDirectoryState := bsDirectoryState b;
                   bsInputHashes := bsInputHashes b;
                   bsResultHash := <[p := h]> (bsResultHash b);
                   bsBuildId := bsBuildId b; bsBuildState := bsBuildState b |}).

Definition resetWorkspaceState (p : string) (d : DirState) : M unit :=
  set_bob (λ b, {| bsVariantId := bsVariantId b;
                   bsDirectoryState := <[p := d]> (bsDirectoryState b);
                   bsInputHashes := delete p (bsInputHashes b);
                   bsResultHash := delete p (bsResultHash b);
                   bsBuildId := bsBuildId b; bsBuildState := bsBuildState b |}).

Definition getBuildId (k : bytes) : M (option bytes) :=
  w <- get_world ;; ret (bsBuildId (bob w) !! k).

Definition setBuildId (k v : bytes) : M unit :=
  set_bob (λ b, {| bsVariantId := bsVariantId b;
                   bsDirectoryState := bsDirectoryState b;
                   bsInputHashes := bsInputHashes b; bsResultHash := bsResultHash b;
                   bsBuildId := <[k := v]> (bsBuildId b);
                   bsBuildState := bsBuildState b |}).

Definition delBuildId (k : bytes) : M unit :=
  set_bob (λ b, {| bsVariantId := bsVariantId b;
                   bsDirectoryState := bsDirectoryState b;
                   bsInputHashes := bsInputHashes b; bsResultHash := bsResultHash b;
                   bsBuildId := delete k (bsBuildId b);
                   bsBuildState := bsBuildState b |}).

Definition getBuildState : M (option BuildState) :=
  w <- get_world ;; ret (bsBuildState (bob w)).

Definition setBuildState (s : BuildState) : M unit :=
  set_bob (λ b, {| bsVariantId := bsVariantId b;
                   bsDirectoryState := bsDirectoryState b;
                   bsInputHashes := bsInputHashes b; bsResultHash := bsResultHash b;
                   bsBuildId := bsBuildId b; bsBuildState := Some s |}).

End BobStateOps.

(** ** [LocalBuilder]: the build state and the was-run bookkeeping *)

(** [saveBuildState]: skipped steps are dropped from [wasRun]; of the source
    build-ids only the predicted ones are kept, without their flag. *)
Definition saveBuildState : M unit :=
  w <- get_world ;;
  BobStateOps.setBuildState
    {| st_wasRun :=
         filter (λ kv, default false (wasSkipped w !! kv.1) = false) (wasRun w);
       st_predictedBuidId :=
         fst <$> filter (λ kv, kv.2.2 = true) (srcBuildIds w) |}.

(** [loadBuildState]: [state.get('wasRun', {})] and
    [state.get('predictedBuidId', {})] of the stored dictionary. *)
Definition loadBuildState : M unit :=
  state <- BobStateOps.getBuildState ;;
  _ <- set_wasRun (λ _, from_option st_wasRun ∅ state) ;;
  set_srcBuildIds (λ _, (λ bid, (bid, true)) <$> from_option st_predictedBuidId ∅ state).

Definition _wasAlreadyRun (step : Step) (skippedOk : bool) : M bool :=
  let path := getWorkspacePath step in
  w <- get_world ;;
  match wasRun w !! path with
  | Some (digest, _) =>
      if negb (bool_decide (digest = getVariantId step)) then
        _ <- set_wasRun (delete path) ;; ret false
      else if negb skippedOk && default false (wasSkipped w !! path) then
        ret false
      else ret true
  | None => ret false
  end.

Definition _setAlreadyRun (step : Step) (isCheckout skipped : bool) : M unit :=
  let path := getWorkspacePath step in
  _ <- set_wasRun (<[path := (getVariantId step, isCheckout)]>) ;;
  set_wasSkipped (<[path := skipped]>).

(** [_clearWasRun]: only the entries of checkout steps survive. *)
Definition _clearWasRun : M unit :=
  set_wasRun (filter (λ kv, kv.2.2 = true)).

(** ** Paths ([posixpath]) and signals *)

Definition SIGINT : Z := 2.

Definition slash : Ascii.ascii := "/"%char.

Fixpoint endswith_slash (s : string) : bool :=
  match s with
  | EmptyString => false
  | String a EmptyString => Ascii.eqb a slash
  | String _ s' => endswith_slash s'
  end.

(** [s.startswith(pre)] *)
Fixpoint startswith (s pre : string) {struct pre} : bool :=
  match pre, s with
  | EmptyString, _ => true
  | String a pre', String b s' => Ascii.eqb a b && startswith s' pre'
  | String _ _, EmptyString => false
  end.

(** [os.path.join(a, b)] *)
Definition os_path_join (a b : string) : string :=
  if startswith b "/" then b
  else if String.eqb a "" || endswith_slash a then a +:+ b
  else a +:+ "/" +:+ b.

(** [s.split('/')] *)
Fixpoint split_slash (s : string) : list string :=
  match s with
  | EmptyString => [EmptyString]
  | String a s' =>
      if Ascii.eqb a slash then EmptyString :: split_slash s'
      else match split_slash s' with
           | [] => [String a EmptyString]
           | h :: t => String a h :: t
           end
  end.

(** ['/'.join(comps)] *)
Fixpoint join_slash (comps : list string) : string :=
  match comps with
  | [] => ""
  | [c] => c
  | c :: cs => c +:+ "/" +:+ join_slash cs
  end.

(** The loop of [os.path.normpath] over the components; [new_comps] is
    kept in reverse. *)
Fixpoint normpath_comps (initial_slashes : bool) (comps new_comps : list string) : list string :=
  match comps with
  | [] => rev new_comps
  | comp :: rest =>
      if String.eqb comp "" || String.eqb comp "." then
        normpath_comps initial_slashes rest new_comps
      else if negb (String.eqb comp "..")
              || (negb initial_slashes && bool_decide (new_comps = []))
              || match new_comps with
                 | last :: _ => String.eqb last ".."
                 | [] => false
                 end
      then normpath_comps initial_slashes rest (comp :: new_comps)
      else normpath_comps initial_slashes rest (tail new_comps)
  end.

(** [os.path.normpath(path)] *)
Definition os_path_normpath (path : string) : string :=
  if String.eqb path "" then "."
  else
    let initial := startswith path "/" in
    let slashes :=
      if initial && startswith path "//" && negb (startswith path "///")
      then "//" else if initial then "/" else "" in
    let p := slashes +:+ join_slash (normpath_comps initial (split_slash path) []) in
    if String.eqb p "" then "." else p.

Definition os_path_isabs (path : string) : bool := startswith path "/".

(** [os.path.basename(p)] *)
Definition os_path_basename (p : string) : string :=
  List.last (split_slash p) "".

(** ** Options of a run and the environment *)

(** The attributes of [LocalBuilder] that the constructor and the setters
    fix before cooking starts; [alwaysCheckout name] is
    [any(pat.match(name) for pat in self.__alwaysCheckout)]. *)
Record Config := {
  force : bool;
  skipDeps : bool;
  buildOnly : bool;
  cleanBuild : bool;
  cleanCheckout : bool;
  keepGoing : bool;
  downloadDepth : N;
  downloadDepthForce : N;
  wantDownload : bool;
  alwaysCheckout : string → bool }.

(** [LocalBuilder.__init__] *)
Definition Config_init (force skipDeps buildOnly cleanBuild : bool) : Config :=
  {| force := force; skipDeps := skipDeps; buildOnly := buildOnly;
     cleanBuild := cleanBuild; cleanCheckout := false; keepGoing := false;
     downloadDepth := 0xffff%N; downloadDepthForce := 0xffff%N;
     wantDownload := false; alwaysCheckout := λ _, false |}.

Definition set_download (cfg : Config) (want : bool) (depth depthForce : N) : Config :=
  {| force := force cfg; skipDeps := skipDeps cfg; buildOnly := buildOnly cfg;
     cleanBuild := cleanBuild cfg; cleanCheckout := cleanCheckout cfg;
     keepGoing := keepGoing cfg;
     downloadDepth := depth; downloadDepthForce := depthForce;
     wantDownload := want; alwaysCheckout := alwaysCheckout cfg |}.

(** [setDownloadMode]; [canDownloadLocal] is the answer of the archive.
    The result is [None] where the code's [assert mode == 'no'] fails. *)
Definition setDownloadMode (canDownloadLocal : bool) (mode : string) (cfg : Config)
    : option Config :=
  let depth0 := 0xffff%N in
  let force0 := downloadDepthForce cfg in
  if String.eqb mode "yes" || String.eqb mode "forced" then
    if String.eqb mode "forced" then Some (set_download cfg true 0%N 0%N)
    else if canDownloadLocal then Some (set_download cfg true 0%N force0)
    else Some (set_download cfg true depth0 force0)
  else if String.eqb mode "deps" || String.eqb mode "forced-deps" then
    if String.eqb mode "forced-deps" then Some (set_download cfg true 1%N 1%N)
    else if canDownloadLocal then Some (set_download cfg true 1%N force0)
    else Some (set_download cfg true depth0 force0)
  else if String.eqb mode "forced-fallback" then
    Some (set_download cfg true 0%N 1%N)
  else if String.eqb mode "no" then
    Some (set_download cfg false depth0 force0)
  else None.

(** What the builder asks of the file system, the clock, the SCMs, the
    archive, the wrapper script and the digest functions of a step.  Every
    answer may depend on all that happened before. *)
Record Sys := {
  os_path_isdir : World → string → bool;
  os_path_exists : World → string → bool;
  hashDirectory : World → string → bytes;
  utcnow : World → N;
  now_isoformat : World → string;
  (** the wrapper's return code, or the text of the [OSError] *)
  run_wrapper : World → Step → string → Z + string;
  (** [scm.status(workspace)[0]] of the SCM that owns a directory *)
  scm_status : World → Step → string → string;
  canDownloadLocal : bool;
  canUploadLocal : bool;
  downloadPackage : World → Step → bytes → bool;
  downloadLocalLiveBuildId : World → Step → bytes → option bytes;
  predictLiveBuildId : World → Step → option bytes;
  calcLiveBuildId : World → Step → option bytes;
  (** [step.getDigest(calculate)], given the variant-id to use for each
      dependency *)
  getDigest : Step → (Step → bytes) → bytes;
  (** the hash [step.getDigestCoro] forms from the build-ids of the
      dependencies *)
  digestOf : Step → list HashVal → bytes }.

(** ** Cooking steps *)

Section Cook.

Variable sys : Sys.
Variable cfg : Config.

(** [self.__running]: only the scheduler and the signal handler assign it;
    the code of a step reads it. *)
Variable running : bool.

(** The recursive calls into [_cook] and [__getBuildIdList]; the knot is
    tied in [cookFuel] below. *)
Variable cookRec : list Step → PackageT → bool → N → M unit.
Variable buildIdRec : list Step → N → M (list HashVal).

Definition ask {A} (f : Sys → World → A) : M A :=
  w <- get_world ;; ret (f sys w).

Definition stepMessage (s : Step) (what msg : string) : M unit :=
  emit (EvMessage s what msg).

Definition hashWorkspace (step : Step) : M bytes :=
  ask (λ sy w, hashDirectory sy w (getWorkspacePath step)).

Definition _constructDir (step : Step) : M (string * bool) :=
  let workDir := getWorkspacePath step in
  isdir <- ask (λ sy w, os_path_isdir sy w workDir) ;;
  if negb isdir then
    _ <- emit (EvMakedirs workDir) ;; ret (workDir, true)
  else ret (workDir, false).

(** [__yieldJobWhile]: with one job, giving up and taking back the slot
    leaves only the check of [running]. *)
Definition __yieldJobWhile {A} (coro : M A) : M A :=
  r <- coro ;;
  if negb running then raise CancelBuildException else ret r.

(** *** The wrapper script *)

(** [absRunFile] in [_runShell] *)
Definition absRunFile (workspacePath scriptName : string) : string :=
  let runFile := os_path_join ".." (scriptName +:+ ".sh") in
  os_path_join "." (os_path_normpath (os_path_join workspacePath runFile)).

(** The end of [_runShell]: what becomes of the wrapper's return code. *)
Definition checkReturnCode (absRunFile : string) (r : Z) : M unit :=
  if bool_decide (r = (- SIGINT)%Z) then
    raise (BuildError ("User aborted while running " +:+ absRunFile)
                      "Run again with '--resume' to skip already built packages.")
  else if bool_decide (r ≠ 0%Z) then
    raise (BuildError ("Build script " +:+ absRunFile +:+ " returned with " +:+ pretty r)
                      "You may resume at this point with '--resume' after fixing the error.")
  else ret tt.

(** [_runShell].  Linking the dependencies and writing the two script
    files leave no trace here; starting the wrapper does. *)
Definition _runShell (step : Step) (scriptName : string) (cleanWorkspace : bool) : M unit :=
  let workspacePath := getWorkspacePath step in
  _ <- when cleanWorkspace (emit (EvEmptyDirectory workspacePath)) ;;
  isdir <- ask (λ sy w, os_path_isdir sy w workspacePath) ;;
  _ <- when (negb isdir) (emit (EvMakedirs workspacePath)) ;;
  let abs := absRunFile workspacePath scriptName in
  w <- get_world ;;
  let r := run_wrapper sys w step scriptName in
  _ <- emit (EvRunShell step scriptName cleanWorkspace (bob w) r) ;;
  match r with
  | inr e => raise (BuildError ("Cannot execute build script " +:+ abs +:+ ": " +:+ e) "")
  | inl code => checkReturnCode abs code
  end.

(** *** Build-ids *)

Definition liveKey (step : Step) : bytes := String Ascii.zero (_getSandboxVariantId step).
Definition translationKey (liveBId : bytes) : bytes := String Ascii.one liveBId.

Definition __queryLiveBuildId (step : Step) : M (option bytes) :=
  let key := liveKey step in
  cached <- (if buildOnly cfg then BobStateOps.getBuildId key else ret None) ;;
  match cached with
  | Some liveBId => ret (Some liveBId)
  | None =>
      liveBId <- ask (λ sy w, predictLiveBuildId sy w step) ;;
      _ <- match liveBId with
           | Some l => BobStateOps.setBuildId key l
           | None => ret tt
           end ;;
      ret liveBId
  end.

Definition __invalidateLiveBuildId (step : Step) : M unit :=
  let key := liveKey step in
  liveBId <- BobStateOps.getBuildId key ;;
  match liveBId with
  | Some _ => BobStateOps.delBuildId key
  | None => ret tt
  end.

Definition __translateLiveBuildId (step : Step) (liveBId : bytes) : M (option bytes) :=
  let key := translationKey liveBId in
  bid <- BobStateOps.getBuildId key ;;
  match bid with
  | Some b => ret (Some b)
  | None =>
      bid <- ask (λ sy w, downloadLocalLiveBuildId sy w step liveBId) ;;
      _ <- match bid with
           | Some b => BobStateOps.setBuildId key b
           | None => ret tt
           end ;;
      ret bid
  end.

(** [__getCheckoutStepBuildId].  The call [self._cook([step], package,
    depth)] passes [depth] where [_cook] expects [checkoutOnly] and leaves
    the depth at its default 0. *)
Definition __getCheckoutStepBuildId (step : Step) (depth : N) : M (HashVal * bool) :=
  let name := getName (getPackage step) in
  ex <- ask (λ sy w, os_path_exists sy w (getWorkspacePath step)) ;;
  r <- (if negb ex && negb (alwaysCheckout cfg name) && hasLiveBuildId step
             && canDownloadLocal sys
        then
          liveBId <- __queryLiveBuildId step ;;
          match liveBId with
          | Some l => if truthy l then __translateLiveBuildId step l else ret None
          | None => ret None
          end
        else ret None) ;;
  match r with
  | None =>
      _ <- cookRec [step] (getPackage step) (negb (N.eqb depth 0)) 0%N ;;
      h <- BobStateOps.getResultHash (getWorkspacePath step) ;;
      ret (h, false)
  | Some b => ret (Some (RHash b), true)
  end.

(** Modelled from the spec: [Step.getDigestCoro] (pym/bob/input.py) is not
    part of the sources at hand.  By section 4.2 the build-id of a step
    that is no checkout is a hash of the step definition and the
    recursively resolved build-ids of its dependencies. *)
Definition getDigestCoro (step : Step) (calculate : list Step → M (list HashVal)) : M bytes :=
  ids <- calculate (getAllDepSteps step) ;;
  ret (digestOf sys step ids).

Definition __getBuildIdSingle (step : Step) (depth : N) : M HashVal :=
  let path := getWorkspacePath step in
  if isCheckoutStep step then
    let key := (path, getVariantId step) in
    w <- get_world ;;
    match fst (default (None, false) (srcBuildIds w !! key)) with
    | Some r => ret (Some r)
    | None =>
        tmp <- __getCheckoutStepBuildId step depth ;;
        _ <- set_srcBuildIds (<[key := tmp]>) ;;
        ret (fst tmp)
    end
  else
    w <- get_world ;;
    match buildDistBuildIds w !! path with
    | Some r => ret (Some (RHash r))
    | None =>
        r <- getDigestCoro step (λ x, buildIdRec x (depth + 1)%N) ;;
        _ <- set_buildDistBuildIds (<[path := r]>) ;;
        ret (Some (RHash r))
    end.

Definition __getBuildIdTask (step : Step) (depth : N) : M HashVal :=
  if negb running then raise CancelBuildException
  else __getBuildIdSingle step depth.

Fixpoint mapM {A B} (f : A → M B) (l : list A) : M (list B) :=
  match l with
  | [] => ret []
  | x :: l' => y <- f x ;; ys <- mapM f l' ;; ret (y :: ys)
  end.

Definition __getBuildIdList (steps : list Step) (depth : N) : M (list HashVal) :=
  mapM (λ step, __yieldJobWhile (__getBuildIdTask step depth)) steps.

Definition _getBuildId (step : Step) (depth : N) : M HashVal :=
  l <- __getBuildIdList [step] depth ;;
  match l with
  | [r] => ret r
  | _ => raise (PyError "unpack")
  end.

(** [__getIncrementalVariantId] *)
Definition __getIncrementalVariantId (step : Step) : M bytes :=
  w <- get_world ;;
  let getStoredVId dep :=
    default (getVariantId dep) (bsVariantId (bob w) !! getWorkspacePath dep) in
  ret (getDigest sys step getStoredVId).

(** [_generateAudit]: the audit record is an action on the outside; for a
    step that is no checkout its build-id is asked for. *)
Definition _generateAudit (step : Step) (depth : N) (resultHash : bytes) (executed : bool)
    : M string :=
  buildId <- (if isCheckoutStep step then ret (Some (RHash resultHash))
              else _getBuildId step depth) ;;
  _ <- emit (EvAudit step buildId resultHash executed) ;;
  ret (os_path_join (os_path_join (getWorkspacePath step) "..") "audit.json.gz").

(** [__handleChangedBuildId] *)
Definition __handleChangedBuildId (step : Step) (checkoutHash : bytes) : M unit :=
  let key := (getWorkspacePath step, getVariantId step) in
  _ <- __invalidateLiveBuildId step ;;
  _ <- set_srcBuildIds (<[key := (Some (RHash checkoutHash), false)]>) ;;
  _ <- set_buildDistBuildIds (λ _, ∅) ;;
  _ <- _clearWasRun ;;
  raise RestartBuildException.

(** *** Checkout steps *)

(** [checkoutState.get(scmDir)] *)
Definition dictGet (m : gmap (option string) (option bytes)) (k : option string) : option bytes :=
  mjoin (m !! k).

(** [checkoutState]: the SCM directories and, under the key [None], the
    variant-id. *)
Definition composeCheckoutState (checkoutStep : Step) : gmap (option string) (option bytes) :=
  <[None := Some (getVariantId checkoutStep)]>
    (kmap Some (Some <$> getScmDirectories checkoutStep)).

(** [--clean-checkout]: the entry of a directory whose digest still matches
    is set to [None] if its SCM reports it dirty or in error. *)
Definition invalidateDirty (w : World) (checkoutStep : Step)
    (checkoutState oldCheckoutState : gmap (option string) (option bytes))
    : gmap (option string) (option bytes) :=
  map_imap (λ scmDir scmDigest,
    match scmDir with
    | None => Some scmDigest
    | Some d =>
        if bool_decide (scmDigest ≠ dictGet checkoutState scmDir) then Some scmDigest
        else
          let status := scm_status sys w checkoutStep d in
          if String.eqb status "dirty" || String.eqb status "error"
          then Some None else Some scmDigest
    end) oldCheckoutState.

(** Old or changed source directories are moved to the attic and dropped
    from the stored state. *)
Fixpoint moveToAttic (prettySrcPath : string)
    (checkoutState : gmap (option string) (option bytes))
    (items : list (option string * option bytes))
    (oldCheckoutState : gmap (option string) (option bytes))
    : M (gmap (option string) (option bytes)) :=
  match items with
  | [] => ret oldCheckoutState
  | (scmDir, scmDigest) :: rest =>
      match scmDir with
      | Some d =>
          if bool_decide (scmDigest ≠ dictGet checkoutState scmDir) then
            let scmPath := os_path_normpath (os_path_join prettySrcPath d) in
            ex <- ask (λ sy w, os_path_exists sy w scmPath) ;;
            _ <- (if ex then
                    now <- ask now_isoformat ;;
                    emit (EvAttic scmPath (now +:+ "_" +:+ os_path_basename scmPath))
                  else ret tt) ;;
            let old' := delete scmDir oldCheckoutState in
            _ <- BobStateOps.setDirectoryState prettySrcPath (DSCheckout old') ;;
            moveToAttic prettySrcPath checkoutState rest old'
          else moveToAttic prettySrcPath checkoutState rest oldCheckoutState
      | None => moveToAttic prettySrcPath checkoutState rest oldCheckoutState
      end
  end.

(** New checkouts must not collide with what is in the workspace. *)
Fixpoint checkCollisions (prettySrcPath : string)
    (oldCheckoutState : gmap (option string) (option bytes))
    (scmDirs : list (option string)) : M unit :=
  match scmDirs with
  | [] => ret tt
  | None :: rest => checkCollisions prettySrcPath oldCheckoutState rest
  | Some d :: rest =>
      if String.eqb d "." then checkCollisions prettySrcPath oldCheckoutState rest
      else if bool_decide (dictGet oldCheckoutState (Some d) ≠ None) then
        checkCollisions prettySrcPath oldCheckoutState rest
      else
        ex <- ask (λ sy w, os_path_exists sy w
                             (os_path_normpath (os_path_join prettySrcPath d))) ;;
        if ex then
          raise (BuildError ("New SCM checkout '" +:+ d +:+
                             "' collides with existing file in workspace '" +:+
                             prettySrcPath +:+ "'!") "")
        else checkCollisions prettySrcPath oldCheckoutState rest
  end.

(** The condition of the [if] that decides whether the checkout runs. *)
Definition checkoutMustRun (checkoutStep : Step) (resultHash : HashVal)
    (checkoutState oldCheckoutState : gmap (option string) (option bytes))
    (checkoutInputHashes : list HashVal) (storedInputHashes : option InputHashes) : bool :=
  force cfg || negb (isDeterministic checkoutStep)
  || bool_decide (resultHash = None)
  || bool_decide (checkoutState ≠ oldCheckoutState)
  || bool_decide (Some (IHList checkoutInputHashes) ≠ storedInputHashes).

(** The branch of [_cookCheckoutStep] that is taken unless the step is
    skipped because of [--build-only]; the result is [checkoutExecuted]. *)
Definition checkoutUnlessBuildOnly (checkoutStep : Step) (prettySrcPath : string)
    (checkoutState oldCheckoutState : gmap (option string) (option bytes)) : M bool :=
  w0 <- get_world ;;
  let oldCheckoutState :=
    if cleanCheckout cfg
    then invalidateDirty w0 checkoutStep checkoutState oldCheckoutState
    else oldCheckoutState in
  checkoutInputHashes <-
    mapM (λ i, BobStateOps.getResultHash (getWorkspacePath i))
         (filter (λ i, isValid i = true) (getAllDepSteps checkoutStep)) ;;
  resultHash <- BobStateOps.getResultHash prettySrcPath ;;
  storedInputHashes <- BobStateOps.getInputHashes prettySrcPath ;;
  if checkoutMustRun checkoutStep resultHash checkoutState oldCheckoutState
       checkoutInputHashes storedInputHashes
  then
    oldCheckoutState <-
      moveToAttic prettySrcPath checkoutState (map_to_list oldCheckoutState)
                  oldCheckoutState ;;
    _ <- checkCollisions prettySrcPath oldCheckoutState
           (fst <$> map_to_list checkoutState) ;;
    _ <- BobStateOps.setDirectoryState prettySrcPath
           (DSCheckout (delete None checkoutState)) ;;
    resultHash <- BobStateOps.getResultHash prettySrcPath ;;
    _ <- (if resultHash is Some _ then
            t <- ask utcnow ;; BobStateOps.setResultHash prettySrcPath (RTime t)
          else ret tt) ;;
    _ <- _runShell checkoutStep "checkout" false ;;
    _ <- set_statistic (λ st, {| checkouts := S (checkouts st);
                                 packagesBuilt := packagesBuilt st;
                                 packagesDownloaded := packagesDownloaded st |}) ;;
    _ <- BobStateOps.setDirectoryState prettySrcPath (DSCheckout checkoutState) ;;
    _ <- BobStateOps.setInputHashes prettySrcPath (IHList checkoutInputHashes) ;;
    vid <- __getIncrementalVariantId checkoutStep ;;
    _ <- BobStateOps.setVariantId prettySrcPath vid ;;
    ret true
  else
    _ <- stepMessage checkoutStep "CHECKOUT" "skipped (fixed package)" ;;
    ret false.

(** The end of [_cookCheckoutStep]: rehash, audit, live build-id upload,
    and the comparison of the build-id used so far with the real one. *)
Definition checkoutFinish (checkoutStep : Step) (depth : N) (prettySrcPath : string)
    (created checkoutExecuted : bool) : M unit :=
  let checkoutDigest := getVariantId checkoutStep in
  oldCheckoutHash <- BobStateOps.getResultHash prettySrcPath ;;
  checkoutHash <- hashWorkspace checkoutStep ;;
  _ <- BobStateOps.setResultHash prettySrcPath (RHash checkoutHash) ;;
  _ <- (if bool_decide (Some (RHash checkoutHash) ≠ oldCheckoutHash) || checkoutExecuted
        then _ <- _generateAudit checkoutStep depth checkoutHash checkoutExecuted ;; ret tt
        else ret tt) ;;
  _ <- (if created && canUploadLocal sys && hasLiveBuildId checkoutStep then
          liveBId <- ask (λ sy w, calcLiveBuildId sy w checkoutStep) ;;
          match liveBId with
          | Some l => emit (EvUploadLiveBuildId checkoutStep l checkoutHash)
          | None => ret tt
          end
        else ret tt) ;;
  _ <- _setAlreadyRun checkoutStep true false ;;
  w <- get_world ;;
  let '(buildId, predicted) :=
    default (Some (RHash checkoutHash), false)
            (srcBuildIds w !! (prettySrcPath, checkoutDigest)) in
  if bool_decide (buildId ≠ Some (RHash checkoutHash)) then
    if predicted then __handleChangedBuildId checkoutStep checkoutHash
    else raise (AssertionError "Non-predicted incorrect Build-Id found!")
  else ret tt.

Definition _cookCheckoutStep (checkoutStep : Step) (depth : N) : M unit :=
  _ <- cookRec (getAllDepSteps checkoutStep) (getPackage checkoutStep) false (depth + 1)%N ;;
  pc <- _constructDir checkoutStep ;;
  let '(prettySrcPath, created) := pc in
  stored <- BobStateOps.getDirectoryState prettySrcPath ;;
  oldCheckoutState <-
    match stored with
    | None => ret ∅
    | Some (DSCheckout m) => ret m
    | Some _ => raise (PyError "directory state of a checkout is no dictionary")
    end ;;
  oldCheckoutState <-
    (if created then
       _ <- BobStateOps.resetWorkspaceState prettySrcPath (DSCheckout ∅) ;; ret ∅
     else ret oldCheckoutState) ;;
  let checkoutState := composeCheckoutState checkoutStep in
  resultHash <- BobStateOps.getResultHash prettySrcPath ;;
  checkoutExecuted <-
    (if buildOnly cfg && bool_decide (resultHash ≠ None) then
       _ <- (if bool_decide (checkoutState ≠ oldCheckoutState)
             then stepMessage checkoutStep "CHECKOUT"
                    "WARNING: recipe changed but skipped due to --build-only"
             else stepMessage checkoutStep "CHECKOUT" "skipped due to --build-only") ;;
       ret false
     else checkoutUnlessBuildOnly checkoutStep prettySrcPath checkoutState oldCheckoutState) ;;
  checkoutFinish checkoutStep depth prettySrcPath created checkoutExecuted.

(** *** Build steps *)

Definition _cookBuildStep (buildStep : Step) (checkoutOnly : bool) (depth : N) : M unit :=
  _ <- cookRec (getAllDepSteps buildStep) (getPackage buildStep) checkoutOnly (depth + 1)%N ;;
  vid <- __getIncrementalVariantId buildStep ;;
  let buildDigest :=
    ([vid; getExecPath buildStep] ++
     (getExecPath <$> filter (λ i, isValid i = true) (getArguments buildStep)))%list in
  pc <- _constructDir buildStep ;;
  let '(prettyBuildPath, created) := pc in
  oldBuildDigest <- BobStateOps.getDirectoryState prettyBuildPath ;;
  _ <- (if created || bool_decide (Some (DSBuild buildDigest) ≠ oldBuildDigest) then
          ex <- ask (λ sy w, os_path_exists sy w prettyBuildPath) ;;
          _ <- (if negb created && ex then
                  _ <- stepMessage buildStep "PRUNE" "recipe changed" ;;
                  emit (EvEmptyDirectory prettyBuildPath)
                else ret tt) ;;
          BobStateOps.resetWorkspaceState prettyBuildPath (DSBuild buildDigest)
        else ret tt) ;;
  buildInputHashes <-
    mapM (λ i, BobStateOps.getResultHash (getWorkspacePath i))
         (filter (λ i, isValid i = true) (getAllDepSteps buildStep)) ;;
  storedInputHashes <- BobStateOps.getInputHashes prettyBuildPath ;;
  if checkoutOnly then
    stepMessage buildStep "BUILD" "skipped due to --checkout-only"
  else if negb (force cfg)
          && bool_decide (storedInputHashes = Some (IHList buildInputHashes)) then
    _ <- stepMessage buildStep "BUILD" "skipped (unchanged input)" ;;
    if negb (cleanBuild cfg) then
      h <- hashWorkspace buildStep ;;
      BobStateOps.setResultHash prettyBuildPath (RHash h)
    else ret tt
  else
    _ <- BobStateOps.delInputHashes prettyBuildPath ;;
    t <- ask utcnow ;;
    _ <- BobStateOps.setResultHash prettyBuildPath (RTime t) ;;
    _ <- _runShell buildStep "build" (cleanBuild cfg) ;;
    buildHash <- hashWorkspace buildStep ;;
    _ <- _generateAudit buildStep depth buildHash true ;;
    _ <- BobStateOps.setResultHash prettyBuildPath (RHash buildHash) ;;
    _ <- BobStateOps.setVariantId prettyBuildPath vid ;;
    BobStateOps.setInputHashes prettyBuildPath (IHList buildInputHashes).

(** *** Package steps *)

(** The value of [oldInputBuildId] after the stored input hashes have
    been taken apart: [None], a hash, or the empty list. *)
Inductive OldBuildId :=
  | IdNone
  | IdHash (h : ResultHash)
  | IdEmptyList.

(** Taking the stored input hashes apart, giving [(oldInputBuildId,
    oldInputHashes, oldWasDownloaded)]: a list of at least one element is
    the build-id followed by the input hashes; [bytes] is the build-id of
    a downloaded package; anything else (nothing, or the empty list) is
    taken as it is, as the input hashes of an old version or a new
    workspace. *)
Definition decodeInputHashes (stored : option InputHashes)
    : OldBuildId * option (list HashVal) * bool :=
  match stored with
  | Some (IHList (first :: rest)) =>
      (match first with Some h => IdHash h | None => IdNone end, Some rest, false)
  | Some (IHBytes b) => (IdHash (RHash b), None, true)
  | Some (IHList []) => (IdEmptyList, Some [], false)
  | None => (IdNone, None, false)
  end.

(** [(oldInputBuildId is not None) and (oldInputBuildId != packageBuildId)] *)
Definition buildIdChanged (oldInputBuildId : OldBuildId) (packageBuildId : bytes) : bool :=
  match oldInputBuildId with
  | IdNone => false
  | IdHash h => bool_decide (h ≠ RHash packageBuildId)
  | IdEmptyList => true
  end.

(** The build-id of a step that is no checkout is [bytes]. *)
Definition packageBuildIdOf (step : Step) (depth : N) : M (option bytes) :=
  if isRelocatable step || bool_decide (getSandbox step ≠ None) then
    r <- _getBuildId step depth ;;
    match r with
    | Some (RHash b) => ret (Some b)
    | None => ret None
    | Some (RTime _) => raise (PyError "build-id of a package is a datetime")
    end
  else ret None.

(** The attempt to download: the result is [(oldInputHashes, wasDownloaded,
    packageHash)], the hash being there if the workspace was changed. *)
Definition packageDownload (packageStep : Step) (checkoutOnly : bool) (depth : N)
    (prettyPackagePath : string) (packageBuildId : option bytes)
    (oldInputBuildId : OldBuildId) (oldInputHashes : option (list HashVal))
    (oldWasDownloaded : bool) : M (option (list HashVal) * bool * option bytes) :=
  match packageBuildId with
  | Some bid =>
      if negb checkoutOnly && truthy bid && (downloadDepth cfg <=? depth)%N then
        oldInputHashes <-
          (if buildIdChanged oldInputBuildId bid || force cfg then
             _ <- stepMessage packageStep "PRUNE"
                    (if force cfg then "build forced" else "build-id changed") ;;
             _ <- emit (EvEmptyDirectory prettyPackagePath) ;;
             _ <- BobStateOps.resetWorkspaceState prettyPackagePath
                    (DSPackage (getVariantId packageStep)) ;;
             ret None
           else ret oldInputHashes) ;;
        resultHash <- BobStateOps.getResultHash prettyPackagePath ;;
        match resultHash with
        | None =>
            wasDownloaded <- ask (λ sy w, downloadPackage sy w packageStep bid) ;;
            _ <- emit (EvDownloadPackage packageStep depth bid wasDownloaded) ;;
            if wasDownloaded then
              _ <- set_statistic (λ st, {| checkouts := checkouts st;
                                           packagesBuilt := packagesBuilt st;
                                           packagesDownloaded := S (packagesDownloaded st) |}) ;;
              _ <- BobStateOps.setInputHashes prettyPackagePath (IHBytes bid) ;;
              packageHash <- hashWorkspace packageStep ;;
              ret (oldInputHashes, true, Some packageHash)
            else if (downloadDepthForce cfg <=? depth)%N then
              raise (BuildError "Downloading artifact failed" "")
            else ret (oldInputHashes, false, None)
        | Some _ =>
            if oldWasDownloaded then
              _ <- stepMessage packageStep "PACKAGE" "skipped (already downloaded)" ;;
              ret (oldInputHashes, true, None)
            else ret (oldInputHashes, false, None)
        end
      else ret (oldInputHashes, false, None)
  | None => ret (oldInputHashes, false, None)
  end.

(** [[packageBuildId] + packageInputHashes] *)
Definition builtInputHashes (packageBuildId : option bytes) (packageInputHashes : list HashVal)
    : InputHashes :=
  IHList ((RHash <$> packageBuildId) :: packageInputHashes).

(** Running the package step itself: the result is [(packageHash,
    packageDigest)] if the script was run, and the input hashes. *)
Definition packageBuild (packageStep : Step) (checkoutOnly : bool) (depth : N)
    (prettyPackagePath : string) (packageBuildId : option bytes)
    (oldInputHashes : option (list HashVal))
    : M (option (bytes * bytes) * list HashVal) :=
  _ <- cookRec (getAllDepSteps packageStep) (getPackage packageStep) checkoutOnly
         (depth + 1)%N ;;
  let packageInputs :=
    (from_option (λ s, [s]) [] (getCheckoutStep packageStep)
     ++ getAllDepSteps packageStep)%list in
  packageInputHashes <-
    mapM (λ i, BobStateOps.getResultHash (getWorkspacePath i))
         (filter (λ i, isValid i = true) packageInputs) ;;
  if checkoutOnly then
    _ <- stepMessage packageStep "PACKAGE" "skipped due to --checkout-only" ;;
    ret (None, packageInputHashes)
  else if negb (force cfg) && bool_decide (oldInputHashes = Some packageInputHashes) then
    _ <- stepMessage packageStep "PACKAGE" "skipped (unchanged input)" ;;
    ret (None, packageInputHashes)
  else
    _ <- BobStateOps.delInputHashes prettyPackagePath ;;
    t <- ask utcnow ;;
    _ <- BobStateOps.setResultHash prettyPackagePath (RTime t) ;;
    _ <- _runShell packageStep "package" true ;;
    packageHash <- hashWorkspace packageStep ;;
    packageDigest <- __getIncrementalVariantId packageStep ;;
    _ <- set_statistic (λ st, {| checkouts := checkouts st;
                                 packagesBuilt := S (packagesBuilt st);
                                 packagesDownloaded := packagesDownloaded st |}) ;;
    _ <- _generateAudit packageStep depth packageHash true ;;
    _ <- (match packageBuildId with
          | Some bid =>
              if truthy bid && canUploadLocal sys
              then emit (EvUploadPackage packageStep bid) else ret tt
          | None => ret tt
          end) ;;
    ret (Some (packageHash, packageDigest), packageInputHashes).

Definition _cookPackageStep (packageStep : Step) (checkoutOnly : bool) (depth : N) : M unit :=
  pc <- _constructDir packageStep ;;
  let '(prettyPackagePath, created) := pc in
  let packageDigest := getVariantId packageStep in
  oldPackageDigest <- BobStateOps.getDirectoryState prettyPackagePath ;;
  _ <- (if created || bool_decide (Some (DSPackage packageDigest) ≠ oldPackageDigest) then
          ex <- ask (λ sy w, os_path_exists sy w prettyPackagePath) ;;
          _ <- (if negb created && ex then
                  _ <- stepMessage packageStep "PRUNE" "recipe changed" ;;
                  emit (EvEmptyDirectory prettyPackagePath)
                else ret tt) ;;
          BobStateOps.resetWorkspaceState prettyPackagePath (DSPackage packageDigest)
        else ret tt) ;;
  packageBuildId <- packageBuildIdOf packageStep depth ;;
  stored <- BobStateOps.getInputHashes prettyPackagePath ;;
  let '(oldInputBuildId, oldInputHashes, oldWasDownloaded) := decodeInputHashes stored in
  dl <- packageDownload packageStep checkoutOnly depth prettyPackagePath packageBuildId
          oldInputBuildId oldInputHashes oldWasDownloaded ;;
  let '(oldInputHashes, wasDownloaded, downloadedHash) := dl in
  if wasDownloaded then
    match downloadedHash, packageBuildId with
    | Some packageHash, Some bid =>
        _ <- BobStateOps.setResultHash prettyPackagePath (RHash packageHash) ;;
        _ <- BobStateOps.setVariantId prettyPackagePath packageDigest ;;
        BobStateOps.setInputHashes prettyPackagePath (IHBytes bid)
    | _, _ => ret tt
    end
  else
    built <- packageBuild packageStep checkoutOnly depth prettyPackagePath packageBuildId
               oldInputHashes ;;
    match built with
    | (Some (packageHash, packageDigest), packageInputHashes) =>
        _ <- BobStateOps.setResultHash prettyPackagePath (RHash packageHash) ;;
        _ <- BobStateOps.setVariantId prettyPackagePath packageDigest ;;
        BobStateOps.setInputHashes prettyPackagePath
          (builtInputHashes packageBuildId packageInputHashes)
    | (None, _) => ret tt
    end.

(** *** The traversal *)

Fixpoint filterM {A} (f : A → M bool) (l : list A) : M (list A) :=
  match l with
  | [] => ret []
  | x :: l' =>
      b <- f x ;; r <- filterM f l' ;; ret (if b then x :: r else r)
  end.

Definition _cookStep (step : Step) (checkoutOnly : bool) (depth : N) : M unit :=
  if negb running then raise CancelBuildException
  else
    already <- _wasAlreadyRun step checkoutOnly ;;
    if already then ret tt
    else if isCheckoutStep step then
      if isValid step then _cookCheckoutStep step depth else ret tt
    else if isBuildStep step then
      if isValid step then
        _ <- _cookBuildStep step checkoutOnly depth ;;
        _setAlreadyRun step false checkoutOnly
      else ret tt
    else if isPackageStep step && isValid step then
      _ <- _cookPackageStep step checkoutOnly depth ;;
      _setAlreadyRun step false checkoutOnly
    else raise (AssertionError "").

Definition _cook (steps : list Step) (parentPackage : PackageT) (checkoutOnly : bool)
    (depth : N) : M unit :=
  let steps :=
    if skipDeps cfg then filter (λ s, getPackage s = parentPackage) steps else steps in
  steps <- filterM (λ s, if isValid s
                         then b <- _wasAlreadyRun s checkoutOnly ;; ret (negb b)
                         else ret false) steps ;;
  forM steps (λ step, __yieldJobWhile (_cookStep step checkoutOnly depth)).

Definition _cookTask (step : Step) (checkoutOnly : bool) (depth : N) : M unit :=
  if negb running then raise CancelBuildException
  else _cook [step] (getPackage step) checkoutOnly depth.

End Cook.

(** The recursion of [_cook] and [__getBuildIdList] through the steps and
    their dependencies, to a given depth of calls; beyond it the
    interpreter would give up. *)
Fixpoint cookFuel (sys : Sys) (cfg : Config) (running : bool) (fuel : nat)
    : (list Step → PackageT → bool → N → M unit) * (list Step → N → M (list HashVal)) :=
  match fuel with
  | O => (λ _ _ _ _, raise (PyError "maximum recursion depth exceeded"),
          λ _ _, raise (PyError "maximum recursion depth exceeded"))
  | S n =>
      let rec := cookFuel sys cfg running n in
      (_cook sys cfg running (fst rec) (snd rec),
       __getBuildIdList sys cfg running (fst rec) (snd rec))
  end.

(** ** The scheduler, with one job *)

Record Sched := {
  sc_running : bool;
  sc_restart : bool;
  cookTasks : gset string;
  buildIdTasks : gset string;
  buildErrors : list Exc }.

(** The exception handlers of [wrapTask] in [__createTask], here around
    the dispatcher (no step, no tracker). *)
Definition wrapTask (cfg : Config) (sc : Sched) (r : Res unit) : Sched * Res unit :=
  match r with
  | Ok a => (sc, Ok a)
  | Raise (BuildError msg help) =>
      ({| sc_running := if keepGoing cfg then sc_running sc else false;
          sc_restart := sc_restart sc; cookTasks := cookTasks sc;
          buildIdTasks := buildIdTasks sc;
          buildErrors := buildErrors sc ++ [BuildError msg help] |},
       Raise CancelBuildException)
  | Raise RestartBuildException =>
      if sc_running sc then
        ({| sc_running := false; sc_restart := true; cookTasks := cookTasks sc;
            buildIdTasks := buildIdTasks sc; buildErrors := buildErrors sc |},
         Raise CancelBuildException)
      else (sc, Raise CancelBuildException)
  | Raise CancelBuildException => (sc, Raise CancelBuildException)
  | Raise e =>
      ({| sc_running := sc_running sc; sc_restart := sc_restart sc;
          cookTasks := cookTasks sc; buildIdTasks := buildIdTasks sc;
          buildErrors := buildErrors sc ++ [e] |},
       Raise CancelBuildException)
  end.

(** [dispatcher] in [cook] *)
Definition dispatcher (sys : Sys) (cfg : Config) (running : bool) (fuel : nat)
    (steps : list Step) (checkoutOnly : bool) (depth : N) : M unit :=
  let rec := cookFuel sys cfg running fuel in
  forM steps (λ step, _cookTask sys cfg running (fst rec) (snd rec) step checkoutOnly depth).

(** What the body of the [while self.__restart] loop sets up. *)
Definition Sched_fresh : Sched :=
  {| sc_running := true; sc_restart := false; cookTasks := ∅; buildIdTasks := ∅;
     buildErrors := [] |}.

(** [cook]: the loop runs the dispatcher again as long as a restart was
    asked for; [rounds] bounds the number of rounds. *)
Fixpoint cookLoop (sys : Sys) (cfg : Config) (fuel rounds : nat)
    (steps : list Step) (checkoutOnly : bool) (depth : N)
    (sc : Sched) (w : World) : Res unit * Sched * World :=
  if sc_restart sc then
    match rounds with
    | O => (Raise (PyError "out of rounds"), sc, w)
    | S rounds' =>
        let sc1 := Sched_fresh in
        let '(r, w1) := dispatcher sys cfg (sc_running sc1) fuel steps checkoutOnly depth w in
        let '(sc2, _) := wrapTask cfg sc1 r in
        match buildErrors sc2 with
        | _ :: _ :: _ => (Raise (MultiBobError (buildErrors sc2)), sc2, w1)
        | [e] => (Raise e, sc2, w1)
        | [] => cookLoop sys cfg fuel rounds' steps checkoutOnly depth sc2 w1
        end
    end
  else if negb (sc_running sc) then
    (Raise (BuildError "Canceled by user!"
                       "Run again with '--resume' to skip already built packages."), sc, w)
  else (Ok tt, sc, w).

Definition cook (sys : Sys) (cfg : Config) (fuel rounds : nat)
    (steps : list Step) (checkoutOnly : bool) (depth : N) (w : World)
    : Res unit * Sched * World :=
  cookLoop sys cfg fuel rounds steps checkoutOnly depth
    {| sc_running := true; sc_restart := true; cookTasks := ∅; buildIdTasks := ∅;
       buildErrors := [] |} w.

(** ** The develop-mode directory oracle *)

Module DevelopDirOracle.

(** A package as [__touch] sees it. *)
Inductive PackageNode : Type := MkPackageNode {
  _getId : N;
  getDirectDeps : list PackageNode;
  getPackageStep : Step;
  getBuildStep : Step;
  nodeCheckoutStep : Step }.

(** The two tables of [.bob-dev-dirs.sqlite3] and the attributes of the
    oracle.  [dirs] maps a base directory to the keys waiting for a
    number, in the order of insertion. *)
Record Oracle := {
  tbl_dirs : gmap bytes string;
  tbl_vsn : option string;
  dirs : list (string * list bytes);
  known : gmap bytes string;
  visited : gset bytes;
  ready : bool }.

Definition Oracle_init (tbl : gmap bytes string) (vsn : option string) : Oracle :=
  {| tbl_dirs := tbl; tbl_vsn := vsn; dirs := []; known := ∅; visited := ∅;
     ready := false |}.

(** [self.__dirs.setdefault(baseDir, []).append(key)] *)
Fixpoint dirs_append (dirs : list (string * list bytes)) (baseDir : string) (key : bytes)
    : list (string * list bytes) :=
  match dirs with
  | [] => [(baseDir, [key])]
  | (b, keys) :: rest =>
      if String.eqb b baseDir then (b, (keys ++ [key])%list) :: rest
      else (b, keys) :: dirs_append rest baseDir key
  end.

Definition keyOf (step : Step) : bytes :=
  getRecipeName (getPackage step) +:+ getVariantId step.

Section Formatter.

Variable formatter : Step → string.
Variable externalPersister : option (Step → string).

(** [__fmt] before the oracle is ready: the first pass.  A key is
    processed once; a directory found in the table is kept if it starts
    with the base directory, otherwise the key waits for a number. *)
Definition collect (step : Step) (o : Oracle) : Oracle :=
  let key := keyOf step in
  let path := tbl_dirs o !! key in
  if bool_decide (key ∈ visited o) then o
  else
    let visited' := {[key]} ∪ visited o in
    match externalPersister with
    | Some ext =>
        {| tbl_dirs := tbl_dirs o; tbl_vsn := tbl_vsn o; dirs := dirs o;
           known := <[key := ext step]> (known o); visited := visited';
           ready := ready o |}
    | None =>
        let baseDir := formatter step in
        match path with
        | Some p =>
            if startswith p baseDir then
              {| tbl_dirs := tbl_dirs o; tbl_vsn := tbl_vsn o; dirs := dirs o;
                 known := <[key := p]> (known o); visited := visited';
                 ready := ready o |}
            else
              {| tbl_dirs := tbl_dirs o; tbl_vsn := tbl_vsn o;
                 dirs := dirs_append (dirs o) baseDir key;
                 known := known o; visited := visited'; ready := ready o |}
        | None =>
            {| tbl_dirs := tbl_dirs o; tbl_vsn := tbl_vsn o;
               dirs := dirs_append (dirs o) baseDir key;
               known := known o; visited := visited'; ready := ready o |}
        end
    end.

(** [__fmt]: once ready, the table is asked. *)
Definition __fmt (step : Step) (o : Oracle) : Res (option string) * Oracle :=
  if ready o then
    match tbl_dirs o !! keyOf step with
    | Some path => (Ok (Some path), o)
    | None => (Raise (AssertionError "missing"), o)
    end
  else (Ok None, collect step o).

(** [__touch]: the dependencies first, then the three steps of the
    package; asking a step for its workspace path calls the formatter,
    [visit]. *)
Fixpoint __touch {S} (visit : Step → S → S) (package : PackageNode) (st : gset N * S)
    : gset N * S :=
  if bool_decide (_getId package ∈ st.1) then st
  else
    let st1 := foldl (λ acc d, __touch visit d acc)
                     ({[_getId package]} ∪ st.1, st.2) (getDirectDeps package) in
    let o1 := visit (getPackageStep package) st1.2 in
    let o2 := visit (getBuildStep package) o1 in
    let o3 := visit (nodeCheckoutStep package) o2 in
    (st1.1, o3).

(** [INSERT INTO dirs]: the key is the primary key of the table. *)
Definition insertRow (key : bytes) (path : string) (tbl : gmap bytes string)
    : option (gmap bytes string) :=
  match tbl !! key with
  | Some _ => None
  | None => Some (<[key := path]> tbl)
  end.

(** The [while True] loop of [__writeBack]: the first number from [num] on
    whose path is not among the kept ones, and the number after it. *)
Fixpoint nextFree (knownDirs : gset string) (baseDir : string) (fuel num : nat)
    : option (string * nat) :=
  match fuel with
  | O => None
  | S fuel' =>
      let path := os_path_join baseDir (pretty num) in
      if bool_decide (path ∈ knownDirs) then nextFree knownDirs baseDir fuel' (S num)
      else Some (path, S num)
  end.

Fixpoint assignKeys (knownDirs : gset string) (baseDir : string) (keys : list bytes)
    (num : nat) (tbl : gmap bytes string) : option (gmap bytes string) :=
  match keys with
  | [] => Some tbl
  | key :: rest =>
      match nextFree knownDirs baseDir (S (size knownDirs)) num with
      | Some (path, num') =>
          match insertRow key path tbl with
          | Some tbl' => assignKeys knownDirs baseDir rest num' tbl'
          | None => None
          end
      | None => None
      end
  end.

Fixpoint assignAll (knownDirs : gset string) (dirs : list (string * list bytes))
    (tbl : gmap bytes string) : option (gmap bytes string) :=
  match dirs with
  | [] => Some tbl
  | (baseDir, keys) :: rest =>
      match assignKeys knownDirs baseDir keys 1 tbl with
      | Some tbl' => assignAll knownDirs rest tbl'
      | None => None
      end
  end.

(** [__writeBack]; [None] stands for an [sqlite3.Error]. *)
Definition __writeBack (o : Oracle) : option Oracle :=
  let knownDirs : gset string := map_img (known o) in
  match assignAll knownDirs (dirs o) (known o) with
  | Some tbl =>
      Some {| tbl_dirs := tbl; tbl_vsn := tbl_vsn o; dirs := []; known := ∅;
              visited := ∅; ready := ready o |}
  | None => None
  end.

(** [__openAndRefresh] *)
Definition __openAndRefresh (cacheKey : string) (rootPackage : PackageNode) (o : Oracle)
    : option Oracle :=
  if bool_decide (tbl_vsn o ≠ Some cacheKey) then
    match __writeBack (__touch (λ step o, (__fmt step o).2) rootPackage (∅, o)).2 with
    | Some o' =>
        Some {| tbl_dirs := tbl_dirs o'; tbl_vsn := Some cacheKey; dirs := dirs o';
                known := known o'; visited := visited o'; ready := ready o' |}
    | None => None
    end
  else Some o.

(** [prime] *)
Definition prime (cacheKey : string) (rootPackage : PackageNode) (o : Oracle)
    : Res unit * Oracle :=
  match __openAndRefresh cacheKey rootPackage o with
  | Some o' =>
      (Ok tt, {| tbl_dirs := tbl_dirs o'; tbl_vsn := tbl_vsn o'; dirs := dirs o';
                 known := known o'; visited := visited o'; ready := true |})
  | None => (Raise (BuildError "Cannot save directory mapping" ""), o)
  end.

End Formatter.

(** The steps in the order in which [__touch] asks for their paths. *)
Definition visitOrder (rootPackage : PackageNode) : list Step :=
  (__touch (λ step l, l ++ [step]) rootPackage (∅, [])).2.

(** The first of [steps] that has the key [key]. *)
Fixpoint firstVisit (steps : list Step) (key : bytes) : option Step :=
  match steps with
  | [] => None
  | step :: rest =>
      if bool_decide (keyOf step = key) then Some step else firstVisit rest key
  end.

(** The first pass over [steps], in order. *)
Definition collectAll (formatter : Step → string) (steps : list Step) (o : Oracle) : Oracle :=
  foldl (λ o step, collect formatter None step o) o steps.

(** The directory of [key] is kept: it is in the table and starts with the
    base directory of the first step that has the key. *)
Definition keeps (formatter : Step → string) (tbl : gmap bytes string) (steps : list Step)
    (key : bytes) (p : string) : Prop :=
  ∃ step, firstVisit steps key = Some step ∧ tbl !! key = Some p
          ∧ startswith p (formatter step) = true.

(** [key] waits for a number under [b]. *)
Definition queues (formatter : Step → string) (tbl : gmap bytes string) (steps : list Step)
    (key : bytes) (b : string) : Prop :=
  ∃ step, firstVisit steps key = Some step ∧ formatter step = b
          ∧ ∀ p, tbl !! key = Some p → startswith p b = false.


(** [key] is in the queue of [b]. *)
Definition queuedAt (D : list (string * list bytes)) (key : bytes) (b : string) : Prop :=
  ∃ keys, (b, keys) ∈ D ∧ key ∈ keys.

(** What the first pass has found after [steps]. *)
Record collected (formatter : Step → string) (tbl : gmap bytes string) (steps : list Step)
    (o : Oracle) : Prop := {
  co_tbl : tbl_dirs o = tbl;
  co_ready : ready o = false;
  co_visited : ∀ key : bytes, key ∈ visited o ↔ is_Some (firstVisit steps key);
  co_known : ∀ (key : bytes) (p : string),
    known o !! key = Some p ↔ keeps formatter tbl steps key p;
  co_queued : ∀ (key : bytes) (b : string),
    queuedAt (dirs o) key b ↔ queues formatter tbl steps key b;
  co_bases : NoDup (dirs o).*1;
  co_bases_from : ∀ b : string, b ∈ (dirs o).*1 → ∃ step, step ∈ steps ∧ formatter step = b;
  co_keys : NoDup (concat (dirs o).*2) }.




(** [__touch] calls [visit] for the steps of [visitOrder], in that order,
    whatever [visit] does. *)
Definition fused {S} (visit : Step → S → S) (package : PackageNode) : Prop :=
  ∀ (done : gset N) (l0 : list Step) (s : S),
    ∃ l, (__touch (λ step l, l ++ [step]) package (done, l0)).2 = l0 ++ l
         ∧ __touch visit package (done, s) =
             ((__touch (λ step l, l ++ [step]) package (done, l0)).1,
              foldl (λ s step, visit step s) s l).

End DevelopDirOracle.

(** [LocalBuilder.developNameFormatter]; [label] is [step.getLabel()]. *)
Definition colon : Ascii.ascii := ":"%char.

(** [base.replace('::', os.sep)] *)
Fixpoint replace_colons (s : string) : string :=
  match s with
  | String a s1 =>
      match s1 with
      | String b s2 =>
          if Ascii.eqb a colon && Ascii.eqb b colon
          then String slash (replace_colons s2)
          else String a (replace_colons s1)
      | EmptyString => s
      end
  | EmptyString => EmptyString
  end.

Definition getLabel (step : Step) : string :=
  match stepKind step with
  | Checkout => "src"
  | Build => "build"
  | Package => "dist"
  end.

Definition developNameFormatter (step : Step) : string :=
  let base := if isCheckoutStep step then getRecipeName (getPackage step)
              else getName (getPackage step) in
  os_path_join (os_path_join "dev" (getLabel step)) (replace_colons base).

(** ** Notions the statements below use *)

(** The steps whose result hashes a package step records. *)
Definition packageInputs (step : Step) : list Step :=
  filter (λ i, isValid i = true)
    (from_option (λ s, [s]) [] (getCheckoutStep step) ++ getAllDepSteps step).

(** [tr] is [base] with more actions in front. *)
Definition extends (tr base : list Event) : Prop := ∃ pre, tr = pre ++ base.




Definition downloadDepths (cfg : Config) : N * N :=
  (downloadDepth cfg, downloadDepthForce cfg).

(** The depth that stands for "never". *)
Definition infinite_depth : N := 0xffff%N.

(** [os.path.abspath(path)] in the directory [cwd]. *)
Definition os_path_abspath (cwd path : string) : string :=
  os_path_normpath (os_path_join cwd path).

(** The workspaces recorded as run and not as skipped, and the predicted
    build-ids of checkout steps. *)
Definition runSet (w : World) : gmap string (bytes * bool) :=
  filter (λ kv, default false (wasSkipped w !! kv.1) = false) (wasRun w).

Definition predictedIds (w : World) : gmap (string * bytes) (HashVal * bool) :=
  filter (λ kv, kv.2.2 = true) (srcBuildIds w).

(** The store marks the result in a workspace as undefined: no input
    hashes, and a time in place of the result hash. *)
Definition fenced (store : BobState) (path : string) : Prop :=
  bsInputHashes store !! path = None
  ∧ ∃ t, bsResultHash store !! path = Some (RTime t).

(** The same for a checkout: the stored directory state lacks the entry of
    the variant-id, and the result hash, if there is one, is a time. *)
Definition checkoutFenced (store : BobState) (path : string) : Prop :=
  (∃ m, bsDirectoryState store !! path = Some (DSCheckout m) ∧ m !! None = None)
  ∧ ∀ h, bsResultHash store !! path ≠ Some (RHash h).

(** A script that was started and did not return 0. *)
Definition failedScript (e : Event) : Prop :=
  match e with
  | EvRunShell _ _ _ _ r => r ≠ inl 0%Z
  | _ => False
  end.

Definition storeOf (e : Event) : option BobState :=
  match e with
  | EvRunShell _ _ _ store _ => Some store
  | _ => None
  end.

(** What holds of every action of a run. *)
Definition event_ok (cfg : Config) (e : Event) : Prop :=
  match e with
  | EvRunShell s scriptName _ store _ =>
      if String.eqb scriptName "checkout"
      then checkoutFenced store (getWorkspacePath s)
      else fenced store (getWorkspacePath s)
  | EvDownloadPackage s depth _ _ =>
      (downloadDepth cfg ≤ depth)%N
      ∧ (isRelocatable s = true ∨ getSandbox s ≠ None)
  | EvUploadPackage s _ => isRelocatable s = true ∨ getSandbox s ≠ None
  | _ => True
  end.

(** [sub] occurs in [s]. *)
Definition contains (s sub : string) : Prop := ∃ pre post, s = pre +:+ sub +:+ post.

(** [s] has a slash in it. *)
Fixpoint has_slash (s : string) : bool :=
  match s with
  | EmptyString => false
  | String a s' => Ascii.eqb a slash || has_slash s'
  end.

(** [sub in s], as a test. *)
Fixpoint containsb (s sub : string) : bool :=
  startswith s sub
  || match s with
     | EmptyString => false
     | String _ s' => containsb s' sub
     end.

(** A computation can end in a value. *)
Definition returns {A} (m : M A) (a : A) : Prop := ∃ w w', m w = (Ok a, w').

(** [sound cfg m]: whatever [m] does is added in front of the trace, each
    of its actions is [event_ok], and if the newest of them is a script
    that failed, [m] ends in a build error with the store as it was when
    the script was started. *)
Definition sound_at (cfg : Config) {A} (m : M A) (w : World) : Prop :=
  ∃ evs,
    trace (m w).2 = evs ++ trace w
    ∧ Forall (event_ok cfg) evs
    ∧ ∀ e evs', evs = e :: evs' → failedScript e →
        (∃ msg help, (m w).1 = Raise (BuildError msg help))
        ∧ Some (bob (m w).2) = storeOf e.

Definition sound (cfg : Config) {A} (m : M A) : Prop := ∀ w, sound_at cfg m w.

Definition quiet (e : Event) : Prop :=
  match e with
  | EvRunShell _ _ _ _ _ => False
  | _ => True
  end.

(** ** A small project to run the definitions on *)

Module Example.

Definition pkg : PackageT := {| getName := "app"; getRecipeName := "app"; getStack := ["app"] |}.

Definition srcStep : Step :=
  {| stepKind := Checkout; isValid := true;
     getWorkspacePath := "dev/src/app/1/workspace";
     getExecPath := "/cwd/dev/src/app/1/workspace";
     getVariantId := "vid-src"; _getSandboxVariantId := "svid-src";
     isDeterministic := true; isRelocatable := true; getSandbox := None;
     hasLiveBuildId := true;
     getScmDirectories := {[ "lib" := "scm-digest" ]};
     getPackage := pkg; getAllDepSteps := []; getArguments := [];
     getCheckoutStep := None |}.

Definition buildStep : Step :=
  {| stepKind := Build; isValid := true;
     getWorkspacePath := "dev/build/app/1/workspace";
     getExecPath := "/cwd/dev/build/app/1/workspace";
     getVariantId := "vid-build"; _getSandboxVariantId := "svid-build";
     isDeterministic := true; isRelocatable := true; getSandbox := None;
     hasLiveBuildId := false; getScmDirectories := ∅;
     getPackage := pkg; getAllDepSteps := [srcStep]; getArguments := [srcStep];
     getCheckoutStep := Some srcStep |}.

Definition distStep (relocatable : bool) : Step :=
  {| stepKind := Package; isValid := true;
     getWorkspacePath := "dev/dist/app/1/workspace";
     getExecPath := "/cwd/dev/dist/app/1/workspace";
     getVariantId := "vid-dist"; _getSandboxVariantId := "svid-dist";
     isDeterministic := true; isRelocatable := relocatable; getSandbox := None;
     hasLiveBuildId := false; getScmDirectories := ∅;
     getPackage := pkg; getAllDepSteps := [buildStep]; getArguments := [buildStep];
     getCheckoutStep := Some srcStep |}.

(** An environment in which the paths in [present] and the directories
    made so far exist, every script returns [code], every download gives
    [download], and the digests are fixed strings. *)
Definition made (w : World) (p : string) : bool :=
  existsb (λ e, match e with EvMakedirs q => String.eqb p q | _ => false end) (trace w).

Definition sys (code : Z) (download : bool) (present : string → bool) : Sys :=
  {| os_path_isdir := λ w p, present p || made w p;
     os_path_exists := λ w p, present p || made w p;
     hashDirectory := λ _ p, "hash-of-" +:+ p;
     utcnow := λ w, N.of_nat (length (trace w));
     now_isoformat := λ _, "2020-01-01T00:00:00";
     run_wrapper := λ _ _ _, inl code;
     scm_status := λ _ _ _, "clean";
     canDownloadLocal := true;
     canUploadLocal := false;
     downloadPackage := λ _ _ _, download;
     downloadLocalLiveBuildId := λ _ _ _, Some "predicted-id";
     predictLiveBuildId := λ _ _, Some "live-id";
     calcLiveBuildId := λ _ _, None;
     getDigest := λ s _, "incremental-" +:+ getVariantId s;
     digestOf := λ s _, "build-id-" +:+ getVariantId s |}.

Definition cfg (force : bool) : Config := Config_init force false false false.

Definition noCook : list Step → PackageT → bool → N → M unit := λ _ _ _ _, ret tt.
Definition noBuildIds : list Step → N → M (list (option ResultHash)) := λ _ _, ret [].

Definition nothing : string → bool := λ _, false.

(** A checkout step that needs a tool, and a store in which the tool has
    its result. *)
Definition srcWithTool : Step :=
  {| stepKind := Checkout; isValid := true;
     getWorkspacePath := "dev/src/app/1/workspace";
     getExecPath := "/cwd/dev/src/app/1/workspace";
     getVariantId := "vid-src"; _getSandboxVariantId := "svid-src";
     isDeterministic := true; isRelocatable := true; getSandbox := None;
     hasLiveBuildId := true;
     getScmDirectories := {[ "lib" := "scm-digest" ]};
     getPackage := pkg; getAllDepSteps := [distStep true]; getArguments := [];
     getCheckoutStep := None |}.


(** The same step in another package, or as another variant. *)
Definition inPackage (p : PackageT) (suffix : string) (s : Step) : Step :=
  {| stepKind := stepKind s; isValid := isValid s;
     getWorkspacePath := getWorkspacePath s; getExecPath := getExecPath s;
     getVariantId := getVariantId s +:+ suffix;
     _getSandboxVariantId := _getSandboxVariantId s;
     isDeterministic := isDeterministic s; isRelocatable := isRelocatable s;
     getSandbox := getSandbox s; hasLiveBuildId := hasLiveBuildId s;
     getScmDirectories := getScmDirectories s; getPackage := p;
     getAllDepSteps := getAllDepSteps s; getArguments := getArguments s;
     getCheckoutStep := getCheckoutStep s |}.

Definition libPkg : PackageT :=
  {| getName := "lib"; getRecipeName := "lib"; getStack := ["app"; "lib"] |}.

(** A library, and a tool that is a second variant of the recipe [app];
    the root depends on the library twice and on the tool. *)
Definition libNode : DevelopDirOracle.PackageNode :=
  DevelopDirOracle.MkPackageNode 2 []
    (inPackage libPkg "" (distStep true)) (inPackage libPkg "" buildStep)
    (inPackage libPkg "" srcStep).

Definition toolNode : DevelopDirOracle.PackageNode :=
  DevelopDirOracle.MkPackageNode 3 [libNode]
    (inPackage pkg "-tool" (distStep true)) (inPackage pkg "-tool" buildStep)
    (inPackage pkg "-tool" srcStep).

Definition root : DevelopDirOracle.PackageNode :=
  DevelopDirOracle.MkPackageNode 1 [libNode; toolNode; libNode]
    (distStep true) buildStep srcStep.

(** A table of an earlier run: the directory of the checkout of [app] is
    still good, the one of its package step is from another layout. *)
Definition oldDirs : gmap bytes string :=
  {[ "appvid-src" := "dev/src/app/1"; "appvid-dist" := "work/app/dist/1";
     "gonevid" := "dev/src/gone/1" ]}.


End Example.

(** * More definitions: the package tree, the checkout state, invariants
      of a run, and the commands *)

(** ** The tree of packages *)

Module PackageTree.

Import DevelopDirOracle.

(** [q] is [p] or one of the packages [p] depends on, directly or not. *)
Inductive reachable : PackageNode → PackageNode → Prop :=
  | reach_refl (p : PackageNode) : reachable p p
  | reach_dep (p d q : PackageNode) :
      d ∈ getDirectDeps p → reachable d q → reachable p q.

(** The number of packages in the tree below [p], with repetitions. *)
Fixpoint nsize (p : PackageNode) : nat :=
  match p with
  | MkPackageNode _ deps _ _ _ => S (list_sum (List.map nsize deps))
  end.

(** The three steps of a package. *)
Definition stepsOf (p : PackageNode) : list Step :=
  [getPackageStep p; getBuildStep p; nodeCheckoutStep p].

(** The visitor that records the steps it is called with. *)
Abbreviation record := (λ (step : Step) (l : list Step), l ++ [step]).

(** [__touch] of [p] records steps of packages below [p] only. *)
Definition fromBelow (p : PackageNode) : Prop :=
  ∀ (done : gset N) (l : list Step) (step : Step),
    step ∈ (__touch record p (done, l)).2 →
    step ∈ l ∨ ∃ q, reachable p q ∧ step ∈ stepsOf q.

(** The packages below [root] that were finished between [done] and
    [done'] have their steps in [l], and their dependencies are finished
    too. *)
Definition finished (root : PackageNode) (done done' : gset N) (l : list Step) : Prop :=
  ∀ q : PackageNode, reachable root q → _getId q ∈ done' → _getId q ∉ done →
    stepsOf q ⊆ l ∧ ∀ d, d ∈ getDirectDeps q → _getId d ∈ done'.

(** [__touch] of [p] finishes [p] and all that it visits. *)
Definition covers (root p : PackageNode) : Prop :=
  reachable root p →
  ∀ (done : gset N) (l : list Step),
    let r := __touch record p (done, l) in
    done ⊆ r.1 ∧ l ⊆ r.2 ∧ _getId p ∈ r.1 ∧ finished root done r.1 r.2.

(** The first pass with an external persister. *)
Definition collectAllExt (formatter : Step → string) (ext : Step → string)
    (steps : list Step) (o : Oracle) : Oracle :=
  foldl (λ o step, collect formatter (Some ext) step o) o steps.

End PackageTree.

(** ** The state of a checkout *)

(** The entry of the stored checkout state is still good for the new
    state [checkoutState]: it is the entry of the variant-id, or its
    digest is the one of the new state. *)
Definition current (checkoutState : gmap (option string) (option bytes))
    (kv : option string * option bytes) : Prop :=
  kv.1 = None ∨ kv.2 = dictGet checkoutState kv.1.

#[global] Instance current_dec checkoutState kv : Decision (current checkoutState kv).
Proof. unfold current. apply _. Defined.

(** The new SCM directory [d] collides with something in the workspace. *)
Definition collides (sys : Sys) (w : World) (prettySrcPath : string)
    (oldCheckoutState : gmap (option string) (option bytes)) (d : string) : Prop :=
  d ≠ "." ∧ dictGet oldCheckoutState (Some d) = None
  ∧ os_path_exists sys w (os_path_normpath (os_path_join prettySrcPath d)) = true.

(** What is left of the stored state [cur] when the entries of [items]
    that are out of date are dropped one after the other. *)
Definition dropOutdated (cs : gmap (option string) (option bytes))
    (items : list (option string * option bytes))
    (cur : gmap (option string) (option bytes)) : gmap (option string) (option bytes) :=
  foldl (λ m kv, if decide (current cs kv) then m else delete kv.1 m) cur items.

(** The world after [setDirectoryState]. *)
Definition setDir (path : string) (m : gmap (option string) (option bytes)) (w : World)
    : World :=
  (BobStateOps.setDirectoryState path (DSCheckout m) w).2.

(** ** More of the small project *)

Module Scenario.

(** The environment of [Example.sys] with SCMs that all report [status],
    and an archive that can upload if [upload] is set. *)
Definition sysWith (status : string) (upload : bool) (code : Z) (download : bool)
    (present : string → bool) : Sys :=
  let sys := Example.sys code download present in
  {| os_path_isdir := os_path_isdir sys;
     os_path_exists := os_path_exists sys;
     hashDirectory := hashDirectory sys;
     utcnow := utcnow sys;
     now_isoformat := now_isoformat sys;
     run_wrapper := run_wrapper sys;
     scm_status := λ _ _ _, status;
     canDownloadLocal := canDownloadLocal sys;
     canUploadLocal := upload;
     downloadPackage := downloadPackage sys;
     downloadLocalLiveBuildId := downloadLocalLiveBuildId sys;
     predictLiveBuildId := predictLiveBuildId sys;
     calcLiveBuildId := calcLiveBuildId sys;
     getDigest := getDigest sys;
     digestOf := digestOf sys |}.

(** The stored state of a checkout whose SCM directory [lib] was checked
    out with the digest of the recipe. *)
Definition libCheckedOut : gmap (option string) (option bytes) :=
  {[ Some "lib" := Some "scm-digest" ]}.

End Scenario.

(** ** The build step *)


(** ** What a run never does *)

(** [obeys P m]: whatever [m] does is added in front of the trace, and
    each of its actions is [P]. *)
Definition obeys_at (P : Event → Prop) {A} (m : M A) (w : World) : Prop :=
  ∃ evs, trace (m w).2 = evs ++ trace w ∧ Forall P evs.

Definition obeys (P : Event → Prop) {A} (m : M A) : Prop := ∀ w, obeys_at P m w.

(** The rules of the builder for its actions: a checkout script never
    starts in a cleaned workspace, and with [--build-only] only in a
    workspace that has no result; a build script cleans the workspace as
    [--clean-build] says; the package script always does; nothing is
    uploaded unless the archive takes uploads, and a live build-id only
    for a step that has one; no package is asked for or uploaded under an
    empty build-id; the audit trail of a checkout step has the result
    hash as build-id. *)
Definition policy (sys : Sys) (cfg : Config) (e : Event) : Prop :=
  match e with
  | EvRunShell s scriptName clean store _ =>
      if String.eqb scriptName "checkout" then
        clean = false
        ∧ (buildOnly cfg = true → bsResultHash store !! getWorkspacePath s = None)
      else if String.eqb scriptName "build" then clean = cleanBuild cfg
      else scriptName = "package" ∧ clean = true
  | EvUploadPackage _ buildId => canUploadLocal sys = true ∧ truthy buildId = true
  | EvUploadLiveBuildId s _ _ => canUploadLocal sys = true ∧ hasLiveBuildId s = true
  | EvDownloadPackage _ _ buildId _ => truthy buildId = true
  | EvAudit s buildId resultHash _ =>
      isCheckoutStep s = true → buildId = Some (RHash resultHash)
  | _ => True
  end.

(** ** The statistics of a run *)

(** [e] is a script of the kind [name] that returned 0. *)
Definition succeeded (name : string) (e : Event) : bool :=
  match e with
  | EvRunShell _ scriptName _ _ (inl code) => String.eqb scriptName name && (code =? 0)%Z
  | _ => false
  end.

Definition downloaded (e : Event) : bool :=
  match e with
  | EvDownloadPackage _ _ _ ok => ok
  | _ => false
  end.

Definition count (p : Event → bool) (tr : list Event) : nat :=
  length (filter (λ e, p e = true) tr).

(** The statistic counts what the trace shows. *)
Definition counted (w : World) : Prop :=
  checkouts (statistic w) = count (succeeded "checkout") (trace w)
  ∧ packagesBuilt (statistic w) = count (succeeded "package") (trace w)
  ∧ packagesDownloaded (statistic w) = count downloaded (trace w).

(** [m] keeps what holds of the world. *)
Definition preserves (I : World → Prop) {A} (m : M A) : Prop := ∀ w, I w → I (m w).2.

Definition isOk {A} (r : Res A) : bool :=
  match r with
  | Ok _ => true
  | Raise _ => false
  end.

(** ** The commands [clean] and [query-path], and the results of a build *)

Module Commands.
Import DevelopDirOracle.

Section Paths.

(** [step.getWorkspacePath()] under the name formatter of the command;
    with [releaseNameInterrogator] it is [None] for a step that has no
    directory yet. *)
Variable workspacePath : Step → option string.

(** [collectPaths] *)
Fixpoint collectPaths (package : PackageNode) : gset (option string) :=
  let paths : gset (option string) := ∅ in
  let checkoutStep := nodeCheckoutStep package in
  let paths := if isValid checkoutStep then paths ∪ {[workspacePath checkoutStep]}
               else paths in
  let buildStep := getBuildStep package in
  let paths := if isValid buildStep then paths ∪ {[workspacePath buildStep]} else paths in
  let paths := paths ∪ {[workspacePath (getPackageStep package)]} in
  foldl (λ paths d, paths ∪ collectPaths d) paths (getDirectDeps package).

(** The options of [bob clean]. *)
Record CleanArgs := { dry_run : bool; src : bool; verbose : bool }.

(** What [doClean] does to the outside. *)
Inductive CleanAction :=
  | PrintLine (line : string)
  | RemovePath (d : string).

(** The loop [for d in allPaths - usedPaths]; an exception of
    [removePath] ends it. *)
Fixpoint cleanLoop (args : CleanArgs) (removePath : string → Res unit) (ds : list string)
    : Res unit * list CleanAction :=
  match ds with
  | [] => (Ok tt, [])
  | d :: rest =>
      let printed := if verbose args || dry_run args then [PrintLine ("rm " +:+ d)] else [] in
      if negb (dry_run args) then
        match removePath d with
        | Raise e => (Raise e, printed ++ [RemovePath d])
        | Ok _ =>
            let '(r, actions) := cleanLoop args removePath rest in
            (r, printed ++ RemovePath d :: actions)
        end
      else
        let '(r, actions) := cleanLoop args removePath rest in
        (r, printed ++ actions)
  end.

(** Modelled from the spec: [BobState().getAllNameDirectores()]
    (pym/bob/state.py) is not part of the sources at hand.  Section 4.1
    lists it as the mapping of the release directories that the clean
    subcommand reads; an entry is a directory and whether it is a source
    directory.  The function [removePath] (pym/bob/utils.py) is not part
    of the sources either; it removes a file or a directory tree or
    raises an exception, here the answer of [removePath]. *)
Definition doClean (args : CleanArgs) (rootSandbox rootNoSandbox : PackageNode)
    (getAllNameDirectores : list (string * bool)) (os_path_exists : string → bool)
    (removePath : string → Res unit) : Res unit * list CleanAction :=
  let usedPaths := (∅ ∪ collectPaths rootSandbox) ∪ collectPaths rootNoSandbox in
  let cleanSources := src args in
  let allPaths :=
    (λ x, os_path_join x.1 "workspace")
      <$> filter (λ x, negb x.2 || (x.2 && cleanSources) = true) getAllNameDirectores in
  let allPaths : gset string := list_to_set (filter (λ d, os_path_exists d = true) allPaths) in
  cleanLoop args removePath
    (filter (λ d, Some d ∉ usedPaths) (elements allPaths)).

(** The paths [collectPaths] adds for one package. *)
Definition ownPaths (package : PackageNode) : gset (option string) :=
  (if isValid (nodeCheckoutStep package)
   then {[workspacePath (nodeCheckoutStep package)]} else ∅)
  ∪ (if isValid (getBuildStep package)
     then {[workspacePath (getBuildStep package)]} else ∅)
  ∪ {[workspacePath (getPackageStep package)]}.

(** [bob query-path]: the class [State]. *)
Record State := { packageText : string; showPackage : bool }.

Definition State_init : State := {| packageText := ""; showPackage := true |}.

Definition appendText (what : string) (self : State) : State :=
  {| packageText := packageText self +:+ what; showPackage := showPackage self |}.

Definition appendStep (os_path_isdir : string → bool) (step : Step) (self : State) : State :=
  match workspacePath step with
  | Some dir =>
      if isValid step && os_path_isdir dir
      then {| packageText := packageText self +:+ dir; showPackage := showPackage self |}
      else {| packageText := packageText self; showPackage := false |}
  | None => {| packageText := packageText self; showPackage := false |}
  end.

(** The loop over [Formatter().parse(args.f)] for one package; a field is
    the literal text and the name of the placeholder after it, if there
    is one.  The result is the [ParseError] of an unknown placeholder, or
    the state. *)
Fixpoint formatFields (os_path_isdir : string → bool) (package : PackageNode)
    (fields : list (string * option string)) (state : State) : string + State :=
  match fields with
  | [] => inr state
  | (text, var) :: rest =>
      let state := appendText text state in
      match var with
      | None => formatFields os_path_isdir package rest state
      | Some v =>
          if String.eqb v "name" then
            formatFields os_path_isdir package rest
              (appendText (join_slash (getStack (getPackage (getPackageStep package)))) state)
          else if String.eqb v "src" then
            formatFields os_path_isdir package rest
              (appendStep os_path_isdir (nodeCheckoutStep package) state)
          else if String.eqb v "build" then
            formatFields os_path_isdir package rest
              (appendStep os_path_isdir (getBuildStep package) state)
          else if String.eqb v "dist" then
            formatFields os_path_isdir package rest
              (appendStep os_path_isdir (getPackageStep package) state)
          else inl ("Unknown field '{" +:+ v +:+ "}'")
      end
  end.

(** What is printed for one package: [state.print()]. *)
Definition queryPackage (os_path_isdir : string → bool) (package : PackageNode)
    (fields : list (string * option string)) : string + option string :=
  match formatFields os_path_isdir package fields State_init with
  | inl err => inl err
  | inr state => inr (if showPackage state then Some (packageText state) else None)
  end.

(** The step a placeholder asks for. *)
Definition stepOfField (package : PackageNode) (v : string) : option Step :=
  if String.eqb v "src" then Some (nodeCheckoutStep package)
  else if String.eqb v "build" then Some (getBuildStep package)
  else if String.eqb v "dist" then Some (getPackageStep package)
  else None.

(** The directory of a step that can be shown. *)
Definition shownDir (os_path_isdir : string → bool) (step : Step) : option string :=
  match workspacePath step with
  | Some dir => if isValid step && os_path_isdir dir then Some dir else None
  | None => None
  end.

(** The placeholders of [bob query-path]. *)
Definition knownFields : list string := ["name"; "src"; "build"; "dist"].

(** What a placeholder stands for, if it can be shown; no placeholder
    stands for the empty text. *)
Definition fieldValue (os_path_isdir : string → bool) (package : PackageNode)
    (var : option string) : option string :=
  match var with
  | None => Some ""
  | Some v =>
      if String.eqb v "name"
      then Some (join_slash (getStack (getPackage (getPackageStep package))))
      else stepOfField package v ≫= shownDir os_path_isdir
  end.

(** The literal texts and the values of the placeholders, in order. *)
Definition lineOf (os_path_isdir : string → bool) (package : PackageNode)
    (fields : list (string * option string)) : string :=
  foldr (λ field acc,
           field.1 +:+ default "" (fieldValue os_path_isdir package field.2) +:+ acc)
        "" fields.

End Paths.

(** The two loops of [commonBuildDevelop] that gather the result paths,
    around the two calls of [cook]: the result is what the post-build
    hook is called with, ["success"] or ["fail"] and the results. *)
Definition addResults (backlog : list Step) (results : list string) : list string :=
  foldl (λ results p,
           let resultPath := getWorkspacePath p in
           if bool_decide (resultPath ∉ results) then results ++ [resultPath] else results)
        results backlog.

Definition buildResults (cookBacklog cookProvided : Res unit)
    (backlog providedBacklog : list Step) : bool * list string :=
  let results := [] in
  match cookBacklog with
  | Raise _ => (false, results)
  | Ok _ =>
      let results := addResults backlog results in
      match cookProvided with
      | Raise _ => (false, results)
      | Ok _ => (true, addResults providedBacklog results)
      end
  end.

End Commands.

(** * Reasoning about runs

    An invariant of computations that is kept by [bind] and by the
    loops: what a computation does is added in front of the trace, every
    action is [event_ok], and a script that failed as the newest action
    means a build error with the store untouched since the script was
    started. *)

Module Soundness.

Section Sound.
Variable cfg : Config.

Lemma sound_at_silent {A} (m : M A) w : trace (m w).2 = trace w → sound_at cfg m w.
Proof. intros H. exists []. rewrite H. split_and!; [done|constructor|done]. Qed.

Lemma sound_silent {A} (m : M A) : (∀ w, trace (m w).2 = trace w) → sound cfg m.
Proof. intros H w. by apply sound_at_silent. Qed.

Lemma sound_ret {A} (a : A) : sound cfg (ret a).
Proof. by apply sound_silent. Qed.

Lemma sound_raise {A} e : sound cfg (@raise A e).
Proof. by apply sound_silent. Qed.

Lemma sound_get_world : sound cfg get_world.
Proof. by apply sound_silent. Qed.

Lemma sound_modify f : (∀ w, trace (f w) = trace w) → sound cfg (modify f).
Proof. intros H. by apply sound_silent. Qed.

Lemma sound_emit e : event_ok cfg e → quiet e → sound cfg (emit e).
Proof.
  intros H Hq w. exists [e]. split_and!; [done|by constructor|].
  intros e' evs' [= <- <-] Hf. by destruct e.
Qed.

Lemma sound_at_bind {A B} (m : M A) (f : A → M B) w :
  sound_at cfg m w → (∀ a w1, m w = (Ok a, w1) → sound_at cfg (f a) w1) →
  sound_at cfg (bind m f) w.
Proof.
  intros Hm Hf. unfold sound_at, bind. destruct Hm as (evs & E & F & G).
  destruct (m w) as [[a|e] w1] eqn:Em; simpl in *.
  - destruct (Hf a w1 eq_refl) as (evs' & E' & F' & G').
    exists (evs' ++ evs). rewrite E', E, app_assoc. split_and!; [done|by apply Forall_app|].
    intros e0 evs0 Heq Hfail. destruct evs' as [|e1 evs1]; simpl in Heq.
    + destruct (G e0 evs0 Heq Hfail) as [(msg & help & ?) _]. done.
    + injection Heq as <- <-. by apply (G' e1 evs1).
  - exists evs. split_and!; [done|done|]. intros e0 evs0 Heq Hfail.
    destruct (G e0 evs0 Heq Hfail) as [(msg & help & [= ->]) ?]. eauto.
Qed.

Lemma sound_bind {A B} (m : M A) (f : A → M B) :
  sound cfg m → (∀ a, returns m a → sound cfg (f a)) → sound cfg (bind m f).
Proof.
  intros Hm Hf w. apply sound_at_bind; [apply Hm|].
  intros a w1 E. apply Hf. by exists w, w1.
Qed.

Lemma sound_forM {A} (l : list A) (f : A → M unit) :
  (∀ x, x ∈ l → sound cfg (f x)) → sound cfg (forM l f).
Proof.
  induction l as [|x l IH]; intros H; simpl.
  - apply sound_ret.
  - apply sound_bind; [apply H; left | intros _ _; apply IH; intros; apply H; by right].
Qed.

Lemma sound_mapM {A B} (f : A → M B) (l : list A) :
  (∀ x, x ∈ l → sound cfg (f x)) → sound cfg (mapM f l).
Proof.
  induction l as [|x l IH]; intros H; simpl.
  - apply sound_ret.
  - apply sound_bind; [apply H; left|]. intros y _.
    apply sound_bind; [apply IH; intros; apply H; by right|]. intros; apply sound_ret.
Qed.

Lemma sound_filterM {A} (f : A → M bool) (l : list A) :
  (∀ x, x ∈ l → sound cfg (f x)) → sound cfg (filterM f l).
Proof.
  induction l as [|x l IH]; intros H; simpl.
  - apply sound_ret.
  - apply sound_bind; [apply H; left|]. intros y _.
    apply sound_bind; [apply IH; intros; apply H; by right|]. intros; apply sound_ret.
Qed.

End Sound.

Ltac sound_prim :=
  first
    [ apply sound_ret
    | apply sound_raise
    | apply sound_get_world
    | apply sound_modify; intros; reflexivity
    | apply sound_emit; [ first [ exact I | assumption | done ] | exact I ] ].

Ltac sound_go :=
  repeat first
    [ sound_prim
    | assumption
    | apply sound_bind; [ | intros ? ? ]
    | progress unfold when, ask, stepMessage, hashWorkspace, set_bob, set_wasRun,
        set_wasSkipped, set_srcBuildIds, set_buildDistBuildIds, set_statistic,
        BobStateOps.getVariantId, BobStateOps.setVariantId,
        BobStateOps.getDirectoryState, BobStateOps.setDirectoryState,
        BobStateOps.getInputHashes, BobStateOps.setInputHashes,
        BobStateOps.delInputHashes, BobStateOps.getResultHash,
        BobStateOps.setResultHash, BobStateOps.resetWorkspaceState,
        BobStateOps.getBuildId, BobStateOps.setBuildId, BobStateOps.delBuildId,
        _wasAlreadyRun, _setAlreadyRun, _clearWasRun, __yieldJobWhile,
        __getIncrementalVariantId
    | match goal with
      | |- sound _ (if ?b then _ else _) => destruct b eqn:?
      | |- sound _ (match ?x with _ => _ end) => destruct x eqn:?
      | |- sound _ (let '(_, _) := ?x in _) => destruct x eqn:?
      end ].

(** ** The wrapper script *)

Lemma runShell_spec sys step scriptName clean w :
  let res := _runShell sys step scriptName clean w in
  let abs := absRunFile (getWorkspacePath step) scriptName in
  ∃ pre w1,
    Forall (λ e, e = EvEmptyDirectory (getWorkspacePath step)
                 ∨ e = EvMakedirs (getWorkspacePath step)) pre
    ∧ trace w1 = pre ++ trace w ∧ bob w1 = bob w
    ∧ trace res.2 =
        EvRunShell step scriptName clean (bob w) (run_wrapper sys w1 step scriptName)
          :: pre ++ trace w
    ∧ bob res.2 = bob w
    ∧ wasRun res.2 = wasRun w ∧ wasSkipped res.2 = wasSkipped w
    ∧ srcBuildIds res.2 = srcBuildIds w
    ∧ buildDistBuildIds res.2 = buildDistBuildIds w
    ∧ statistic res.2 = statistic w
    ∧ res.1 = match run_wrapper sys w1 step scriptName with
              | inr e => Raise (BuildError
                           ("Cannot execute build script " +:+ abs +:+ ": " +:+ e) "")
              | inl code => (checkReturnCode abs code res.2).1
              end.
Proof.
  intros res abs. subst res abs.
  unfold _runShell, bind, when, ask, get_world, ret, emit, modify. simpl.
  destruct clean; simpl;
    match goal with |- context [os_path_isdir sys ?w0 _] =>
      destruct (os_path_isdir sys w0 (getWorkspacePath step)) eqn:Ed end; simpl;
    match goal with |- context [run_wrapper sys ?w0 step scriptName] =>
      first [ exists [], w0; simpl; split; [constructor|split; [reflexivity|]]
            | exists [EvEmptyDirectory (getWorkspacePath step)], w0; simpl;
              split; [repeat (constructor; [by auto|]); constructor
                     |split; [reflexivity|]]
            | exists [EvMakedirs (getWorkspacePath step)], w0; simpl;
              split; [repeat (constructor; [by auto|]); constructor
                     |split; [reflexivity|]]
            | exists [EvMakedirs (getWorkspacePath step);
                      EvEmptyDirectory (getWorkspacePath step)], w0; simpl;
              split; [repeat (constructor; [by auto|]); constructor
                     |split; [reflexivity|]] ];
      destruct (run_wrapper sys w0 step scriptName) as [code|err] eqn:Er end; simpl;
    unfold checkReturnCode, raise, ret; repeat case_bool_decide; simpl;
    split_and!; done.
Qed.

Lemma sound_at_runShell cfg sys step scriptName clean w :
  (∀ r, event_ok cfg (EvRunShell step scriptName clean (bob w) r)) →
  sound_at cfg (_runShell sys step scriptName clean) w.
Proof.
  intros Hok.
  destruct (runShell_spec sys step scriptName clean w)
    as (pre & w1 & Hpre & Ht1 & Hb1 & Ht & Hb & _ & _ & _ & _ & _ & Hr).
  eexists. split; [rewrite Ht; by rewrite app_comm_cons|]. split.
  - constructor; [apply Hok|]. eapply Forall_impl; [exact Hpre|].
    by intros e [-> | ->].
  - intros e evs' [= <- <-] Hfail. simpl in *. rewrite Hb. split; [|done].
    rewrite Hr. destruct (run_wrapper sys w1 step scriptName) as [code|err]; [|eauto].
    unfold checkReturnCode, raise, ret. repeat case_bool_decide; simpl; eauto.
    congruence.
Qed.

Lemma sound_runShell_checkout cfg sys step clean w :
  checkoutFenced (bob w) (getWorkspacePath step) →
  sound_at cfg (_runShell sys step "checkout" clean) w.
Proof. intros H. apply sound_at_runShell. intros r. exact H. Qed.

Lemma sound_runShell_fenced cfg sys step scriptName clean w :
  String.eqb scriptName "checkout" = false →
  fenced (bob w) (getWorkspacePath step) →
  sound_at cfg (_runShell sys step scriptName clean) w.
Proof. intros Hn H. apply sound_at_runShell. intros r. simpl. by rewrite Hn. Qed.

(** The three lines in front of the build and the package script. *)
Lemma sound_fence_run cfg sys step scriptName clean {B} (k : unit → M B) :
  String.eqb scriptName "checkout" = false →
  (∀ a, sound cfg (k a)) →
  sound cfg
    (bind (BobStateOps.delInputHashes (getWorkspacePath step)) (λ _,
     bind (ask sys utcnow) (λ t,
     bind (BobStateOps.setResultHash (getWorkspacePath step) (RTime t)) (λ _,
     bind (_runShell sys step scriptName clean) k)))).
Proof.
  intros Hn Hk w.
  apply sound_at_bind; [by apply sound_at_silent|]. intros [] w1 [= <-].
  apply sound_at_bind; [by apply sound_at_silent|]. intros t w2 [= <- <-].
  apply sound_at_bind; [by apply sound_at_silent|]. intros [] w3 [= <-].
  apply sound_at_bind; [|intros; apply Hk].
  apply sound_runShell_fenced; [done|]. split; simpl.
  - apply lookup_delete_eq.
  - eexists. apply lookup_insert_eq.
Qed.

End Soundness.

(** * The steps keep the invariant

    Every function of the builder, from [_constructDir] up to the
    dispatcher, is [sound], whatever the environment answers. *)

Module StepSoundness.

Import Soundness.

Lemma constructDir_returns sys step p c :
  returns (_constructDir sys step) (p, c) → p = getWorkspacePath step.
Proof.
  intros (w & w' & H). revert H.
  unfold _constructDir, bind, ask, get_world, ret, emit, modify. simpl.
  destruct (os_path_isdir sys w (getWorkspacePath step)); simpl; congruence.
Qed.

(** The lines in front of the checkout script. *)
Lemma sound_checkout_fence (cfg : Config) (sys : Sys) (step : Step) (clean : bool)
    (checkoutState : gmap (option string) (option string)) {B} (k : unit → M B) :
  (∀ a, sound cfg (k a)) →
  sound cfg
    (bind (BobStateOps.setDirectoryState (getWorkspacePath step)
             (DSCheckout (delete None checkoutState))) (λ _,
     bind (BobStateOps.getResultHash (getWorkspacePath step)) (λ resultHash,
     bind (if resultHash is Some _ then
             bind (ask sys utcnow) (λ t,
               BobStateOps.setResultHash (getWorkspacePath step) (RTime t))
           else ret tt) (λ _,
     bind (_runShell sys step "checkout" clean) k)))).
Proof.
  intros Hk w.
  apply sound_at_bind; [by apply sound_at_silent|]. intros [] w1 [= <-].
  apply sound_at_bind; [by apply sound_at_silent|]. intros rh w2 [= <- <-].
  apply sound_at_bind.
  { destruct (bsResultHash _ !! _); by apply sound_at_silent. }
  intros [] w3 E. apply sound_at_bind; [|intros; apply Hk].
  apply sound_runShell_checkout. revert E. simpl.
  destruct (bsResultHash (bob w) !! getWorkspacePath step) as [h|] eqn:Eh; simpl;
    unfold bind, ask, get_world, ret, BobStateOps.setResultHash, set_bob, modify; simpl;
    intros [= <-]; (split; simpl;
      [ eexists; split; [apply lookup_insert_eq|apply lookup_delete_eq]
      | intros h'; rewrite ?lookup_insert_eq, ?Eh; congruence ]).
Qed.

Ltac sound_hook :=
  repeat match goal with
  | H : returns (_constructDir _ ?s) (?p, _) |- _ =>
      apply constructDir_returns in H; subst p
  end.

Ltac sound_all :=
  repeat first
    [ sound_prim
    | assumption
    | match goal with H : context [sound] |- _ => apply H end
    | apply sound_fence_run; [ reflexivity | intros ? ]
    | apply sound_checkout_fence; intros ?
    | apply sound_bind; [ | intros ? ? ]
    | progress unfold when, ask, stepMessage, hashWorkspace, set_bob, set_wasRun,
        set_wasSkipped, set_srcBuildIds, set_buildDistBuildIds, set_statistic,
        BobStateOps.getVariantId, BobStateOps.setVariantId,
        BobStateOps.getDirectoryState, BobStateOps.setDirectoryState,
        BobStateOps.getInputHashes, BobStateOps.setInputHashes,
        BobStateOps.getResultHash,
        BobStateOps.resetWorkspaceState,
        BobStateOps.getBuildId, BobStateOps.setBuildId, BobStateOps.delBuildId,
        _wasAlreadyRun, _setAlreadyRun, _clearWasRun, __yieldJobWhile,
        __getIncrementalVariantId
    | match goal with
      | |- sound _ (if ?b then _ else _) => destruct b eqn:?
      | |- sound _ (match ?x with _ => _ end) => destruct x eqn:?
      | |- sound _ (let '(_, _) := ?x in _) => destruct x eqn:?
      end; sound_hook ].

Section Steps.
Variables (sys : Sys) (cfg : Config) (running : bool).
Variable cookRec : list Step → PackageT → bool → N → M unit.
Variable buildIdRec : list Step → N → M (list (option ResultHash)).
Hypothesis HcookRec : ∀ a b c d, sound cfg (cookRec a b c d).
Hypothesis HbuildIdRec : ∀ a b, sound cfg (buildIdRec a b).

Lemma sound_constructDir step : sound cfg (_constructDir sys step).
Proof. unfold _constructDir. sound_all. Qed.

Lemma sound_getBuildIdList steps depth :
  sound cfg (__getBuildIdList sys cfg running cookRec buildIdRec steps depth).
Proof.
  unfold __getBuildIdList. apply sound_mapM. intros step _.
  unfold __getBuildIdTask, __getBuildIdSingle, __getCheckoutStepBuildId, getDigestCoro,
    __queryLiveBuildId, __translateLiveBuildId.
  sound_all; auto.
Qed.

Lemma sound_getBuildId step depth :
  sound cfg (_getBuildId sys cfg running cookRec buildIdRec step depth).
Proof.
  unfold _getBuildId. apply sound_bind; [apply sound_getBuildIdList|]. intros. sound_all.
Qed.

Lemma sound_generateAudit step depth h x :
  sound cfg (_generateAudit sys cfg running cookRec buildIdRec step depth h x).
Proof.
  unfold _generateAudit. apply sound_bind.
  - destruct (isCheckoutStep step); [sound_all | apply sound_getBuildId].
  - intros. sound_all.
Qed.

Lemma sound_handleChangedBuildId step h : sound cfg (__handleChangedBuildId step h).
Proof. unfold __handleChangedBuildId, __invalidateLiveBuildId. sound_all. Qed.

Lemma sound_checkoutFinish step depth p c x :
  sound cfg (checkoutFinish sys cfg running cookRec buildIdRec step depth p c x).
Proof.
  unfold checkoutFinish. pose proof sound_generateAudit. pose proof sound_handleChangedBuildId.
  sound_all.
Qed.

Lemma sound_moveToAttic p cs items old : sound cfg (moveToAttic sys p cs items old).
Proof.
  revert old. induction items as [|[d v] items IH]; intros old; simpl; [sound_all|].
  destruct d; [|apply IH]. case_bool_decide; [|apply IH]. sound_all.
Qed.

Lemma sound_checkCollisions p old keys : sound cfg (checkCollisions sys p old keys).
Proof.
  induction keys as [|[d|] keys IH]; simpl; sound_all.
Qed.

Lemma sound_checkoutUnlessBuildOnly step cs old :
  sound cfg (checkoutUnlessBuildOnly sys cfg step (getWorkspacePath step) cs old).
Proof.
  unfold checkoutUnlessBuildOnly.
  pose proof sound_moveToAttic. pose proof sound_checkCollisions.
  sound_all. all: try (apply sound_mapM; intros; sound_all).
Qed.

Lemma sound_cookCheckoutStep step depth :
  sound cfg (_cookCheckoutStep sys cfg running cookRec buildIdRec step depth).
Proof.
  unfold _cookCheckoutStep.
  pose proof sound_constructDir. pose proof sound_checkoutUnlessBuildOnly.
  pose proof sound_checkoutFinish.
  sound_all.
Qed.

Lemma sound_cookBuildStep step co depth :
  sound cfg (_cookBuildStep sys cfg running cookRec buildIdRec step co depth).
Proof.
  unfold _cookBuildStep.
  pose proof sound_constructDir. pose proof sound_generateAudit.
  sound_all. all: try (apply sound_mapM; intros; sound_all).
Qed.

Lemma packageBuildIdOf_returns step depth b :
  returns (packageBuildIdOf sys cfg running cookRec buildIdRec step depth) (Some b) →
  isRelocatable step = true ∨ getSandbox step ≠ None.
Proof.
  intros (w & w' & H). revert H. unfold packageBuildIdOf.
  destruct (isRelocatable step); [auto|]. simpl.
  case_bool_decide; [auto|]. unfold ret. congruence.
Qed.

Lemma sound_packageBuildIdOf step depth :
  sound cfg (packageBuildIdOf sys cfg running cookRec buildIdRec step depth).
Proof. unfold packageBuildIdOf. pose proof sound_getBuildId. sound_all. Qed.

Lemma sound_packageDownload step co depth pbid oid oih owd :
  (∀ b, pbid = Some b → isRelocatable step = true ∨ getSandbox step ≠ None) →
  sound cfg (packageDownload sys cfg step co depth (getWorkspacePath step) pbid oid oih owd).
Proof.
  intros Hrel. unfold packageDownload.
  destruct pbid as [bid|]; [|sound_all].
  destruct (negb co && truthy bid && (downloadDepth cfg <=? depth)%N) eqn:Hc; [|sound_all].
  apply andb_prop in Hc as [_ Hd%N.leb_le].
  assert (∀ ok, event_ok cfg (EvDownloadPackage step depth bid ok)) by (split; eauto).
  sound_all.
Qed.

Lemma sound_packageBuild step co depth pbid oih :
  (∀ b, pbid = Some b → isRelocatable step = true ∨ getSandbox step ≠ None) →
  sound cfg (packageBuild sys cfg running cookRec buildIdRec step co depth
               (getWorkspacePath step) pbid oih).
Proof.
  intros Hrel. unfold packageBuild. pose proof sound_generateAudit.
  destruct pbid as [bid|].
  - assert (event_ok cfg (EvUploadPackage step bid)) by (simpl; eauto).
    sound_all. all: try (apply sound_mapM; intros; sound_all).
  - sound_all. all: try (apply sound_mapM; intros; sound_all).
Qed.

Lemma sound_cookPackageStep step co depth :
  sound cfg (_cookPackageStep sys cfg running cookRec buildIdRec step co depth).
Proof.
  unfold _cookPackageStep.
  apply sound_bind; [apply sound_constructDir|]. intros [p c] Hp.
  apply constructDir_returns in Hp. subst p.
  apply sound_bind; [sound_all|]. intros old _.
  apply sound_bind; [sound_all|]. intros [] _.
  apply sound_bind; [apply sound_packageBuildIdOf|]. intros pbid Hb.
  assert (∀ b, pbid = Some b → isRelocatable step = true ∨ getSandbox step ≠ None).
  { intros b ->. by eapply packageBuildIdOf_returns. }
  apply sound_bind; [sound_all|]. intros stored _.
  destruct (decodeInputHashes stored) as [[oid oih] owd].
  apply sound_bind; [by apply sound_packageDownload|]. intros [[oih' wd] dh] _.
  destruct wd.
  - sound_all.
  - apply sound_bind; [by apply sound_packageBuild|]. intros. sound_all.
Qed.

Lemma sound_cookStep step co depth :
  sound cfg (_cookStep sys cfg running cookRec buildIdRec step co depth).
Proof.
  unfold _cookStep.
  pose proof sound_cookCheckoutStep. pose proof sound_cookBuildStep.
  pose proof sound_cookPackageStep.
  sound_all.
Qed.

Lemma sound_cook steps pkg co depth :
  sound cfg (_cook sys cfg running cookRec buildIdRec steps pkg co depth).
Proof.
  unfold _cook. apply sound_bind.
  - apply sound_filterM. intros. sound_all.
  - intros. apply sound_forM. intros. pose proof sound_cookStep. sound_all.
Qed.

Lemma sound_cookTask step co depth :
  sound cfg (_cookTask sys cfg running cookRec buildIdRec step co depth).
Proof. unfold _cookTask. pose proof sound_cook. sound_all. Qed.

End Steps.

Lemma sound_cookFuel sys cfg running fuel :
  (∀ a b c d, sound cfg ((cookFuel sys cfg running fuel).1 a b c d))
  ∧ (∀ a b, sound cfg ((cookFuel sys cfg running fuel).2 a b)).
Proof.
  induction fuel as [|n [IH1 IH2]]; simpl.
  - split; intros; apply sound_raise.
  - split; intros; [by apply sound_cook | by apply sound_getBuildIdList].
Qed.

Lemma sound_dispatcher sys cfg running fuel steps co depth :
  sound cfg (dispatcher sys cfg running fuel steps co depth).
Proof.
  unfold dispatcher. destruct (sound_cookFuel sys cfg running fuel).
  apply sound_forM. intros. by apply sound_cookTask.
Qed.

End StepSoundness.

(** * The actions of a whole run *)

Module CookEvents.

Import Soundness StepSoundness.

Lemma cookLoop_events sys cfg fuel rounds steps co depth sc w :
  ∃ evs, trace (cookLoop sys cfg fuel rounds steps co depth sc w).2 = evs ++ trace w
         ∧ Forall (event_ok cfg) evs.
Proof.
  revert sc w. induction rounds as [|n IH]; intros sc w; simpl.
  - destruct (sc_restart sc); [|destruct (negb (sc_running sc))]; by exists [].
  - destruct (sc_restart sc); [|destruct (negb (sc_running sc)); by exists []].
    destruct (sound_dispatcher sys cfg true fuel steps co depth w) as (evs & E & F & _).
    destruct (dispatcher sys cfg true fuel steps co depth w) as [r w1] eqn:Ed.
    simpl in E. destruct (wrapTask cfg Sched_fresh r) as [sc2 r2].
    destruct (buildErrors sc2) as [|e1 [|e2 l]]; simpl; eauto.
    destruct (IH sc2 w1) as (evs' & E' & F').
    exists (evs' ++ evs). rewrite E', E, app_assoc. split; [done|by apply Forall_app].
Qed.

Lemma cook_events sys cfg fuel rounds steps co depth w :
  ∃ evs, trace (cook sys cfg fuel rounds steps co depth w).2 = evs ++ trace w
         ∧ Forall (event_ok cfg) evs.
Proof. apply cookLoop_events. Qed.


Lemma length_app_absurd {A} (e : A) (l l' : list A) : l = e :: l' ++ l → False.
Proof.
  intros H. apply (f_equal length) in H. simpl in H. rewrite length_app in H. lia.
Qed.

Lemma packageDownload_forced sys cfg step co depth path pbid oid oih owd w bid evs :
  let res := packageDownload sys cfg step co depth path pbid oid oih owd w in
  trace res.2 = EvDownloadPackage step depth bid false :: evs ++ trace w →
  pbid = Some bid
  ∧ (downloadDepth cfg ≤ depth)%N
  ∧ ((downloadDepthForce cfg ≤ depth)%N →
       res.1 = Raise (BuildError "Downloading artifact failed" ""))
  ∧ ((depth < downloadDepthForce cfg)%N → ∃ oih', res.1 = Ok (oih', false, None)).
Proof.
  intros res. subst res. unfold packageDownload.
  destruct pbid as [b|]; [|simpl; intros H; by apply length_app_absurd in H].
  destruct (negb co && truthy b && (downloadDepth cfg <=? depth)%N) eqn:Hc;
    [|simpl; intros H; by apply length_app_absurd in H].
  apply andb_prop in Hc as [_ Hd%N.leb_le].
  unfold bind, stepMessage, emit, modify, ret, raise, ask, get_world, hashWorkspace,
    BobStateOps.resetWorkspaceState, BobStateOps.getResultHash,
    BobStateOps.setInputHashes, set_bob, set_statistic, modify.
  destruct (buildIdChanged oid b || force cfg); simpl;
    repeat (match goal with
            | |- context [match ?x with _ => _ end] => destruct x eqn:?
            end; simpl);
    intros H; try (by apply length_app_absurd in H); simplify_eq/=;
    try (exfalso; eapply (length_app_absurd _ (trace w) []); simpl; eassumption);
    (split_and!; [done|done| |]; intros; try done; try lia; eauto).
  all: repeat match goal with
       | H : (_ <=? _)%N = true |- _ => apply N.leb_le in H
       | H : (_ <=? _)%N = false |- _ => apply N.leb_gt in H
       end; lia.
Qed.

End CookEvents.

(** * Running a computation step by step

    Equations for [bind] and the operations of the store, tactics that
    run a computation on a symbolic state, and what they give for the
    three kinds of steps: a step whose stored state says "undefined"
    runs its script. *)

Module Execution.

Import Soundness StepSoundness CookEvents.

Lemma bind_eq {A B} (m : M A) (f : A → M B) w :
  bind m f w = match m w with
               | (Ok a, w') => f a w'
               | (Raise e, w') => (Raise e, w')
               end.
Proof. reflexivity. Qed.


Lemma ret_eq {A} (a : A) w : ret a w = (Ok a, w).
Proof. reflexivity. Qed.
Lemma raise_eq {A} e w : @raise A e w = (Raise e, w).
Proof. reflexivity. Qed.
Lemma get_world_eq w : get_world w = (Ok w, w).
Proof. reflexivity. Qed.
Lemma modify_eq f w : modify f w = (Ok tt, f w).
Proof. reflexivity. Qed.
Lemma ask_eq {A} sys (f : Sys → World → A) w : ask sys f w = (Ok (f sys w), w).
Proof. reflexivity. Qed.

Lemma getResultHash_eq p w :
  BobStateOps.getResultHash p w = (Ok (bsResultHash (bob w) !! p), w).
Proof. reflexivity. Qed.
Lemma getInputHashes_eq p w :
  BobStateOps.getInputHashes p w = (Ok (bsInputHashes (bob w) !! p), w).
Proof. reflexivity. Qed.
Lemma getDirectoryState_eq p w :
  BobStateOps.getDirectoryState p w = (Ok (bsDirectoryState (bob w) !! p), w).
Proof. reflexivity. Qed.
Lemma getVariantId_eq p w :
  BobStateOps.getVariantId p w = (Ok (bsVariantId (bob w) !! p), w).
Proof. reflexivity. Qed.
Lemma getBuildId_eq k w :
  BobStateOps.getBuildId k w = (Ok (bsBuildId (bob w) !! k), w).
Proof. reflexivity. Qed.

Lemma mapM_getResultHash (steps : list Step) w :
  mapM (λ i, BobStateOps.getResultHash (getWorkspacePath i)) steps w
  = (Ok ((λ i, bsResultHash (bob w) !! getWorkspacePath i) <$> steps), w).
Proof.
  induction steps as [|s l IH]; simpl; [done|].
  rewrite bind_eq. unfold BobStateOps.getResultHash at 1.
  rewrite bind_eq, get_world_eq, ret_eq, bind_eq, IH. done.
Qed.

#[local] Arguments _runShell : simpl never.
#[local] Arguments _generateAudit : simpl never.
#[local] Arguments _getBuildId : simpl never.
#[local] Arguments mapM : simpl never.
#[local] Arguments checkCollisions : simpl never.
#[local] Arguments moveToAttic : simpl never.

Ltac munfold :=
  repeat progress unfold when, stepMessage, hashWorkspace, emit, set_bob, set_wasRun,
    set_wasSkipped, set_srcBuildIds, set_buildDistBuildIds, set_statistic,
    BobStateOps.getVariantId, BobStateOps.setVariantId,
    BobStateOps.getDirectoryState, BobStateOps.setDirectoryState,
    BobStateOps.getInputHashes, BobStateOps.setInputHashes,
    BobStateOps.delInputHashes, BobStateOps.getResultHash,
    BobStateOps.setResultHash, BobStateOps.resetWorkspaceState,
    BobStateOps.getBuildId, BobStateOps.setBuildId, BobStateOps.delBuildId,
    __getIncrementalVariantId, _constructDir.

(** One step of the computation at the head of the goal. *)
Ltac mstep :=
  first
    [ rewrite mapM_getResultHash
    | rewrite getResultHash_eq | rewrite getInputHashes_eq
    | rewrite getDirectoryState_eq | rewrite getVariantId_eq | rewrite getBuildId_eq
    | rewrite ret_eq | rewrite raise_eq | rewrite get_world_eq | rewrite modify_eq
    | rewrite ask_eq
    | rewrite bind_eq ];
  cbn beta iota zeta.

Ltac mrun := repeat (mstep; cbn [fst snd bob wasRun wasSkipped srcBuildIds buildDistBuildIds
                                 statistic trace bsVariantId bsDirectoryState bsInputHashes
                                 bsResultHash bsBuildId bsBuildState]).





Lemma extends_trans a b c : extends a b → extends b c → extends a c.
Proof. intros [p ->] [q ->]. exists (p ++ q). by rewrite app_assoc. Qed.




Section Again.
Variables (sys : Sys) (cfg : Config) (running : bool).
Variable cookRec : list Step → PackageT → bool → N → M unit.
Variable buildIdRec : list Step → N → M (list (option ResultHash)).
Hypothesis HcookRec : ∀ a b c d, sound cfg (cookRec a b c d).
Hypothesis HbuildIdRec : ∀ a b, sound cfg (buildIdRec a b).



End Again.





End Execution.

(** * Downloads *)

Module Downloads.

Import Soundness StepSoundness CookEvents.

(** C3: [setDownloadMode], on a new builder, sets the depths of the table:
    [no] gives (never, never), [yes] gives (0, never) when the archive
    can be reached and (never, never) otherwise, [forced] gives (0, 0),
    [deps] gives (1, never) or (never, never) likewise, [forced-deps]
    gives (1, 1) and [forced-fallback] gives (0, 1); "never" is the depth
    [0xffff].  In a run of [cook], every download that is attempted is
    for a step whose depth is at least [downloadDepth].  When a download
    fails for a step whose depth is at least [downloadDepthForce], the
    package step ends in the build error "Downloading artifact failed"
    and the package is not built. *)
Theorem download_depth_semantics :
  (∀ (f s b c canDL : bool),
     let cfg0 := Config_init f s b c in
     downloadDepths <$> setDownloadMode canDL "no" cfg0
       = Some (infinite_depth, infinite_depth)
     ∧ downloadDepths <$> setDownloadMode canDL "yes" cfg0
       = Some (if canDL then 0%N else infinite_depth, infinite_depth)
     ∧ downloadDepths <$> setDownloadMode canDL "forced" cfg0 = Some (0%N, 0%N)
     ∧ downloadDepths <$> setDownloadMode canDL "deps" cfg0
       = Some (if canDL then 1%N else infinite_depth, infinite_depth)
     ∧ downloadDepths <$> setDownloadMode canDL "forced-deps" cfg0 = Some (1%N, 1%N)
     ∧ downloadDepths <$> setDownloadMode canDL "forced-fallback" cfg0 = Some (0%N, 1%N))
  ∧ (∀ sys cfg fuel rounds steps checkoutOnly depth w,
       ∃ evs,
         trace (cook sys cfg fuel rounds steps checkoutOnly depth w).2 = evs ++ trace w
         ∧ ∀ s d bid ok, EvDownloadPackage s d bid ok ∈ evs → (downloadDepth cfg ≤ d)%N)
  ∧ (∀ sys cfg step checkoutOnly depth path pbid oid oih owd w bid evs,
       let res := packageDownload sys cfg step checkoutOnly depth path pbid oid oih owd w in
       trace res.2 = EvDownloadPackage step depth bid false :: evs ++ trace w →
       (downloadDepthForce cfg ≤ depth)%N →
       res.1 = Raise (BuildError "Downloading artifact failed" "")).
Proof.
  split_and!.
  - intros f s b c canDL cfg0. subst cfg0. by destruct canDL.
  - intros. destruct (cook_events sys cfg fuel rounds steps checkoutOnly depth w)
      as (evs & E & F).
    exists evs. split; [done|]. intros s d bid ok Hin.
    rewrite Forall_forall in F. by destruct (F _ Hin).
  - intros sys cfg step co depth path pbid oid oih owd w bid evs res Ht Hd.
    by destruct (packageDownload_forced _ _ _ _ _ _ _ _ _ _ _ _ _ Ht) as (_ & _ & H & _); auto.
Qed.

Lemma download_depth_semantics_witness :
  let cfg := default (Example.cfg false) (setDownloadMode true "forced-fallback" (Example.cfg false)) in
  (downloadDepthForce cfg ≤ 1)%N
  ∧ (packageDownload (Example.sys 0 false Example.nothing) cfg (Example.distStep true) false 1
       "dev/dist/app/1/workspace" (Some "build-id") IdNone None false LocalBuilder_init).1
    = Raise (BuildError "Downloading artifact failed" "").
Proof.
  split; [by vm_compute|].
  destruct download_depth_semantics as (_ & _ & H).
  eapply (H _ _ _ _ _ _ _ _ _ _ _ "build-id" []); [vm_compute; reflexivity|by vm_compute].
Defined.

(** C6, counterexample: a package step that is not relocatable and has no
    sandbox is built.  No build-id was known for it before; after the
    run its build-id is computed and cached, and it is written to the
    audit trail of the package. *)
Lemma package_build_id_for_audit :
  let step := Example.distStep false in
  let w' := (cook (Example.sys 0 false Example.nothing) (Example.cfg false) 10 3 [step] false 0 LocalBuilder_init).2 in
  isRelocatable step = false ∧ getSandbox step = None
  ∧ buildDistBuildIds LocalBuilder_init !! getWorkspacePath step = None
  ∧ buildDistBuildIds w' !! getWorkspacePath step = Some "build-id-vid-dist"
  ∧ head (trace w') = Some (EvAudit step (Some (RHash "build-id-vid-dist"))
                             "hash-of-dev/dist/app/1/workspace" true).
Proof. split_and!; vm_compute; reflexivity. Qed.

(** C6, as amended: for a package step that is not relocatable and has no
    sandbox, [_cookPackageStep] takes no package build-id,
    [packageBuildIdOf] gives [None] and leaves the state as it is, and in
    a run of [cook] the package of such a step is neither downloaded nor
    uploaded.  (The audit trail of a package that was built still has
    its build-id.) *)
Theorem no_download_unless_relocatable :
  (∀ sys cfg fuel rounds steps checkoutOnly depth w,
     ∃ evs,
       trace (cook sys cfg fuel rounds steps checkoutOnly depth w).2 = evs ++ trace w
       ∧ ∀ s, isRelocatable s = false → getSandbox s = None →
           (∀ d bid ok, EvDownloadPackage s d bid ok ∉ evs)
           ∧ (∀ bid, EvUploadPackage s bid ∉ evs))
  ∧ (∀ sys cfg running cookRec buildIdRec step depth w,
       isRelocatable step = false → getSandbox step = None →
       packageBuildIdOf sys cfg running cookRec buildIdRec step depth w = (Ok None, w)).
Proof.
  split.
  - intros. destruct (cook_events sys cfg fuel rounds steps checkoutOnly depth w)
      as (evs & E & F).
    exists evs. split; [done|]. intros s Hr Hs. rewrite Forall_forall in F.
    split; intros; intros Hin; apply F in Hin; simpl in Hin.
    + destruct Hin as [_ [?|?]]; congruence.
    + destruct Hin as [?|?]; congruence.
  - intros sys cfg running cookRec buildIdRec step depth w Hr Hs.
    unfold packageBuildIdOf. by rewrite Hr, Hs.
Qed.

Lemma no_download_unless_relocatable_witness :
  packageBuildIdOf (Example.sys 0 true Example.nothing) (Example.cfg false) true Example.noCook Example.noBuildIds (Example.distStep false) 0
    LocalBuilder_init = (Ok None, LocalBuilder_init).
Proof.
  destruct no_download_unless_relocatable as [_ H]. by apply H.
Defined.

End Downloads.

(** * The store when a script is started *)

Module CrashFence.

Import Soundness StepSoundness CookEvents Execution.




End CrashFence.

(** * When the checkout script runs *)

Module CheckoutDecision.

Import Soundness StepSoundness CookEvents Execution.

#[local] Arguments _runShell : simpl never.
#[local] Arguments _generateAudit : simpl never.
#[local] Arguments _getBuildId : simpl never.
#[local] Arguments mapM : simpl never.



Lemma checkCollisions_spec (sys : Sys) (path : string)
    (old : gmap (option string) (option string)) keys w :
  checkCollisions sys path old keys w = (Ok tt, w)
  ∨ ∃ msg help, checkCollisions sys path old keys w = (Raise (BuildError msg help), w).
Proof.
  induction keys as [|[d|] keys IH]; cbn [checkCollisions]; [by left| |done].
  destruct (String.eqb d "."); [done|]. case_bool_decide; [done|].
  rewrite bind_eq, ask_eq. cbn beta iota.
  destruct (os_path_exists sys w _); [right; eauto|done].
Qed.



Section Decision.
Variables (sys : Sys) (cfg : Config).


End Decision.




End CheckoutDecision.

(** * What a package step stores *)

Module PackageSteps.

Import Soundness StepSoundness CookEvents Execution.

#[local] Arguments _runShell : simpl never.
#[local] Arguments _generateAudit : simpl never.
#[local] Arguments _getBuildId : simpl never.
#[local] Arguments mapM : simpl never.



Section Package.
Variables (sys : Sys) (cfg : Config) (running : bool).
Variable cookRec : list Step → PackageT → bool → N → M unit.
Variable buildIdRec : list Step → N → M (list (option ResultHash)).





End Package.

End PackageSteps.

(** * The input hashes of a package workspace *)

Module PackageInputHashes.

Import Soundness StepSoundness CookEvents Execution PackageSteps.



End PackageInputHashes.

(** * A build-id that was predicted wrongly *)

Module Mispredict.

Import Soundness StepSoundness CookEvents Execution.

#[local] Arguments _runShell : simpl never.
#[local] Arguments _generateAudit : simpl never.
#[local] Arguments _getBuildId : simpl never.
#[local] Arguments mapM : simpl never.

Lemma handleChangedBuildId_spec step checkoutHash w :
  let res := __handleChangedBuildId step checkoutHash w in
  res.1 = Raise RestartBuildException
  ∧ bsBuildId (bob res.2) = delete (liveKey step) (bsBuildId (bob w))
  ∧ srcBuildIds res.2
    = <[(getWorkspacePath step, getVariantId step) := (Some (RHash checkoutHash), false)]>
        (srcBuildIds w)
  ∧ buildDistBuildIds res.2 = ∅
  ∧ wasRun res.2 = filter (λ kv, kv.2.2 = true) (wasRun w)
  ∧ wasSkipped res.2 = wasSkipped w
  ∧ trace res.2 = trace w
  ∧ bsResultHash (bob res.2) = bsResultHash (bob w)
  ∧ bsInputHashes (bob res.2) = bsInputHashes (bob w)
  ∧ bsDirectoryState (bob res.2) = bsDirectoryState (bob w)
  ∧ bsVariantId (bob res.2) = bsVariantId (bob w).
Proof.
  intros res. subst res. unfold __handleChangedBuildId, __invalidateLiveBuildId.
  rewrite bind_eq, bind_eq, getBuildId_eq. cbn beta iota.
  destruct (bsBuildId (bob w) !! liveKey step) eqn:E; munfold; mrun.
  - by split_and!.
  - split_and!; try done. cbn. by rewrite delete_id.
Qed.

Section Finish.
Variables (sys : Sys) (cfg : Config) (running : bool).
Variable cookRec : list Step → PackageT → bool → N → M unit.
Variable buildIdRec : list Step → N → M (list (option ResultHash)).

(** The world in which [checkoutFinish] compares the build-ids. *)
Lemma checkoutFinish_reaches step depth created executed w :
  isCheckoutStep step = true →
  let path := getWorkspacePath step in
  let checkoutHash := hashDirectory sys w path in
  ∃ w1,
    srcBuildIds w1 = srcBuildIds w
    ∧ buildDistBuildIds w1 = buildDistBuildIds w
    ∧ wasRun w1 = <[path := (getVariantId step, true)]> (wasRun w)
    ∧ bsBuildId (bob w1) = bsBuildId (bob w)
    ∧ bsResultHash (bob w1) = <[path := RHash checkoutHash]> (bsResultHash (bob w))
    ∧ checkoutFinish sys cfg running cookRec buildIdRec step depth path created executed w
      = (let '(buildId, predicted) :=
           default (Some (RHash checkoutHash), false)
                   (srcBuildIds w !! (path, getVariantId step)) in
         if bool_decide (buildId ≠ Some (RHash checkoutHash)) then
           if predicted then __handleChangedBuildId step checkoutHash
           else raise (AssertionError "Non-predicted incorrect Build-Id found!")
         else ret tt) w1.
Proof.
  intros Hc path checkoutHash. unfold checkoutFinish.
  rewrite bind_eq, getResultHash_eq. cbn beta iota.
  unfold hashWorkspace at 1. mrun. fold path checkoutHash.
  unfold BobStateOps.setResultHash at 1, set_bob at 1. mrun.
  unfold _generateAudit. rewrite Hc.
  destruct (bool_decide _ || executed);
    destruct (created && canUploadLocal sys && hasLiveBuildId step);
    munfold; unfold _setAlreadyRun; munfold; mrun;
    try match goal with |- context [calcLiveBuildId sys ?w0 step] =>
          destruct (calcLiveBuildId sys w0 step) end;
    mrun;
    match goal with
    | |- ∃ w1, _ ∧ _ ∧ _ ∧ _ ∧ _ ∧ _ ?wx = _ => exists wx
    end; split_and!; reflexivity.
Qed.

Lemma checkoutFinish_mispredicted step depth created executed w bid :
  isCheckoutStep step = true →
  let path := getWorkspacePath step in
  let checkoutHash := hashDirectory sys w path in
  srcBuildIds w !! (path, getVariantId step) = Some (bid, true) →
  bid ≠ Some (RHash checkoutHash) →
  let res := checkoutFinish sys cfg running cookRec buildIdRec step depth path
               created executed w in
  res.1 = Raise RestartBuildException
  ∧ bsBuildId (bob res.2) = delete (liveKey step) (bsBuildId (bob w))
  ∧ srcBuildIds res.2
    = <[(path, getVariantId step) := (Some (RHash checkoutHash), false)]> (srcBuildIds w)
  ∧ buildDistBuildIds res.2 = ∅
  ∧ wasRun res.2
    = filter (λ kv, kv.2.2 = true) (<[path := (getVariantId step, true)]> (wasRun w))
  ∧ bsResultHash (bob res.2) !! path = Some (RHash checkoutHash).
Proof.
  intros Hc path checkoutHash Hsrc Hne res. subst res path checkoutHash.
  destruct (checkoutFinish_reaches step depth created executed w Hc)
    as (w1 & Hs & Hb & Hw & Hi & Hr & ->).
  rewrite Hsrc. cbn [from_option id]. cbn beta iota zeta.
  rewrite bool_decide_true by done.
  destruct (handleChangedBuildId_spec step
              (hashDirectory sys w (getWorkspacePath step)) w1)
    as (E1 & E2 & E3 & E4 & E5 & _ & _ & E6 & _).
  split_and!; [done| | | | |].
  - by rewrite E2, Hi.
  - by rewrite E3, Hs.
  - done.
  - by rewrite E5, Hw.
  - rewrite E6, Hr. apply lookup_insert_eq.
Qed.

End Finish.

Lemma cookLoop_restart sys cfg fuel rounds steps co depth sc w w1 :
  sc_restart sc = true →
  dispatcher sys cfg true fuel steps co depth w = (Raise RestartBuildException, w1) →
  cookLoop sys cfg fuel (S rounds) steps co depth sc w
  = cookLoop sys cfg fuel rounds steps co depth
      {| sc_running := false; sc_restart := true; cookTasks := ∅; buildIdTasks := ∅;
         buildErrors := [] |} w1.
Proof. intros Hr Hd. cbn [cookLoop]. rewrite Hr. cbn. by rewrite Hd. Qed.

Lemma cookLoop_enter sys cfg fuel rounds steps co depth sc w :
  sc_restart sc = true →
  cookLoop sys cfg fuel (S rounds) steps co depth sc w
  = (let '(r, w1) := dispatcher sys cfg (sc_running Sched_fresh) fuel steps co depth w in
     let '(sc2, _) := wrapTask cfg Sched_fresh r in
     match buildErrors sc2 with
     | _ :: _ :: _ => (Raise (MultiBobError (buildErrors sc2)), sc2, w1)
     | [e] => (Raise e, sc2, w1)
     | [] => cookLoop sys cfg fuel rounds steps co depth sc2 w1
     end).
Proof. intros Hr. cbn [cookLoop]. by rewrite Hr. Qed.

End Mispredict.

(** * Recovery from a wrongly predicted build-id *)

Module Restart.

Import Soundness StepSoundness CookEvents Execution Mispredict.

(** C1: when the hash of the workspace after the checkout differs from the
    build-id that was used for the checkout step so far, and that build-id
    was a predicted one, the end of [_cookCheckoutStep]
    - deletes the live build-id stored under the zero byte followed by the
      sandbox variant-id,
    - puts the real hash, marked as not predicted, in place of the cached
      build-id of (workspace path, variant-id),
    - empties the cache of the build-ids of build and package steps,
    - keeps of the [wasRun] entries those of checkout steps only,
    - and raises [RestartBuildException].
    When this exception ends the dispatcher, the loop of [cook] goes
    round once more: the dispatcher runs again on the same steps, from the
    state the first round left, with [running] set, no tasks and no
    errors recorded. *)
Theorem mispredict_recovery :
  (∀ (sys : Sys) (cfg : Config) (running : bool)
     (cookRec : list Step → PackageT → bool → N → M unit)
     (buildIdRec : list Step → N → M (list HashVal))
     (step : Step) (depth : N) (created executed : bool) (w : World) (bid : HashVal),
     isCheckoutStep step = true →
     let path := getWorkspacePath step in
     let checkoutHash := hashDirectory sys w path in
     srcBuildIds w !! (path, getVariantId step) = Some (bid, true) →
     bid ≠ Some (RHash checkoutHash) →
     let res := checkoutFinish sys cfg running cookRec buildIdRec step depth path
                  created executed w in
     res.1 = Raise RestartBuildException
     ∧ bsBuildId (bob res.2)
       = delete (String Ascii.zero (_getSandboxVariantId step)) (bsBuildId (bob w))
     ∧ srcBuildIds res.2
       = <[(path, getVariantId step) := (Some (RHash checkoutHash), false)]> (srcBuildIds w)
     ∧ buildDistBuildIds res.2 = ∅
     ∧ wasRun res.2
       = filter (λ kv, kv.2.2 = true) (<[path := (getVariantId step, true)]> (wasRun w)))
  ∧ (∀ (sys : Sys) (cfg : Config) (fuel rounds : nat) (steps : list Step)
       (checkoutOnly : bool) (depth : N) (w : World),
       let first := dispatcher sys cfg true fuel steps checkoutOnly depth w in
       first.1 = Raise RestartBuildException →
       cook sys cfg fuel (S (S rounds)) steps checkoutOnly depth w
       = (let '(r, w2) := dispatcher sys cfg true fuel steps checkoutOnly depth first.2 in
          let '(sc2, _) := wrapTask cfg Sched_fresh r in
          match buildErrors sc2 with
          | _ :: _ :: _ => (Raise (MultiBobError (buildErrors sc2)), sc2, w2)
          | [e] => (Raise e, sc2, w2)
          | [] => cookLoop sys cfg fuel rounds steps checkoutOnly depth sc2 w2
          end)).
Proof.
  split.
  - intros sys cfg running cookRec buildIdRec step depth created executed w bid
      Hc path checkoutHash Hsrc Hne res.
    destruct (checkoutFinish_mispredicted sys cfg running cookRec buildIdRec step depth
                created executed w bid Hc Hsrc Hne) as (? & ? & ? & ? & ? & _).
    by split_and!.
  - intros sys cfg fuel rounds steps co depth w first Hfirst. unfold cook.
    destruct first as [r w1] eqn:E. cbn in Hfirst. subst r.
    rewrite (cookLoop_restart _ _ _ _ _ _ _ _ _ w1) by done.
    by rewrite cookLoop_enter.
Qed.

Lemma mispredict_recovery_witness :
  let sys := Example.sys 0 false Example.nothing in
  let cfg := default (Example.cfg false) (setDownloadMode true "yes" (Example.cfg false)) in
  let step := Example.distStep true in
  let src := Example.srcStep in
  let w0 := {| bob := BobState_empty;
               wasRun := {[ "dev/build/app/1/workspace" := ("vid-build", false) ]};
               wasSkipped := ∅;
               srcBuildIds := {[ (getWorkspacePath src, getVariantId src)
                                   := (Some (RHash "predicted-id"), true) ]};
               buildDistBuildIds := {[ "dev/dist/app/1/workspace" := "build-id" ]};
               statistic := statistic LocalBuilder_init; trace := [] |} in
  let res := checkoutFinish sys cfg true Example.noCook Example.noBuildIds src 0
               (getWorkspacePath src) true true w0 in
  (res.1 = Raise RestartBuildException ∧ buildDistBuildIds res.2 = ∅)
  ∧ (dispatcher sys cfg true 10 [step] false 0 LocalBuilder_init).1
    = Raise RestartBuildException
  ∧ (cook sys cfg 10 2 [step] false 0 LocalBuilder_init).1.1 = Ok tt.
Proof.
  intros sys cfg step src w0 res.
  assert ((dispatcher sys cfg true 10 [step] false 0 LocalBuilder_init).1
          = Raise RestartBuildException) as H by (vm_compute; reflexivity).
  destruct mispredict_recovery as [Hstep Hloop].
  split; [|split; [done|]].
  - destruct (Hstep sys cfg true Example.noCook Example.noBuildIds src 0%N true true w0
                (Some (RHash "predicted-id"))) as (H1 & _ & _ & H2 & _).
    + reflexivity.
    + vm_compute. reflexivity.
    + vm_compute. congruence.
    + split; [exact H1|exact H2].
  - rewrite (Hloop sys cfg 10 0 [step] false 0%N LocalBuilder_init H).
    vm_compute. reflexivity.
Defined.

End Restart.

(** * Strings and paths *)

Module Paths.

Lemma append_cons a s t : String a s +:+ t = String a (s +:+ t).
Proof. reflexivity. Qed.

Lemma append_nil t : "" +:+ t = t.
Proof. reflexivity. Qed.


Lemma pretty_N_char_no_slash x : Ascii.eqb (pretty_N_char x) slash = false.
Proof. unfold pretty_N_char. by repeat case_match. Qed.

Lemma pretty_N_go_no_slash x s :
  has_slash s = false → has_slash (pretty_N_go x s) = false.
Proof.
  revert s. induction (N.lt_wf_0 x) as [x _ IH]; intros s Hs.
  destruct (decide (x = 0%N)) as [->|].
  - by rewrite pretty_N_go_0.
  - rewrite pretty_N_go_step by lia. apply IH.
    + apply N.div_lt; lia.
    + simpl. by rewrite pretty_N_char_no_slash.
Qed.

Lemma pretty_no_slash (n : nat) : has_slash (pretty n) = false.
Proof.
  unfold pretty, pretty_nat, pretty, pretty_N. case_decide; [done|].
  by apply pretty_N_go_no_slash.
Qed.

Lemma no_slash_not_abs s : has_slash s = false → startswith s "/" = false.
Proof.
  destruct s as [|a s]; [done|]. cbn [has_slash startswith].
  intros [H _]%orb_false_elim. rewrite Ascii.eqb_sym in H.
  unfold slash in H. by rewrite H.
Qed.

Lemma startswith_app s t : startswith (s +:+ t) s = true.
Proof.
  induction s as [|a s IH]; [done|].
  rewrite append_cons. cbn [startswith]. by rewrite Ascii.eqb_refl.
Qed.

Lemma app_inv_head_string s t u : s +:+ t = s +:+ u → t = u.
Proof.
  induction s as [|a s IH]; [done|]. rewrite !append_cons. intros [= H]. auto.
Qed.

Lemma join_no_abs b x :
  has_slash x = false →
  os_path_join b x = if String.eqb b "" || endswith_slash b then b +:+ x else b +:+ "/" +:+ x.
Proof. intros H. unfold os_path_join. by rewrite (no_slash_not_abs _ H). Qed.

Lemma join_startswith b x : has_slash x = false → startswith (os_path_join b x) b = true.
Proof.
  intros H. rewrite (join_no_abs _ _ H).
  destruct (String.eqb b "" || endswith_slash b); apply startswith_app.
Qed.

Lemma join_inj_r b x y :
  has_slash x = false → has_slash y = false →
  os_path_join b x = os_path_join b y → x = y.
Proof.
  intros Hx Hy. rewrite (join_no_abs _ _ Hx), (join_no_abs _ _ Hy).
  destruct (String.eqb b "" || endswith_slash b); intros H%app_inv_head_string; [done|].
  by injection H.
Qed.


Lemma eqb_empty_false b : String.eqb b "" = false → b ≠ "".
Proof. by intros H ->. Qed.


Lemma join_pretty_inj b (n m : nat) :
  os_path_join b (pretty n) = os_path_join b (pretty m) → n = m.
Proof.
  intros H. apply join_inj_r in H; auto using pretty_no_slash.
  by apply (inj pretty) in H.
Qed.

End Paths.

(** * The second pass of the directory oracle *)

Module Numbering.

Import Paths.

Import DevelopDirOracle.





Lemma nextFree_None (K : gset string) (b : string) (fuel num : nat) :
  nextFree K b fuel num = None →
  ∀ M, (num ≤ M < num + fuel)%nat → os_path_join b (pretty M) ∈ K.
Proof.
  revert num. induction fuel as [|fuel IH]; intros num H M HM; [lia|].
  simpl in H. case_bool_decide; [|done].
  destruct (decide (M = num)) as [->|]; [done|].
  apply (IH (S num)); [done|lia].
Qed.

Lemma nextFree_Some (K : gset string) (b : string) (fuel num : nat) (p : string) (num' : nat) :
  nextFree K b fuel num = Some (p, num') →
  ∃ N, (num ≤ N)%nat ∧ p = os_path_join b (pretty N) ∧ num' = S N ∧ (p ∉ K)
       ∧ (∀ M, (num ≤ M < N)%nat → os_path_join b (pretty M) ∈ K).
Proof.
  revert num. induction fuel as [|fuel IH]; intros num H; [done|].
  simpl in H. case_bool_decide as E.
  - destruct (IH _ H) as (N & ? & ? & ? & ? & HM).
    exists N. split_and!; [lia|done..|].
    intros M ?. destruct (decide (M = num)) as [->|]; [done|]. apply HM. lia.
  - injection H as <- <-. exists num. split_and!; [lia|done..|]. intros; lia.
Qed.

(** The loop ends: of [size K + 1] numbers one is free. *)
Lemma nextFree_total (K : gset string) (b : string) (num : nat) :
  is_Some (nextFree K b (S (size K)) num).
Proof.
  destruct (nextFree K b (S (size K)) num) eqn:E; [by eauto|]. exfalso.
  pose proof (nextFree_None _ _ _ _ E) as H.
  set (f := λ M : nat, os_path_join b (pretty M)).
  assert (Inj (=) (=) f) as Hinj by (intros n m; apply join_pretty_inj).
  assert (list_to_set (f <$> seq num (S (size K))) ⊆ K) as Hsub.
  { intros p [M [-> HM%elem_of_seq]]%elem_of_list_to_set%list_elem_of_fmap.
    apply H. lia. }
  apply subseteq_size in Hsub.
  rewrite size_list_to_set in Hsub.
  - rewrite length_fmap, length_seq in Hsub. lia.
  - apply NoDup_fmap_2; [done|]. apply NoDup_seq.
Qed.

Section Assign.

Variable K : gset string.
Variable known : gmap bytes string.
Hypothesis known_in_K : ∀ key p, known !! key = Some p → p ∈ K.








End Assign.

End Numbering.

(** * The first pass of the directory oracle *)

Module FirstPass.

Import Paths Numbering.

Import DevelopDirOracle.

Lemma firstVisit_snoc (steps : list Step) (step : Step) (key : bytes) :
  firstVisit (steps ++ [step]) key =
    match firstVisit steps key with
    | Some s => Some s
    | None => if bool_decide (keyOf step = key) then Some step else None
    end.
Proof.
  induction steps as [|s steps IH]; [done|].
  cbn [app firstVisit]. destruct (bool_decide (keyOf s = key)); [done|apply IH].
Qed.

Lemma firstVisit_key (steps : list Step) (key : bytes) (step : Step) :
  firstVisit steps key = Some step → step ∈ steps ∧ keyOf step = key.
Proof.
  induction steps as [|s steps IH]; [done|]. cbn [firstVisit].
  case_bool_decide.
  - intros [= ->]. split; [left|done].
  - intros [? ?]%IH. split; [by right|done].
Qed.

Lemma firstVisit_elem (steps : list Step) (step : Step) :
  step ∈ steps → is_Some (firstVisit steps (keyOf step)).
Proof.
  induction steps as [|s steps IH]; [by intros ?%elem_of_nil|].
  cbn [firstVisit]. case_bool_decide; [by eauto|].
  intros [->|?]%elem_of_cons; [done|auto].
Qed.

(** ** The queues *)

Lemma elem_of_concat_dirs (D : list (string * list bytes)) (key : bytes) :
  key ∈ concat D.*2 ↔ ∃ b, queuedAt D key b.
Proof.
  induction D as [|[b keys] D IH]; cbn.
  - split; [by intros ?%elem_of_nil|]. by intros (b & keys & ?%elem_of_nil & _).
  - rewrite elem_of_app, IH. split.
    + intros [?|(b' & keys' & ? & ?)].
      * exists b, keys. split; [left|done].
      * exists b', keys'. split; [by right|done].
    + intros (b' & keys' & [[= -> ->]|?]%elem_of_cons & ?); [by left|].
      right. by exists b', keys'.
Qed.

Lemma dirs_append_bases (D : list (string * list bytes)) (b : string) (key : bytes) (b' : string) :
  b' ∈ (dirs_append D b key).*1 ↔ b' = b ∨ b' ∈ D.*1.
Proof.
  induction D as [|[b0 keys] D IH]; cbn.
  - rewrite list_elem_of_singleton. split; [by left|]. intros [?|?%elem_of_nil]; done.
  - destruct (String.eqb b0 b) eqn:E; cbn.
    + apply String.eqb_eq in E as ->. rewrite elem_of_cons. tauto.
    + rewrite !elem_of_cons, IH. tauto.
Qed.

Lemma dirs_append_NoDup (D : list (string * list bytes)) (b : string) (key : bytes) :
  NoDup D.*1 → NoDup (dirs_append D b key).*1.
Proof.
  induction D as [|[b0 keys] D IH]; cbn.
  - intros _. apply NoDup_singleton.
  - intros [Hb0 Hnd]%NoDup_cons. destruct (String.eqb b0 b) eqn:E; cbn.
    + by apply NoDup_cons.
    + apply NoDup_cons. split; [|auto].
      rewrite dirs_append_bases. intros [->|?]; [|done].
      by rewrite String.eqb_refl in E.
Qed.

Lemma dirs_append_queued (D : list (string * list bytes)) (b : string) (key : bytes)
    (k : bytes) (b' : string) :
  queuedAt (dirs_append D b key) k b' ↔ queuedAt D k b' ∨ (b' = b ∧ k = key).
Proof.
  unfold queuedAt. induction D as [|[b0 keys] D IH]; cbn.
  - split.
    + intros (ks & [= -> ->]%list_elem_of_singleton & ->%list_elem_of_singleton). by right.
    + intros [(ks & ?%elem_of_nil & _)|[-> ->]]; [done|].
      exists [key]. split; by apply list_elem_of_singleton.
  - destruct (String.eqb b0 b) eqn:E.
    + apply String.eqb_eq in E as ->. split.
      * intros (ks & [[= -> ->]|?]%elem_of_cons & Hk).
        -- apply elem_of_app in Hk as [?|Hk%list_elem_of_singleton]; [|by right].
           left. exists keys. split; [left|done].
        -- left. exists ks. split; [by right|done].
      * intros [(ks & [[= -> ->]|?]%elem_of_cons & Hk)|[-> ->]].
        -- exists (keys ++ [key]). split; [left|]. apply elem_of_app. by left.
        -- exists ks. split; [by right|done].
        -- exists (keys ++ [key]). split; [left|]. apply elem_of_app. right.
           by apply list_elem_of_singleton.
    + split.
      * intros (ks & [[= -> ->]|Hin]%elem_of_cons & Hk).
        -- left. exists keys. split; [left|done].
        -- destruct (proj1 IH) as [(ks' & ? & ?)|?]; [by eauto| |by right].
           left. exists ks'. split; [by right|done].
      * intros [(ks & [[= -> ->]|?]%elem_of_cons & Hk)|[-> ->]].
        -- exists keys. split; [left|done].
        -- destruct (proj2 IH) as (ks' & ? & ?); [left; by eauto|].
           exists ks'. split; [by right|done].
        -- destruct (proj2 IH) as (ks' & ? & ?); [by right|].
           exists ks'. split; [by right|done].
Qed.

Lemma dirs_append_keys (D : list (string * list bytes)) (b : string) (key : bytes) :
  concat (dirs_append D b key).*2 ≡ₚ key :: concat D.*2.
Proof.
  induction D as [|[b0 keys] D IH]; cbn; [done|].
  destruct (String.eqb b0 b); cbn.
  - rewrite <- app_assoc. cbn. by rewrite <- Permutation_middle.
  - rewrite IH. by rewrite <- Permutation_middle.
Qed.

Lemma firstVisit_old (steps : list Step) (step : Step) (k : bytes) :
  is_Some (firstVisit steps (keyOf step)) →
  firstVisit (steps ++ [step]) k = firstVisit steps k.
Proof.
  intros [s Hs]. rewrite firstVisit_snoc.
  destruct (firstVisit steps k) eqn:E; [done|].
  case_bool_decide; [|done]. congruence.
Qed.

Lemma firstVisit_new (steps : list Step) (step : Step) (k : bytes) :
  firstVisit steps (keyOf step) = None →
  firstVisit (steps ++ [step]) k =
    if bool_decide (keyOf step = k) then Some step else firstVisit steps k.
Proof.
  intros Hs. rewrite firstVisit_snoc.
  case_bool_decide as E; [by rewrite <- E, Hs|]. by destruct (firstVisit steps k).
Qed.

(** ** What the first pass has found after [steps] *)

Section Collect.

Variable formatter : Step → string.
Variable tbl : gmap bytes string.

Lemma collected_init (vsn : option string) : collected formatter tbl [] (Oracle_init tbl vsn).
Proof.
  split; cbn; try done.
  - intros key p. rewrite lookup_empty. split; [done|]. by intros (s & ? & _).
  - intros key b. split; [by intros (? & ?%elem_of_nil & _)|]. by intros (s & ? & _).
  - constructor.
  - intros b ?%elem_of_nil. done.
  - constructor.
Qed.

Lemma keeps_ext (steps steps' : list Step) (key : bytes) (p : string) :
  firstVisit steps' key = firstVisit steps key →
  keeps formatter tbl steps' key p ↔ keeps formatter tbl steps key p.
Proof. unfold keeps. by intros ->. Qed.

Lemma queues_ext (steps steps' : list Step) (key : bytes) (b : string) :
  firstVisit steps' key = firstVisit steps key →
  queues formatter tbl steps' key b ↔ queues formatter tbl steps key b.
Proof. unfold queues. by intros ->. Qed.

Lemma collected_step (steps : list Step) (step : Step) (o : Oracle) :
  collected formatter tbl steps o →
  collected formatter tbl (steps ++ [step]) (collect formatter None step o).
Proof.
  intros [Ht Hr Hv Hk Hq Hb Hbf Hks]. unfold collect. case_bool_decide as Hvis.
  { apply Hv in Hvis. split; try done.
    - intros key. by rewrite firstVisit_old.
    - intros key p. rewrite keeps_ext; [done|]. by apply firstVisit_old.
    - intros key b. rewrite queues_ext; [done|]. by apply firstVisit_old.
    - intros b [s [? ?]]%Hbf. exists s. split; [|done]. apply elem_of_app. by left. }
  assert (firstVisit steps (keyOf step) = None) as Hnone.
  { destruct (firstVisit steps (keyOf step)) eqn:E; [|done].
    exfalso. apply Hvis, Hv. by eauto. }
  assert (∀ b, ¬ queuedAt (dirs o) (keyOf step) b) as Hnq.
  { intros b (s & ? & _)%Hq. congruence. }
  assert (∀ k, k ≠ keyOf step →
               firstVisit (steps ++ [step]) k = firstVisit steps k) as Hother.
  { intros k Hne. rewrite firstVisit_new by done. by rewrite bool_decide_eq_false_2. }
  assert (firstVisit (steps ++ [step]) (keyOf step) = Some step) as Hthis.
  { rewrite firstVisit_new by done. by rewrite bool_decide_eq_true_2. }
  assert (∀ key, key ∈ ({[keyOf step]} ∪ visited o : gset bytes)
                 ↔ is_Some (firstVisit (steps ++ [step]) key)) as Hv'.
  { intros key. rewrite elem_of_union, elem_of_singleton.
    destruct (decide (key = keyOf step)) as [->|Hne].
    - rewrite Hthis. split; [by eauto|by left].
    - rewrite Hother by done. rewrite <- Hv. tauto. }
  assert (∀ b, b ∈ (dirs o).*1 → ∃ s, s ∈ steps ++ [step] ∧ formatter s = b) as Hbf'.
  { intros b [s [? ?]]%Hbf. exists s. split; [|done]. apply elem_of_app. by left. }
  assert (∀ b, b ∈ (dirs_append (dirs o) (formatter step) (keyOf step)).*1 →
               ∃ s, s ∈ steps ++ [step] ∧ formatter s = b) as Hbf''.
  { intros b [->|?]%dirs_append_bases; [|by auto].
    exists step. split; [|done]. apply elem_of_app. right. by apply list_elem_of_singleton. }
  assert (NoDup (concat (dirs_append (dirs o) (formatter step) (keyOf step)).*2)) as Hks'.
  { rewrite dirs_append_keys. apply NoDup_cons. split; [|done].
    intros [b ?]%elem_of_concat_dirs. by apply (Hnq b). }
  assert (∀ key p, ¬ keeps formatter tbl (steps ++ [step]) (keyOf step) p →
                   known o !! key = Some p ↔ keeps formatter tbl (steps ++ [step]) key p)
    as Hk_queue.
  { intros key p Hnk. destruct (decide (key = keyOf step)) as [->|Hne].
    - split; [|done]. intros (s & ? & _)%Hk. congruence.
    - rewrite keeps_ext; [apply Hk|]. by apply Hother. }
  assert (∀ key b, (∀ p, tbl !! keyOf step = Some p → startswith p (formatter step) = false) →
                   queuedAt (dirs_append (dirs o) (formatter step) (keyOf step)) key b
                   ↔ queues formatter tbl (steps ++ [step]) key b) as Hq_queue.
  { intros key b Hns. rewrite dirs_append_queued.
    destruct (decide (key = keyOf step)) as [->|Hne].
    - split.
      + intros [?|[-> _]]; [by destruct (Hnq b)|]. by exists step.
      + intros (s & Hs & <- & _). right. rewrite Hthis in Hs. by injection Hs as ->.
    - rewrite (queues_ext steps) by (by apply Hother). rewrite Hq. split; [|by left].
      by intros [?|[_ ?]]. }
  destruct (tbl_dirs o !! keyOf step) as [p|] eqn:Hp; rewrite Ht in Hp;
    [destruct (startswith p (formatter step)) eqn:Hsw|].
  - split; cbn; try done.
    + intros key q. destruct (decide (key = keyOf step)) as [->|Hne].
      * rewrite lookup_insert_eq. split.
        -- intros [= <-]. by exists step.
        -- intros (s & _ & ? & _). congruence.
      * rewrite lookup_insert_ne by done. rewrite keeps_ext; [apply Hk|]. by apply Hother.
    + intros key b. destruct (decide (key = keyOf step)) as [->|Hne].
      * split; [by intros ?%Hnq|]. intros (s & Hs & <- & Hno).
        rewrite Hthis in Hs. injection Hs as <-. rewrite (Hno _ Hp) in Hsw. done.
      * rewrite (queues_ext steps) by (by apply Hother). apply Hq.
  - split; cbn; try done.
    + intros key q. apply Hk_queue. intros (s & Hs & ? & ?).
      rewrite Hthis in Hs. injection Hs as <-. congruence.
    + intros key b. apply Hq_queue. intros q ?. congruence.
    + by apply dirs_append_NoDup.
  - split; cbn; try done.
    + intros key q. apply Hk_queue. intros (s & _ & ? & _). congruence.
    + intros key b. apply Hq_queue. intros q ?. congruence.
    + by apply dirs_append_NoDup.
Qed.

Lemma collected_all (steps : list Step) (vsn : option string) :
  collected formatter tbl steps (collectAll formatter steps (Oracle_init tbl vsn)).
Proof.
  induction steps as [|step steps IH] using rev_ind; [apply collected_init|].
  unfold collectAll. rewrite foldl_snoc. by apply collected_step.
Qed.

End Collect.

End FirstPass.

(** * The traversal of the packages *)

Module Traversal.

Import Paths Numbering FirstPass.

Import DevelopDirOracle.

Lemma PackageNode_nested_ind (P : PackageNode → Prop) :
  (∀ id deps ps bs cs, Forall P deps → P (MkPackageNode id deps ps bs cs)) →
  ∀ p, P p.
Proof.
  intros H. fix IH 1. intros [id deps ps bs cs]. apply H.
  refine ((fix go (l : list PackageNode) : Forall P l :=
             match l with
             | [] => List.Forall_nil P
             | d :: l' => @List.Forall_cons _ P d l' (IH d) (go l')
             end) deps).
Qed.

Lemma touch_eq {S} (visit : Step → S → S) (package : PackageNode) (st : gset N * S) :
  __touch visit package st =
    if bool_decide (_getId package ∈ st.1) then st
    else
      let st1 := foldl (λ acc d, __touch visit d acc)
                       ({[_getId package]} ∪ st.1, st.2) (getDirectDeps package) in
      (st1.1, visit (nodeCheckoutStep package)
                (visit (getBuildStep package) (visit (getPackageStep package) st1.2))).
Proof. by destruct package. Qed.

Section Touch.

Context {S : Type} (visit : Step → S → S).

Lemma fused_deps (deps : list PackageNode) :
  Forall (fused visit) deps →
  ∀ (done : gset N) (l0 : list Step) (s : S),
    ∃ l, (foldl (λ acc d, __touch (λ step l, l ++ [step]) d acc) (done, l0) deps).2 = l0 ++ l
         ∧ foldl (λ acc d, __touch visit d acc) (done, s) deps =
             ((foldl (λ acc d, __touch (λ step l, l ++ [step]) d acc) (done, l0) deps).1,
              foldl (λ s step, visit step s) s l).
Proof.
  induction 1 as [|d deps Hd _ IH]; intros done l0 s; cbn [foldl].
  - exists []. by rewrite app_nil_r.
  - destruct (Hd done l0 s) as (la & Ha & ->).
    destruct (__touch (λ step l, l ++ [step]) d (done, l0)) as [d1 l1]. cbn in Ha. subst l1.
    cbn [fst]. destruct (IH d1 (l0 ++ la) (foldl (λ s step, visit step s) s la)) as (lb & Hb & ->).
    exists (la ++ lb). by rewrite Hb, foldl_app, app_assoc.
Qed.

Lemma touch_fused (package : PackageNode) : fused visit package.
Proof.
  induction package as [id deps ps bs cs Hdeps] using PackageNode_nested_ind.
  intros done l0 s. rewrite !touch_eq. cbn [fst snd _getId getDirectDeps getPackageStep
    getBuildStep nodeCheckoutStep]. case_bool_decide.
  - exists []. by rewrite app_nil_r.
  - destruct (fused_deps deps Hdeps ({[id]} ∪ done) l0 s) as (l & Hl & ->).
    exists (l ++ [ps; bs; cs]). rewrite Hl. cbn zeta. cbn [fst snd].
    split; [by rewrite <- !app_assoc|]. by rewrite foldl_app.
Qed.

Lemma touch_visitOrder (root : PackageNode) (s : S) :
  (__touch visit root (∅, s)).2 = foldl (λ s step, visit step s) s (visitOrder root).
Proof.
  destruct (touch_fused root ∅ [] s) as (l & Hl & ->). unfold visitOrder. by rewrite Hl.
Qed.

End Touch.

Lemma fmt_collectAll (formatter : Step → string) (steps : list Step) (o : Oracle) :
  ready o = false →
  foldl (λ o step, (__fmt formatter None step o).2) o steps = collectAll formatter steps o.
Proof.
  unfold collectAll. revert o. induction steps as [|step steps IH]; intros o Hr; [done|].
  cbn [foldl]. unfold __fmt at 2. rewrite Hr. cbn [snd]. apply IH.
  unfold collect. case_bool_decide; [done|]. by repeat case_match.
Qed.

End Traversal.

(** * The refresh of the directory oracle *)

Module Refresh.

Import Paths Numbering FirstPass Traversal.

Import DevelopDirOracle.

Lemma keeps_queues_excl (formatter : Step → string) (tbl : gmap bytes string)
    (steps : list Step) (key : bytes) (p b : string) :
  keeps formatter tbl steps key p → queues formatter tbl steps key b → False.
Proof.
  intros (s & Hs & Hp & Hsw) (s' & Hs' & <- & Hno).
  rewrite Hs in Hs'. injection Hs' as <-. rewrite (Hno _ Hp) in Hsw. done.
Qed.

Lemma keeps_or_queues (formatter : Step → string) (tbl : gmap bytes string)
    (steps : list Step) (key : bytes) (step : Step) :
  firstVisit steps key = Some step →
  (∃ p, keeps formatter tbl steps key p) ∨ queues formatter tbl steps key (formatter step).
Proof.
  intros Hs. destruct (tbl !! key) as [p|] eqn:Hp.
  - destruct (startswith p (formatter step)) eqn:Hsw.
    + left. exists p. by exists step.
    + right. exists step. split_and!; [done..|]. intros q ?. congruence.
  - right. exists step. split_and!; [done..|]. intros q ?. congruence.
Qed.




End Refresh.

(** * The return code of the wrapper *)

Module ReturnCode.

Import Soundness Paths.

Lemma containsb_eq (s sub : string) :
  containsb s sub =
    startswith s sub
    || match s with
       | EmptyString => false
       | String _ s' => containsb s' sub
       end.
Proof. by destruct s. Qed.

Lemma contains_containsb (s sub : string) : contains s sub → containsb s sub = true.
Proof.
  intros (pre & post & ->). induction pre as [|a pre IH].
  - rewrite append_nil, containsb_eq. by rewrite startswith_app.
  - rewrite append_cons. cbn [containsb]. by rewrite IH, orb_true_r.
Qed.

Lemma checkReturnCode_spec (abs : string) (r : Z) (w : World) :
  (checkReturnCode abs r w).1 =
    if bool_decide (r = 0%Z) then Ok tt
    else if bool_decide (r = (- SIGINT)%Z) then
      Raise (BuildError ("User aborted while running " +:+ abs)
                        "Run again with '--resume' to skip already built packages.")
    else
      Raise (BuildError ("Build script " +:+ abs +:+ " returned with " +:+ pretty r)
                        "You may resume at this point with '--resume' after fixing the error.").
Proof.
  unfold checkReturnCode, SIGINT. repeat case_bool_decide; try done; lia.
Qed.

(** C8, counterexample: the checkout script of the example returns 1.  The
    path in the message is [./dev/src/app/1/checkout.sh]; it is not
    absolute, and the absolute path of the wrapper is not in the
    message. *)
Lemma script_path_is_relative :
  let res := _runShell (Example.sys 1 false Example.nothing) Example.srcStep "checkout" false
               LocalBuilder_init in
  let msg := "Build script ./dev/src/app/1/checkout.sh returned with 1" in
  res.1 = Raise (BuildError msg
            "You may resume at this point with '--resume' after fixing the error.")
  ∧ absRunFile (getWorkspacePath Example.srcStep) "checkout" = "./dev/src/app/1/checkout.sh"
  ∧ os_path_isabs "./dev/src/app/1/checkout.sh" = false
  ∧ os_path_abspath "/cwd" "./dev/src/app/1/checkout.sh" = "/cwd/dev/src/app/1/checkout.sh"
  ∧ ¬ contains msg "/cwd/dev/src/app/1/checkout.sh".
Proof.
  split_and!; [vm_compute; reflexivity..|].
  intros H%contains_containsb. vm_compute in H. discriminate.
Qed.

(** C8, as amended: [_runShell] starts the wrapper once, and what it
    returns decides the outcome.  The run ends without an error exactly
    when the wrapper returns 0.  A return code of minus SIGINT raises
    the build error of a user abort, with the hint to run again with
    [--resume].  Any other return code raises a build error whose message
    has the path of the wrapper as [_runShell] computes it, [absRunFile]:
    the normalised path of [<kind>.sh] beside the workspace, joined to
    [.]; it is the path as given, not made absolute. *)
Theorem wrapper_return_code (sys : Sys) (step : Step) (scriptName : string) (clean : bool)
    (w : World) :
  let res := _runShell sys step scriptName clean w in
  let abs := absRunFile (getWorkspacePath step) scriptName in
  ∃ (r : Z + string) (evs : list Event),
    trace res.2 = EvRunShell step scriptName clean (bob w) r :: evs
    ∧ (res.1 = Ok tt ↔ r = inl 0%Z)
    ∧ (r = inl (- SIGINT)%Z →
         res.1 = Raise (BuildError ("User aborted while running " +:+ abs)
                          "Run again with '--resume' to skip already built packages."))
    ∧ (∀ code : Z, r = inl code → code ≠ 0%Z → code ≠ (- SIGINT)%Z →
         ∃ msg help, res.1 = Raise (BuildError msg help)
           ∧ msg = "Build script " +:+ abs +:+ " returned with " +:+ pretty code
           ∧ contains msg abs)
    ∧ (∀ e : string, r = inr e →
         res.1 = Raise (BuildError ("Cannot execute build script " +:+ abs +:+ ": " +:+ e) "")).
Proof.
  intros res abs.
  destruct (runShell_spec sys step scriptName clean w)
    as (pre & w1 & _ & _ & _ & Ht & _ & _ & _ & _ & _ & _ & Hr).
  fold res in Ht, Hr. fold abs in Hr.
  exists (run_wrapper sys w1 step scriptName), (pre ++ trace w). split; [done|].
  destruct (run_wrapper sys w1 step scriptName) as [code|e].
  - rewrite checkReturnCode_spec in Hr. rewrite Hr. clear Hr. split_and!.
    + destruct (decide (code = 0%Z)) as [->|Hne].
      * by rewrite bool_decide_eq_true_2.
      * rewrite bool_decide_eq_false_2 by done.
        case_bool_decide; (split; [done|]); intros [= ?]; done.
    + intros [= ->].
      by rewrite bool_decide_eq_false_2, bool_decide_eq_true_2 by (unfold SIGINT; lia).
    + intros c [= <-] ? ?. rewrite !bool_decide_eq_false_2 by done.
      eexists _, _. split_and!; [done..|].
      by exists "Build script ", (" returned with " +:+ pretty code).
    + done.
  - rewrite Hr. split_and!; try done. intros c [= <-]. done.
Qed.

Lemma wrapper_return_code_witness :
  ∃ msg help,
    (_runShell (Example.sys 3 false Example.nothing) Example.buildStep "build" true
       LocalBuilder_init).1 = Raise (BuildError msg help)
    ∧ contains msg (absRunFile (getWorkspacePath Example.buildStep) "build").
Proof.
  destruct (wrapper_return_code (Example.sys 3 false Example.nothing) Example.buildStep
              "build" true LocalBuilder_init) as (r & evs & Ht & _ & _ & H & _).
  destruct (H 3%Z) as (msg & help & ? & _ & ?).
  - vm_compute in Ht. by injection Ht as <- _.
  - done.
  - done.
  - by exists msg, help.
Defined.

End ReturnCode.

(** * What was run, and the state of the build *)

Module BuildStateFacts.

Lemma wasAlreadyRun_spec (step : Step) (skippedOk : bool) (w : World) :
  let path := getWorkspacePath step in
  let r := _wasAlreadyRun step skippedOk w in
  (∃ b, r.1 = Ok b)
  ∧ (r.1 = Ok true → ∃ c, wasRun w !! path = Some (getVariantId step, c) ∧ r.2 = w)
  ∧ (∀ d c, wasRun w !! path = Some (d, c) → d ≠ getVariantId step →
       r.1 = Ok false ∧ wasRun r.2 = delete path (wasRun w))
  ∧ (skippedOk = false → wasSkipped w !! path = Some true → r.1 = Ok false)
  ∧ (wasRun w !! path = None → r = (Ok false, w)).
Proof.
  intros path r. subst r path. unfold _wasAlreadyRun, bind, get_world, ret, set_wasRun, modify.
  destruct (wasRun w !! getWorkspacePath step) as [[d c]|] eqn:E; simpl.
  - destruct (bool_decide (d = getVariantId step)) eqn:Ed; simpl.
    + apply bool_decide_eq_true in Ed. subst d.
      destruct skippedOk, (default false (wasSkipped w !! getWorkspacePath step)) eqn:Es; simpl;
        repeat split; eauto; try congruence; intros; simplify_eq/=; try done.
      all: try (rewrite H0 in Es; simpl in Es; congruence).
    + apply bool_decide_eq_false in Ed.
      repeat split; eauto; try congruence; intros; simplify_eq/=; done.
  - repeat split; eauto; congruence.
Qed.

(** C10: [_wasAlreadyRun] always returns.  It returns true only if
    [wasRun] has, for the workspace path of the step, an entry with the
    variant-id the step has now, and then it changes nothing.  An entry
    with another variant-id is deleted, and the answer is false.  If
    skipped steps do not count and the step is recorded as skipped, the
    answer is false.  Without an entry the answer is false.  So after a
    step was recorded with [_setAlreadyRun], a step of the same workspace
    with another variant-id is never taken as already run. *)
Theorem already_run_check (step : Step) (skippedOk : bool) (w : World) :
  let path := getWorkspacePath step in
  let r := _wasAlreadyRun step skippedOk w in
  (∃ b, r.1 = Ok b)
  ∧ (r.1 = Ok true → ∃ c, wasRun w !! path = Some (getVariantId step, c) ∧ r.2 = w)
  ∧ (∀ (d : bytes) (c : bool), wasRun w !! path = Some (d, c) → d ≠ getVariantId step →
       r.1 = Ok false ∧ wasRun r.2 = delete path (wasRun w))
  ∧ (skippedOk = false → wasSkipped w !! path = Some true → r.1 = Ok false)
  ∧ (wasRun w !! path = None → r = (Ok false, w))
  ∧ (∀ (old : Step) (isCheckout skipped : bool) (w0 : World),
       getWorkspacePath old = path → getVariantId old ≠ getVariantId step →
       w = (_setAlreadyRun old isCheckout skipped w0).2 →
       r.1 = Ok false ∧ wasRun r.2 !! path = None).
Proof.
  intros path r.
  destruct (wasAlreadyRun_spec step skippedOk w) as (H1 & H2 & H3 & H4 & H5).
  split_and!; [done..|].
  intros old isCheckout skipped w0 Hp Hv Hw.
  destruct (H3 (getVariantId old) isCheckout) as [? Hdel]; [|done|].
  - rewrite Hw. cbn. rewrite Hp. apply lookup_insert_eq.
  - split; [done|]. fold r in Hdel. rewrite Hdel. apply lookup_delete_eq.
Qed.

Lemma already_run_check_witness :
  let old := Example.buildStep in
  let new := Example.inPackage Example.pkg "-changed" Example.buildStep in
  let w := (_setAlreadyRun old false false LocalBuilder_init).2 in
  (_wasAlreadyRun old false w).1 = Ok true
  ∧ (_wasAlreadyRun new false w).1 = Ok false
  ∧ wasRun (_wasAlreadyRun new false w).2 !! getWorkspacePath new = None.
Proof.
  intros old new w. split; [vm_compute; reflexivity|].
  destruct (already_run_check new false w) as (_ & _ & _ & _ & _ & H).
  apply (H old false false LocalBuilder_init); [reflexivity|vm_compute; congruence|reflexivity].
Defined.

Lemma buildState_roundtrip (w w0 : World) :
  let saved := saveBuildState w in
  let loaded := loadBuildState w0 in
  bsBuildState (bob w0) = bsBuildState (bob saved.2) →
  saved.1 = Ok tt ∧ loaded.1 = Ok tt
  ∧ wasRun loaded.2 = runSet w
  ∧ srcBuildIds loaded.2 = predictedIds w
  ∧ (wasSkipped w0 = wasSkipped w ∨ wasSkipped w0 = ∅ → runSet loaded.2 = runSet w)
  ∧ predictedIds loaded.2 = predictedIds w.
Proof.
  intros saved loaded. subst saved loaded.
  unfold saveBuildState, loadBuildState, BobStateOps.setBuildState, BobStateOps.getBuildState,
    bind, get_world, ret, set_wasRun, set_srcBuildIds, set_bob, modify. simpl.
  intros ->. simpl.
  assert (Hp : (λ bid : option ResultHash, (bid, true)) <$>
                 (fst <$> filter (λ kv : string * string * (option ResultHash * bool), kv.2.2 = true) (srcBuildIds w))
               = predictedIds w).
  { unfold predictedIds. apply map_eq. intros k.
    rewrite !lookup_fmap, !map_lookup_filter.
    destruct (srcBuildIds w !! k) as [[b p]|]; simpl; [|done].
    case_guard; simpl in *; [subst; done | done]. }

  split_and!; try done.
  - intros Hs. unfold runSet; simpl. apply map_eq. intros k.
    rewrite !map_lookup_filter.
    destruct (wasRun w !! k) as [[d c]|]; simpl; [|done].
    destruct Hs as [-> | ->]; rewrite ?lookup_empty; simpl;
      repeat (case_guard; simpl in * ); done.
  - rewrite Hp. unfold predictedIds. simpl. apply map_filter_filter_l. done.
Qed.

(** C9: [saveBuildState] followed by [loadBuildState], in the same builder
    or in a new one that reads the build state that was saved, gives back
    the workspaces that were recorded as run and not as skipped, each with
    its variant-id and its checkout flag, and the build-ids of the checkout
    steps that were predicted, each marked as predicted.  Both never
    fail, and saving and loading once more gives the same again. *)
Theorem save_load_build_state (w w0 : World) :
  let saved := saveBuildState w in
  let loaded := loadBuildState w0 in
  bsBuildState (bob w0) = bsBuildState (bob saved.2) →
  saved.1 = Ok tt ∧ loaded.1 = Ok tt
  ∧ wasRun loaded.2 = runSet w
  ∧ srcBuildIds loaded.2 = predictedIds w
  ∧ (∀ (path : string) (vid : bytes) (isCheckout : bool),
       wasRun loaded.2 !! path = Some (vid, isCheckout)
       ↔ wasRun w !! path = Some (vid, isCheckout)
         ∧ default false (wasSkipped w !! path) = false)
  ∧ (∀ (key : string * bytes) (bid : HashVal) (predicted : bool),
       srcBuildIds loaded.2 !! key = Some (bid, predicted)
       ↔ srcBuildIds w !! key = Some (bid, true) ∧ predicted = true)
  ∧ predictedIds loaded.2 = predictedIds w
  ∧ (wasSkipped w0 = wasSkipped w ∨ wasSkipped w0 = ∅ → runSet loaded.2 = runSet w).
Proof.
  intros saved loaded Hst.
  destruct (buildState_roundtrip w w0 Hst) as (H1 & H2 & H3 & H4 & H5 & H6).
  fold saved loaded in H1, H2, H3, H4, H5, H6.
  split_and!; [done..| | |done|done].
  - intros path vid isCheckout. rewrite H3. unfold runSet.
    rewrite map_lookup_filter_Some. done.
  - intros key bid predicted. rewrite H4. unfold predictedIds.
    rewrite map_lookup_filter_Some. cbn. split.
    + by intros [? ->].
    + by intros [? ->].
Qed.

Lemma save_load_build_state_witness :
  let w := {| bob := BobState_empty;
              wasRun := {[ "dev/src/app/1/workspace" := ("vid-src", true);
                           "dev/build/app/1/workspace" := ("vid-build", false) ]};
              wasSkipped := {[ "dev/src/app/1/workspace" := false;
                               "dev/build/app/1/workspace" := true ]};
              srcBuildIds := {[ ("dev/src/app/1/workspace", "vid-src")
                                  := (Some (RHash "predicted-id"), true);
                                ("dev/src/lib/1/workspace", "vid-lib")
                                  := (Some (RHash "real-id"), false) ]};
              buildDistBuildIds := ∅;
              statistic := statistic LocalBuilder_init; trace := [] |} in
  let w0 := {| bob := bob (saveBuildState w).2; wasRun := ∅; wasSkipped := ∅;
               srcBuildIds := ∅; buildDistBuildIds := ∅;
               statistic := statistic LocalBuilder_init; trace := [] |} in
  wasRun (loadBuildState w0).2 = {[ "dev/src/app/1/workspace" := ("vid-src", true) ]}
  ∧ srcBuildIds (loadBuildState w0).2
    = {[ ("dev/src/app/1/workspace", "vid-src") := (Some (RHash "predicted-id"), true) ]}.
Proof.
  intros w w0.
  destruct (save_load_build_state w w0) as (_ & _ & H1 & H2 & _); [reflexivity|].
  rewrite H1, H2. split; vm_compute; reflexivity.
Defined.

End BuildStateFacts.

(** * What the traversal reaches *)

Module Reachability.

Import Paths Numbering FirstPass Traversal.

Import DevelopDirOracle PackageTree.

Lemma reachable_trans (p q r : PackageNode) : reachable p q → reachable q r → reachable p r.
Proof. induction 1; [done|]. intros ?. eapply reach_dep; eauto. Qed.

Lemma reachable_record (p q d : PackageNode) :
  reachable p q → d ∈ getDirectDeps q → reachable p d.
Proof.
  intros Hpq Hd. apply (reachable_trans _ q); [done|].
  eapply reach_dep; [done|apply reach_refl].
Qed.

(** ** Only steps of reachable packages are visited *)

Lemma fromBelow_deps (p : PackageNode) (deps : list PackageNode) :
  Forall fromBelow deps → deps ⊆ getDirectDeps p →
  ∀ (done : gset N) (l : list Step) (step : Step),
    step ∈ (foldl (λ acc d, __touch record d acc) (done, l) deps).2 →
    step ∈ l ∨ ∃ q, reachable p q ∧ step ∈ stepsOf q.
Proof.
  induction 1 as [|d deps Hd _ IH]; intros Hsub done l step; cbn [foldl]; [by left|].
  destruct (__touch record d (done, l)) as [d1 l1] eqn:E. intros Hin.
  destruct (IH (λ x Hx, Hsub x (list_elem_of_further _ _ _ Hx)) d1 l1 step Hin) as [Hl1|?];
    [|by right].
  specialize (Hd done l step). rewrite E in Hd. destruct (Hd Hl1) as [?|(q & Hq & ?)]; [by left|].
  right. exists q. split; [|done]. apply (reach_dep p d); [|done].
  apply Hsub. left.
Qed.

Lemma touch_fromBelow (p : PackageNode) : fromBelow p.
Proof.
  induction p as [id deps ps bs cs Hdeps] using PackageNode_nested_ind.
  intros done l step. rewrite touch_eq.
  cbn [fst snd _getId getDirectDeps getPackageStep getBuildStep nodeCheckoutStep].
  case_bool_decide; [by left|]. cbn zeta. cbn [fst snd].
  rewrite <- !app_assoc. cbn [app]. intros [Hin|Hin]%elem_of_app.
  - by apply (fromBelow_deps (MkPackageNode id deps ps bs cs) deps Hdeps) in Hin.
  - right. exists (MkPackageNode id deps ps bs cs). split; [apply reach_refl|].
    unfold stepsOf. by cbn [getPackageStep getBuildStep nodeCheckoutStep].
Qed.

(** ** All steps of reachable packages are visited *)

Section Complete.

Variable root : PackageNode.

Hypothesis ids_unique : ∀ q q' : PackageNode,
  reachable root q → reachable root q' → _getId q = _getId q' → q = q'.

Lemma covers_deps (deps : list PackageNode) :
  Forall (covers root) deps → (∀ d, d ∈ deps → reachable root d) →
  ∀ (done0 done : gset N) (l : list Step),
    let r := foldl (λ acc d, __touch record d acc) (done, l) deps in
    done0 ⊆ done → finished root done0 done l →
    done ⊆ r.1 ∧ l ⊆ r.2 ∧ (∀ d, d ∈ deps → _getId d ∈ r.1)
    ∧ (∀ q : PackageNode, reachable root q → _getId q ∈ r.1 → _getId q ∉ done0 →
         _getId q ∈ done ∨ (stepsOf q ⊆ r.2 ∧ ∀ d, d ∈ getDirectDeps q → _getId d ∈ r.1)).
Proof.
  induction 1 as [|d deps Hd _ IH]; intros Hreach done0 done l; cbn [foldl]; intros Hsub Hfin.
  - cbn [fst snd]. split_and!; [done..| |].
    + by intros d ?%elem_of_nil.
    + intros q _ ? _. by left.
  - destruct (Hd (Hreach d (list_elem_of_here _ _)) done l) as (H1 & H2 & H3 & H4).
    destruct (__touch record d (done, l)) as [d1 l1]. cbn [fst snd] in *.
    destruct (IH (λ x Hx, Hreach x (list_elem_of_further _ _ _ Hx)) done d1 l1)
      as (I1 & I2 & I3 & I4); [done|done|].
    set (r := foldl _ _ deps) in *.
    split_and!.
    + by etrans.
    + by etrans.
    + intros x [->|Hx]%elem_of_cons; [by apply I1|by apply I3].
    + intros q Hq Hin Hnot0.
      destruct (decide (_getId q ∈ done)) as [?|Hnot]; [by left|]. right.
      destruct (I4 q Hq Hin Hnot) as [Hd1|?]; [|done].
      destruct (H4 q Hq Hd1 Hnot) as [Hs Hds]. split.
      * by etrans.
      * intros x Hx. by apply I1, Hds.
Qed.

Lemma touch_covers (p : PackageNode) : covers root p.
Proof.
  induction p as [id deps ps bs cs Hdeps] using PackageNode_nested_ind.
  intros Hp done l. cbn zeta. rewrite touch_eq.
  cbn [fst snd _getId getDirectDeps getPackageStep getBuildStep nodeCheckoutStep].
  case_bool_decide as Hid.
  - cbn [fst snd]. split_and!; [done..|]. by intros q _ ? ?.
  - cbn zeta. cbn [fst snd].
    destruct (covers_deps deps Hdeps) with (done0 := {[id]} ∪ done) (done := {[id]} ∪ done)
      (l := l) as (H1 & H2 & H3 & H4).
    { intros d Hd. by apply (reachable_record _ _ _ Hp). }
    { done. }
    { by intros q _ ? ?. }
    set (r := foldl _ _ deps) in *.
    assert (id ∈ r.1) as Hin by (apply H1, elem_of_union_l; by apply elem_of_singleton).
    split_and!.
    + intros x ?. by apply H1, elem_of_union_r.
    + intros x ?. rewrite <- !app_assoc. apply elem_of_app. left. by apply H2.
    + done.
    + intros q Hq Hqin Hqnot.
      destruct (decide (_getId q = id)) as [Heq|Hne].
      * assert (q = MkPackageNode id deps ps bs cs) as -> by by apply ids_unique.
        cbn [getDirectDeps]. split; [|done].
        intros x Hx. rewrite <- !app_assoc. apply elem_of_app. by right.
      * destruct (H4 q Hq Hqin) as [Hold|[Hs Hds]].
        { intros [?%elem_of_singleton|?]%elem_of_union; done. }
        { apply elem_of_union in Hold as [?%elem_of_singleton|?]; done. }
        split; [|done]. intros x Hx. rewrite <- !app_assoc. apply elem_of_app. left.
        by apply Hs.
Qed.

Lemma visit_complete_steps (q : PackageNode) :
  reachable root q → stepsOf q ⊆ visitOrder root.
Proof.
  intros Hq. unfold visitOrder.
  destruct (touch_covers root (reach_refl root) ∅ []) as (_ & _ & Hroot & Hfin).
  set (r := __touch record root (∅, [])) in *.
  assert (∀ p, reachable root p → _getId p ∈ r.1 → ∀ q, reachable p q → _getId q ∈ r.1) as Hcl.
  { intros p Hp Hin q' Hpq. induction Hpq as [|p d q' Hd Hdq IH]; [done|].
    apply IH.
    - by apply (reachable_record _ p).
    - destruct (Hfin p Hp Hin) as [_ Hds]; [by intros ?%elem_of_empty|]. by apply Hds. }
  destruct (Hfin q Hq) as [Hs _]; [|by intros ?%elem_of_empty|done].
  by apply (Hcl root (reach_refl root)).
Qed.

End Complete.

Lemma own_steps_visited (p : PackageNode) : stepsOf p ⊆ visitOrder p.
Proof.
  intros step Hin. unfold visitOrder. rewrite touch_eq.
  rewrite bool_decide_eq_false_2 by by intros ?%elem_of_empty.
  cbn zeta. cbn [snd]. rewrite <- !app_assoc. apply elem_of_app. by right.
Qed.

Lemma reachable_inv (p q : PackageNode) :
  reachable p q → q = p ∨ ∃ d, d ∈ getDirectDeps p ∧ reachable d q.
Proof. destruct 1; [by left|right; eauto]. Qed.

Lemma Example_reachable (q : PackageNode) :
  reachable Example.root q → q ∈ [Example.root; Example.libNode; Example.toolNode].
Proof.
  assert (∀ q, reachable Example.libNode q → q = Example.libNode) as Hlib.
  { intros q' [->|(d & Hd & _)]%reachable_inv; [done|]. by apply elem_of_nil in Hd. }
  assert (∀ q, reachable Example.toolNode q → q = Example.toolNode ∨ q = Example.libNode) as Htool.
  { intros q' [->|(d & Hd & Hq)]%reachable_inv; [by left|]. right.
    apply list_elem_of_singleton in Hd as ->. by apply Hlib. }
  intros [->|(d & Hd & Hq)]%reachable_inv; [left|].
  unfold Example.root in Hd. cbn [getDirectDeps] in Hd.
  apply elem_of_cons in Hd as [->|Hd]; [apply Hlib in Hq as ->; right; left|].
  apply elem_of_cons in Hd as [->|Hd].
  { apply Htool in Hq as [->| ->]; [right; right; left|right; left]. }
  apply list_elem_of_singleton in Hd as ->. apply Hlib in Hq as ->. right; left.
Qed.

Lemma Example_ids_unique (q q' : PackageNode) :
  reachable Example.root q → reachable Example.root q' → _getId q = _getId q' → q = q'.
Proof.
  intros Hq%Example_reachable Hq'%Example_reachable.
  repeat (apply elem_of_cons in Hq as [->|Hq]); [| | |by apply elem_of_nil in Hq];
    (repeat (apply elem_of_cons in Hq' as [->|Hq']); [| | |by apply elem_of_nil in Hq']);
    first [reflexivity | intros [=]].
Qed.

(** X4: [__touch] asks for the paths of the steps of reachable packages
    only: every step of [visitOrder] is the package, build or checkout
    step of a package that is reachable from the root over direct
    dependencies. *)
Theorem visit_reachable (root : PackageNode) (step : Step) :
  step ∈ visitOrder root → ∃ q, reachable root q ∧ step ∈ stepsOf q.
Proof.
  intros Hin. destruct (touch_fromBelow root ∅ [] step Hin) as [?%elem_of_nil|?]; done.
Qed.

Lemma visit_reachable_witness :
  ∃ q, reachable Example.root q ∧ Example.buildStep ∈ stepsOf q.
Proof.
  apply (visit_reachable Example.root Example.buildStep).
  apply (own_steps_visited Example.root).
  apply list_elem_of_further, list_elem_of_here.
Defined.

(** X5: "Because we start from the root we are guaranteed to see all
    packages": when the packages that are reachable from the root have
    different ids, the paths of the package, build and checkout step of
    every reachable package are asked for. *)
Theorem visit_complete (root q : PackageNode) (step : Step) :
  (∀ q q' : PackageNode,
     reachable root q → reachable root q' → _getId q = _getId q' → q = q') →
  reachable root q → step ∈ stepsOf q → step ∈ visitOrder root.
Proof. intros Hu Hq Hs. by apply (visit_complete_steps root Hu q Hq). Qed.

Lemma visit_complete_witness :
  nodeCheckoutStep Example.libNode ∈ visitOrder Example.root.
Proof.
  apply (visit_complete Example.root Example.libNode).
  - exact Example_ids_unique.
  - apply (reach_dep _ Example.libNode); [apply list_elem_of_here|apply reach_refl].
  - apply list_elem_of_further, list_elem_of_further, list_elem_of_here.
Defined.

End Reachability.

(** * The directory oracle as its users see it *)

Module OracleUse.

Import Paths Numbering FirstPass Traversal Refresh Reachability.

Import DevelopDirOracle PackageTree.

(** ** The second pass never fails *)

Lemma assignKeys_total (K : gset string) (b : string) (keys : list bytes) :
  ∀ (num : nat) (T : gmap bytes string),
    NoDup keys → (∀ k, k ∈ keys → T !! k = None) →
    ∃ T', assignKeys K b keys num T = Some T'
          ∧ (∀ k, k ∉ keys → T' !! k = T !! k)
          ∧ (∀ k, k ∈ keys → ∃ N : nat, T' !! k = Some (os_path_join b (pretty N))).
Proof.
  induction keys as [|key keys IH]; intros num T Hnd Hfresh.
  - exists T. split_and!; [done..|]. by intros k ?%elem_of_nil.
  - apply NoDup_cons in Hnd as [Hkey Hnd]. cbn [assignKeys].
    destruct (nextFree_total K b num) as [[p num'] E]. rewrite E.
    apply nextFree_Some in E as (N & _ & -> & _ & _ & _).
    unfold insertRow. rewrite (Hfresh key) by left.
    destruct (IH num' (<[key := os_path_join b (pretty N)]> T)) as (T' & -> & Hfr & Hall);
      [done| |].
    { intros k Hk. rewrite lookup_insert_ne by (intros ->; done). apply Hfresh. by right. }
    exists T'. split_and!; [done| |].
    + intros k [? ?]%not_elem_of_cons. rewrite Hfr by done. by rewrite lookup_insert_ne.
    + intros k [->|Hk]%elem_of_cons; [|by auto].
      exists N. rewrite Hfr by done. apply lookup_insert_eq.
Qed.

Lemma assignAll_total (K : gset string) (D : list (string * list bytes)) :
  ∀ T : gmap bytes string,
    NoDup (concat D.*2) → (∀ k, k ∈ concat D.*2 → T !! k = None) →
    ∃ T', assignAll K D T = Some T'
          ∧ (∀ k, k ∉ concat D.*2 → T' !! k = T !! k)
          ∧ (∀ k b, queuedAt D k b →
               ∃ N : nat, T' !! k = Some (os_path_join b (pretty N))).
Proof.
  induction D as [|[b keys] D IH]; intros T Hnd Hfresh.
  - exists T. split_and!; [done..|]. by intros k b (? & ?%elem_of_nil & _).
  - cbn in Hnd, Hfresh. apply NoDup_app in Hnd as (Hk1 & Hk2 & Hk3). cbn [assignAll].
    destruct (assignKeys_total K b keys 1 T) as (T1 & -> & Hfr1 & Hall1); [done| |].
    { intros k ?. apply Hfresh. apply elem_of_app. by left. }
    destruct (IH T1) as (T2 & -> & Hfr2 & Hall2); [done| |].
    { intros k Hk. rewrite Hfr1 by (intros ?; by apply (Hk2 k)).
      apply Hfresh. apply elem_of_app. by right. }
    exists T2. split_and!; [done| |].
    + intros k Hk. cbn in Hk. apply not_elem_of_app in Hk as [? ?].
      rewrite Hfr2 by done. by apply Hfr1.
    + intros k b' (ks & [[= -> ->]|Hin]%elem_of_cons & Hk).
      * destruct (Hall1 k Hk) as (N & HN). exists N. rewrite Hfr2; [done|].
        by apply Hk2.
      * apply Hall2. by exists ks.
Qed.

(** ** A refresh with the internal algorithm *)

Lemma refresh_internal (formatter : Step → string) (tbl : gmap bytes string)
    (vsn : option string) (cacheKey : string) (root : PackageNode) :
  let steps := visitOrder root in
  vsn ≠ Some cacheKey →
  ∃ T : gmap bytes string,
    __openAndRefresh formatter None cacheKey root (Oracle_init tbl vsn)
      = Some {| tbl_dirs := T; tbl_vsn := Some cacheKey; dirs := []; known := ∅;
                visited := ∅; ready := false |}
    ∧ (∀ key p, keeps formatter tbl steps key p → T !! key = Some p)
    ∧ (∀ key b, queues formatter tbl steps key b →
         ∃ N : nat, T !! key = Some (os_path_join b (pretty N)))
    ∧ (∀ key, firstVisit steps key = None → T !! key = None).
Proof.
  intros steps Hvsn. unfold __openAndRefresh.
  rewrite bool_decide_eq_true_2 by done.
  rewrite touch_visitOrder, fmt_collectAll by done. fold steps.
  destruct (collected_all formatter tbl steps vsn) as [_ Hr _ Hk Hq _ _ Hks].
  set (o1 := collectAll formatter steps (Oracle_init tbl vsn)) in *.
  unfold __writeBack.
  assert (∀ k b, queuedAt (dirs o1) k b → known o1 !! k = None) as Hfresh.
  { intros k b Hkb%Hq. destruct (known o1 !! k) as [p|] eqn:E; [|done].
    apply Hk in E. by destruct (keeps_queues_excl _ _ _ _ _ _ E Hkb). }
  destruct (assignAll_total (map_img (known o1)) (dirs o1) (known o1))
    as (T & -> & Hfr & Hall); [done| |].
  { intros k [b ?]%elem_of_concat_dirs. by eapply Hfresh. }
  exists T. rewrite Hr. split_and!; [done| | |].
  - intros key p Hkeep. pose proof Hkeep as Hkn%Hk. rewrite Hfr; [done|].
    intros [b Hb]%elem_of_concat_dirs. apply Hfresh in Hb. congruence.
  - intros key b Hqu%Hq. by eapply Hall.
  - intros key Hnone. rewrite Hfr.
    + destruct (known o1 !! key) as [p|] eqn:E; [|done].
      apply Hk in E as (s & ? & _). congruence.
    + intros [b (s & ? & _)%Hq]%elem_of_concat_dirs. congruence.
Qed.

Lemma refresh_directory (formatter : Step → string) (tbl T : gmap bytes string)
    (steps : list Step) (key : bytes) (first : Step) :
  (∀ key p, keeps formatter tbl steps key p → T !! key = Some p) →
  (∀ key b, queues formatter tbl steps key b →
     ∃ N : nat, T !! key = Some (os_path_join b (pretty N))) →
  firstVisit steps key = Some first →
  ∃ path, T !! key = Some path ∧ startswith path (formatter first) = true.
Proof.
  intros Hkeep Hnew Hfirst.
  destruct (keeps_or_queues formatter tbl _ _ _ Hfirst) as [[p Hp]|Hq].
  - exists p. split; [by apply Hkeep|]. destruct Hp as (s & Hs & _ & ?). congruence.
  - destruct (Hnew _ _ Hq) as (N & HN). exists (os_path_join (formatter first) (pretty N)).
    split; [done|]. apply join_startswith, pretty_no_slash.
Qed.

(** X1: With the internal algorithm, [prime] after a change of the recipes
    never fails, whatever the formatter and the old table are.
    Afterwards the formatter of the oracle answers every step that was
    visited with the directory of its key, which starts with the base
    directory of the first step that has the key, and leaves the oracle
    as it is; for a step whose key was not visited the assertion
    fails. *)
Theorem prime_answers (formatter : Step → string) (tbl : gmap bytes string)
    (vsn : option string) (cacheKey : string) (root : PackageNode) :
  let steps := visitOrder root in
  let r := prime formatter None cacheKey root (Oracle_init tbl vsn) in
  vsn ≠ Some cacheKey →
  r.1 = Ok tt ∧ ready r.2 = true ∧ tbl_vsn r.2 = Some cacheKey
  ∧ (∀ step : Step, step ∈ steps →
       ∃ (path : string) (first : Step),
         __fmt formatter None step r.2 = (Ok (Some path), r.2)
         ∧ firstVisit steps (keyOf step) = Some first
         ∧ startswith path (formatter first) = true)
  ∧ (∀ step : Step, firstVisit steps (keyOf step) = None →
       ∃ msg, __fmt formatter None step r.2 = (Raise (AssertionError msg), r.2)).
Proof.
  intros steps r Hvsn. subst r. unfold prime.
  destruct (refresh_internal formatter tbl vsn cacheKey root Hvsn)
    as (T & -> & Hkeep & Hnew & Hnone). fold steps in Hkeep, Hnew, Hnone.
  cbn [fst snd ready tbl_vsn tbl_dirs dirs known visited]. split_and!; [done..| |].
  - intros step [first Hfirst]%firstVisit_elem.
    destruct (refresh_directory formatter tbl T steps _ _ Hkeep Hnew Hfirst)
      as (path & HT & Hsw).
    exists path, first. unfold __fmt. cbn [ready tbl_dirs]. by rewrite HT.
  - intros step HT%Hnone. eexists. unfold __fmt. cbn [ready tbl_dirs]. by rewrite HT.
Qed.

Lemma prime_answers_witness :
  ∃ path,
    __fmt developNameFormatter None Example.buildStep
      (prime developNameFormatter None "v2" Example.root
         (Oracle_init Example.oldDirs (Some "v1"))).2
    = (Ok (Some path),
       (prime developNameFormatter None "v2" Example.root
          (Oracle_init Example.oldDirs (Some "v1"))).2).
Proof.
  assert (Some "v1" ≠ Some "v2") as Hvsn by discriminate.
  pose proof (prime_answers developNameFormatter Example.oldDirs (Some "v1") "v2"
                Example.root Hvsn) as H.
  cbv zeta in H. destruct H as (_ & _ & _ & H & _).
  destruct (H Example.buildStep) as (path & first & Hp & _).
  - apply (own_steps_visited Example.root).
    apply list_elem_of_further, list_elem_of_here.
  - exists path. exact Hp.
Defined.

(** X2: Directories are stable: when the recipes change once more and the
    formatter still gives the same base directories for the same
    packages, the next refresh leaves every directory as it is. *)
Theorem refresh_stable (formatter : Step → string) (tbl : gmap bytes string)
    (vsn : option string) (cacheKey cacheKey' : string) (root : PackageNode) :
  vsn ≠ Some cacheKey → cacheKey' ≠ cacheKey →
  ∃ o1 o2 : Oracle,
    __openAndRefresh formatter None cacheKey root (Oracle_init tbl vsn) = Some o1
    ∧ __openAndRefresh formatter None cacheKey' root
        (Oracle_init (tbl_dirs o1) (tbl_vsn o1)) = Some o2
    ∧ tbl_dirs o2 = tbl_dirs o1 ∧ tbl_vsn o2 = Some cacheKey'.
Proof.
  intros Hvsn Hne.
  destruct (refresh_internal formatter tbl vsn cacheKey root Hvsn)
    as (T1 & H1 & Hkeep1 & Hnew1 & Hnone1).
  destruct (refresh_internal formatter T1 (Some cacheKey) cacheKey' root)
    as (T2 & H2 & Hkeep2 & _ & Hnone2); [congruence|].
  eexists _, _. split; [exact H1|]. cbn [tbl_dirs tbl_vsn].
  split; [exact H2|]. cbn [tbl_dirs tbl_vsn]. split; [|done].
  apply map_eq. intros key.
  destruct (firstVisit (visitOrder root) key) as [first|] eqn:Hfirst.
  - destruct (refresh_directory formatter tbl T1 _ _ _ Hkeep1 Hnew1 Hfirst)
      as (path & HT & Hsw).
    rewrite HT. apply Hkeep2. by exists first.
  - by rewrite Hnone1, Hnone2.
Qed.

Lemma refresh_stable_witness :
  ∃ o1 o2 : Oracle,
    __openAndRefresh developNameFormatter None "v2" Example.root
      (Oracle_init Example.oldDirs (Some "v1")) = Some o1
    ∧ __openAndRefresh developNameFormatter None "v3" Example.root
        (Oracle_init (tbl_dirs o1) (tbl_vsn o1)) = Some o2
    ∧ tbl_dirs o2 = tbl_dirs o1.
Proof.
  assert (Some "v1" ≠ Some "v2") as Hvsn by discriminate.
  assert ("v3" ≠ "v2") as Hne by discriminate.
  destruct (refresh_stable developNameFormatter Example.oldDirs (Some "v1") "v2" "v3"
              Example.root Hvsn Hne) as (o1 & o2 & H1 & H2 & H3 & _).
  exists o1, o2. split; [exact H1|]. split; [exact H2|exact H3].
Defined.

(** ** With an external persister *)

Lemma collectAllExt_spec (formatter ext : Step → string) (tbl : gmap bytes string)
    (vsn : option string) (steps : list Step) :
  let o := collectAllExt formatter ext steps (Oracle_init tbl vsn) in
  tbl_dirs o = tbl ∧ tbl_vsn o = vsn ∧ dirs o = [] ∧ ready o = false
  ∧ (∀ key : bytes, key ∈ visited o ↔ is_Some (firstVisit steps key))
  ∧ (∀ key : bytes, known o !! key = ext <$> firstVisit steps key).
Proof.
  induction steps as [|step steps IH] using rev_ind.
  - cbn. split_and!; [done..| |done]. intros key. split; [by intros ?%elem_of_empty|].
    by intros [? [=]].
  - unfold collectAllExt in *. rewrite foldl_app. cbn [foldl].
    cbn zeta in IH. destruct IH as (H1 & H2 & H3 & H4 & H5 & H6).
    set (o := foldl _ _ steps) in *. unfold collect.
    destruct (bool_decide (keyOf step ∈ visited o)) eqn:E.
    + apply bool_decide_eq_true in E. apply H5 in E as [s Hs].
      split_and!; [done..| |].
      * intros key. rewrite H5, firstVisit_snoc.
        destruct (firstVisit steps key) eqn:E'; [done|].
        case_bool_decide; [|done]. subst key. congruence.
      * intros key. rewrite H6, firstVisit_snoc.
        destruct (firstVisit steps key) eqn:E'; [done|].
        case_bool_decide; [|done]. subst key. congruence.
    + apply bool_decide_eq_false in E. cbn [tbl_dirs tbl_vsn dirs ready visited known].
      assert (firstVisit steps (keyOf step) = None) as Hnone.
      { destruct (firstVisit steps (keyOf step)) eqn:E'; [|done].
        destruct E. apply H5. by eauto. }
      split_and!; [done..| |].
      * intros key. rewrite elem_of_union, elem_of_singleton, H5, firstVisit_snoc.
        destruct (firstVisit steps key) eqn:E'.
        { split; [by eauto|by right]. }
        case_bool_decide as Hk.
        { split; [by eauto|by left]. }
        split; [|by intros [? [=]]]. intros [?|[? [=]]]. by destruct Hk.
      * intros key. rewrite firstVisit_snoc.
        destruct (decide (keyOf step = key)) as [<-|Hne].
        { rewrite lookup_insert_eq, Hnone. by rewrite bool_decide_eq_true_2. }
        rewrite lookup_insert_ne by done. rewrite H6.
        destruct (firstVisit steps key); [done|]. by rewrite bool_decide_eq_false_2.
Qed.

Lemma fmt_collectAllExt (formatter ext : Step → string) (steps : list Step) (o : Oracle) :
  ready o = false →
  foldl (λ o step, (__fmt formatter (Some ext) step o).2) o steps
  = collectAllExt formatter ext steps o.
Proof.
  revert o. induction steps as [|step steps IH]; intros o Hr; [done|].
  unfold collectAllExt. cbn [foldl]. unfold __fmt at 2. rewrite Hr. cbn [snd].
  apply IH. unfold collect. by destruct (bool_decide _).
Qed.

(** X3: With an external persister a refresh asks the persister once for
    every key, for the first step that has the key, and the table then
    holds exactly these answers: nothing of the old table is kept, no
    number is added, and the refresh cannot fail. *)
Theorem refresh_external (formatter ext : Step → string) (tbl : gmap bytes string)
    (vsn : option string) (cacheKey : string) (root : PackageNode) :
  vsn ≠ Some cacheKey →
  ∃ o' : Oracle,
    __openAndRefresh formatter (Some ext) cacheKey root (Oracle_init tbl vsn) = Some o'
    ∧ tbl_vsn o' = Some cacheKey
    ∧ ∀ key : bytes, tbl_dirs o' !! key = ext <$> firstVisit (visitOrder root) key.
Proof.
  intros Hvsn. unfold __openAndRefresh. rewrite bool_decide_eq_true_2 by done.
  rewrite touch_visitOrder, fmt_collectAllExt by done.
  destruct (collectAllExt_spec formatter ext tbl vsn (visitOrder root))
    as (_ & _ & Hd & _ & _ & Hk).
  unfold __writeBack. rewrite Hd. cbn [assignAll].
  eexists. split; [done|]. cbn [tbl_dirs tbl_vsn]. by split.
Qed.

Lemma refresh_external_witness :
  ∃ o' : Oracle,
    __openAndRefresh developNameFormatter (Some (λ step, getWorkspacePath step)) "v2"
      Example.root (Oracle_init Example.oldDirs (Some "v1")) = Some o'
    ∧ tbl_dirs o' !! "gonevid" = None.
Proof.
  assert (Some "v1" ≠ Some "v2") as Hvsn by discriminate.
  destruct (refresh_external developNameFormatter (λ step, getWorkspacePath step)
              Example.oldDirs (Some "v1") "v2" Example.root Hvsn) as (o' & H1 & _ & H2).
  exists o'. split; [exact H1|]. rewrite H2. vm_compute. reflexivity.
Defined.

End OracleUse.

(** * The names of the develop directories *)

Module DevelopNames.

Import Paths.

Lemma endswith_slash_cons (a : Ascii.ascii) (s : string) :
  endswith_slash (String a s)
  = match s with EmptyString => Ascii.eqb a slash | _ => endswith_slash s end.
Proof. by destruct s. Qed.

Lemma endswith_slash_app (s t : string) :
  endswith_slash (s +:+ t) = if String.eqb t "" then endswith_slash s else endswith_slash t.
Proof.
  induction s as [|a s IH].
  - rewrite append_nil. by destruct t.
  - rewrite append_cons, !endswith_slash_cons, IH.
    destruct s as [|c s].
    + rewrite append_nil. by destruct t.
    + rewrite append_cons. done.
Qed.

Lemma replace_colons_empty (s : string) : replace_colons s = "" ↔ s = "".
Proof.
  split; [|by intros ->]. destruct s as [|a [|b s]]; [done|done|].
  cbn [replace_colons]. by destruct (_ && _).
Qed.

(** X6: The base directory that [developNameFormatter] gives ends in a
    slash exactly if the name of the package (of the recipe, for a
    checkout step) is empty or ends in a slash or in [::]; for all other
    names it is a proper directory name. *)
Theorem develop_dir_trailing_slash (step : Step) :
  let base := if isCheckoutStep step then getRecipeName (getPackage step)
              else getName (getPackage step) in
  endswith_slash (developNameFormatter step) = false
  ↔ base ≠ "" ∧ endswith_slash (replace_colons base) = false.
Proof.
  intros base. unfold developNameFormatter. fold base.
  set (b := replace_colons base).
  assert (String.eqb b "" = true ↔ base = "") as Hb.
  { rewrite String.eqb_eq. apply replace_colons_empty. }
  assert (∃ x, os_path_join "dev" (getLabel step) = x
               ∧ String.eqb x "" = false ∧ endswith_slash x = false) as (x & -> & Hx1 & Hx2).
  { unfold getLabel. destruct (stepKind step); by eexists. }
  unfold os_path_join. destruct (startswith b "/") eqn:Hs.
  - assert (base ≠ "") as Hne.
    { intros H. apply Hb in H. apply String.eqb_eq in H. rewrite H in Hs. done. }
    tauto.
  - rewrite Hx1, Hx2. cbn [orb]. rewrite !endswith_slash_app.
    destruct (String.eqb b "") eqn:Eb.
    + cbn. split; [done|]. intros [Hne _]. destruct Hne. by apply Hb.
    + assert (base ≠ "") as Hne by (intros H; apply Hb in H; congruence). tauto.
Qed.

End DevelopNames.

(** * Build-ids: what is cached and what is predicted *)

Module BuildIds.

Import Soundness StepSoundness CookEvents Execution CheckoutDecision.

#[local] Arguments _runShell : simpl never.
#[local] Arguments _generateAudit : simpl never.
#[local] Arguments _getBuildId : simpl never.
#[local] Arguments mapM : simpl never.

Lemma liveKey_ne_translationKey (step : Step) (l : bytes) : translationKey l ≠ liveKey step.
Proof. unfold translationKey, liveKey. intros [=]. Qed.



Lemma queryLiveBuildId_spec (sys : Sys) (cfg : Config) (step : Step) (w w1 : World)
    (l : bytes) :
  __queryLiveBuildId sys cfg step w = (Ok (Some l), w1) →
  bsBuildId (bob w1) !! liveKey step = Some l
  ∧ trace w1 = trace w ∧ wasRun w1 = wasRun w ∧ bsResultHash (bob w1) = bsResultHash (bob w).
Proof.
  unfold __queryLiveBuildId. rewrite bind_eq.
  destruct (buildOnly cfg).
  - rewrite getBuildId_eq. cbn beta iota.
    destruct (bsBuildId (bob w) !! liveKey step) as [c|] eqn:E.
    + rewrite ret_eq. by intros [= <- <-].
    + rewrite bind_eq, ask_eq. cbn beta iota.
      destruct (predictLiveBuildId sys w step) as [p|]; [|by rewrite bind_eq, !ret_eq].
      munfold. mrun. intros [= <- <-]. cbn [bob bsBuildId trace wasRun bsResultHash].
      by rewrite lookup_insert_eq.
  - rewrite ret_eq. cbn beta iota. rewrite bind_eq, ask_eq. cbn beta iota.
    destruct (predictLiveBuildId sys w step) as [p|]; [|by rewrite bind_eq, !ret_eq].
    munfold. mrun. intros [= <- <-]. cbn [bob bsBuildId trace wasRun bsResultHash].
    by rewrite lookup_insert_eq.
Qed.

Lemma translateLiveBuildId_spec (sys : Sys) (step : Step) (l b : bytes) (w w1 : World) :
  __translateLiveBuildId sys step l w = (Ok (Some b), w1) →
  bsBuildId (bob w1) !! translationKey l = Some b
  ∧ (∀ k, k ≠ translationKey l → bsBuildId (bob w1) !! k = bsBuildId (bob w) !! k)
  ∧ trace w1 = trace w ∧ wasRun w1 = wasRun w ∧ bsResultHash (bob w1) = bsResultHash (bob w).
Proof.
  unfold __translateLiveBuildId. rewrite bind_eq, getBuildId_eq. cbn beta iota.
  destruct (bsBuildId (bob w) !! translationKey l) as [c|] eqn:E.
  - rewrite ret_eq. by intros [= <- <-].
  - rewrite bind_eq, ask_eq. cbn beta iota.
    destruct (downloadLocalLiveBuildId sys w step l) as [p|]; [|by rewrite bind_eq, !ret_eq].
    munfold. mrun. intros [= <- <-]. cbn [bob bsBuildId trace wasRun bsResultHash].
    rewrite lookup_insert_eq. split_and!; [done| |done..].
    intros k Hk. by rewrite lookup_insert_ne.
Qed.

(** X8: The build-id of a checkout step is predicted only where the code
    allows it: the workspace does not exist, the package is not to be
    checked out always, the step has a live build-id and the archive can
    download.  Then nothing was cooked or run for it, and the store holds
    the live build-id of the step and the build-id it stands for. *)
Theorem predicted_build_id (sys : Sys) (cfg : Config)
    (cookRec : list Step → PackageT → bool → N → M unit)
    (step : Step) (depth : N) (w w1 : World) (h : option ResultHash) :
  __getCheckoutStepBuildId sys cfg cookRec step depth w = (Ok (h, true), w1) →
  os_path_exists sys w (getWorkspacePath step) = false
  ∧ alwaysCheckout cfg (getName (getPackage step)) = false
  ∧ hasLiveBuildId step = true
  ∧ canDownloadLocal sys = true
  ∧ trace w1 = trace w ∧ wasRun w1 = wasRun w
  ∧ bsResultHash (bob w1) = bsResultHash (bob w)
  ∧ ∃ l b : bytes,
      truthy l = true ∧ h = Some (RHash b)
      ∧ bsBuildId (bob w1) !! liveKey step = Some l
      ∧ bsBuildId (bob w1) !! translationKey l = Some b.
Proof.
  unfold __getCheckoutStepBuildId. rewrite bind_eq, ask_eq. cbn beta iota.
  rewrite bind_eq.
  assert (∀ w0 : World, get_world w0 = get_world w0) as _ by done.
  destruct (negb (os_path_exists sys w (getWorkspacePath step))
            && negb (alwaysCheckout cfg (getName (getPackage step)))
            && hasLiveBuildId step && canDownloadLocal sys) eqn:Hc.
  - apply andb_true_iff in Hc as [Hc Hd]. apply andb_true_iff in Hc as [Hc Hl].
    apply andb_true_iff in Hc as [Hex Ha]. apply negb_true_iff in Hex, Ha.
    rewrite bind_eq.
    destruct (__queryLiveBuildId sys cfg step w) as [[[l|]|e] w2] eqn:Eq; cbn beta iota.
    + apply queryLiveBuildId_spec in Eq as (Q1 & Q2 & Q3 & Q4).
      destruct (truthy l) eqn:Ht.
      * destruct (__translateLiveBuildId sys step l w2) as [[[b|]|e] w3] eqn:Et;
          cbn beta iota.
        -- apply translateLiveBuildId_spec in Et as (T1 & T2 & T3 & T4 & T5).
           rewrite ret_eq. intros [= <- <-]. split_and!; [done..|congruence|congruence
             |congruence|].
           exists l, b. split_and!; [done..| |done].
           rewrite T2; [done|]. apply not_eq_sym, liveKey_ne_translationKey.
        -- rewrite bind_eq.
           destruct (cookRec _ _ _ _ w3) as [[[]|e] w4]; [|done]. cbn beta iota.
           rewrite bind_eq, getResultHash_eq. cbn beta iota. rewrite ret_eq. by intros [=].
        -- done.
      * rewrite ret_eq. cbn beta iota. rewrite bind_eq.
        destruct (cookRec _ _ _ _ w2) as [[[]|e] w4]; [|done]. cbn beta iota.
        rewrite bind_eq, getResultHash_eq. cbn beta iota. rewrite ret_eq. by intros [=].
    + rewrite ret_eq. cbn beta iota. rewrite bind_eq.
      destruct (cookRec _ _ _ _ w2) as [[[]|e] w4]; [|done]. cbn beta iota.
      rewrite bind_eq, getResultHash_eq. cbn beta iota. rewrite ret_eq. by intros [=].
    + done.
  - rewrite ret_eq. cbn beta iota. rewrite bind_eq.
    destruct (cookRec _ _ _ _ w) as [[[]|e] w4]; [|done]. cbn beta iota.
    rewrite bind_eq, getResultHash_eq. cbn beta iota. rewrite ret_eq. by intros [=].
Qed.

Lemma predicted_build_id_witness :
  bsBuildId (bob (__getCheckoutStepBuildId (Example.sys 0 false Example.nothing)
                    (Example.cfg false) Example.noCook Example.srcStep 0
                    LocalBuilder_init).2) !! liveKey Example.srcStep = Some "live-id".
Proof.
  destruct (__getCheckoutStepBuildId (Example.sys 0 false Example.nothing)
              (Example.cfg false) Example.noCook Example.srcStep 0 LocalBuilder_init)
    as [r w1] eqn:E.
  assert (r = Ok (Some (RHash "predicted-id"), true)) as ->.
  { apply (f_equal fst) in E. cbn [fst] in E. rewrite <- E. vm_compute. reflexivity. }
  destruct (predicted_build_id _ _ _ _ _ _ _ _ E) as (_ & _ & _ & _ & _ & _ & _ & l & b & _ & _ & Hl & _).
  cbn [snd]. rewrite Hl. f_equal.
  apply (f_equal snd) in E. cbn [snd] in E. rewrite <- E in Hl.
  vm_compute in Hl. congruence.
Defined.

End BuildIds.

(** * The checkout step: attic, collisions and dirty sources *)

Module CheckoutState.

Import Soundness StepSoundness CookEvents Execution CheckoutDecision.

#[local] Arguments _runShell : simpl never.
#[local] Arguments _generateAudit : simpl never.
#[local] Arguments _getBuildId : simpl never.
#[local] Arguments mapM : simpl never.

(** ** What is moved to the attic *)

Lemma dropOutdated_cons cs kv items cur :
  dropOutdated cs (kv :: items) cur
  = dropOutdated cs items (if decide (current cs kv) then cur else delete kv.1 cur).
Proof. reflexivity. Qed.

Lemma dropOutdated_outdated cs items cur k v :
  (k, v) ∈ items → ¬ current cs (k, v) → dropOutdated cs items cur !! k = None.
Proof.
  revert cur. induction items as [|kv items IH]; intros cur; [by intros ?%elem_of_nil|].
  intros Hin Hout. rewrite dropOutdated_cons.
  assert (∀ cur', cur' !! k = None → dropOutdated cs items cur' !! k = None) as Hnone.
  { clear. induction items as [|kv items IH]; intros cur' H; [done|].
    rewrite dropOutdated_cons. apply IH.
    destruct (decide (current cs kv)); [done|].
    destruct (decide (kv.1 = k)) as [<-|?]; [apply lookup_delete_eq|].
    by rewrite lookup_delete_ne. }
  apply elem_of_cons in Hin as [<-|Hin].
  - rewrite decide_False by done. apply Hnone, lookup_delete_eq.
  - by apply IH.
Qed.

Lemma dropOutdated_current cs items cur k :
  (∀ v, (k, v) ∈ items → current cs (k, v)) → dropOutdated cs items cur !! k = cur !! k.
Proof.
  revert cur. induction items as [|[k' v'] items IH]; intros cur Hall; [done|].
  rewrite dropOutdated_cons.
  rewrite IH by (intros v ?; apply Hall; by right).
  destruct (decide (current cs (k', v'))) as [|Hn]; [done|]. cbn [fst].
  destruct (decide (k' = k)) as [->|?]; [|by rewrite lookup_delete_ne].
  destruct Hn. apply Hall. left.
Qed.

Lemma dropOutdated_filter (cs old : gmap (option string) (option bytes)) :
  dropOutdated cs (map_to_list old) old = filter (current cs) old.
Proof.
  apply map_eq. intros k. destruct (old !! k) as [v|] eqn:E.
  - destruct (decide (current cs (k, v))) as [Hc|Hn].
    + rewrite dropOutdated_current.
      * rewrite E. symmetry. by apply map_lookup_filter_Some.
      * intros v' Hin%elem_of_map_to_list. by replace v' with v by congruence.
    + rewrite (dropOutdated_outdated cs _ _ k v); [|by apply elem_of_map_to_list|done].
      symmetry. apply map_lookup_filter_None. right. intros v' ?.
      by replace v' with v by congruence.
  - rewrite dropOutdated_current.
    + rewrite E. symmetry. apply map_lookup_filter_None. by left.
    + intros v' Hin%elem_of_map_to_list. congruence.
Qed.

Lemma dropOutdated_all_current cs items cur :
  Forall (current cs) items → dropOutdated cs items cur = cur.
Proof.
  intros Hall. revert cur. induction Hall as [|kv items Hc _ IH]; intros cur; [done|].
  rewrite dropOutdated_cons.
  by rewrite decide_True, IH.
Qed.

Lemma moveToAttic_run (sys : Sys) (path : string)
    (cs : gmap (option string) (option bytes))
    (items : list (option string * option bytes)) :
  ∀ (cur : gmap (option string) (option bytes)) (w : World),
  ∃ (wA : World) (pre : list Event),
    moveToAttic sys path cs items cur w = (Ok (dropOutdated cs items cur), wA)
    ∧ trace wA = pre ++ trace w
    ∧ (∀ e, e ∈ pre → ∃ d v name,
         e = EvAttic (os_path_normpath (os_path_join path d)) name
         ∧ (Some d, v) ∈ items ∧ v ≠ dictGet cs (Some d))
    ∧ bob wA = (if decide (Forall (current cs) items) then bob w
                else bob (setDir path (dropOutdated cs items cur) w)).
Proof.
  induction items as [|[k v] items IH]; intros cur w.
  - exists w, []. split_and!; [done..| |].
    + by intros e ?%elem_of_nil.
    + by rewrite decide_True by constructor.
  - cbn [moveToAttic]. rewrite dropOutdated_cons.
    destruct k as [d|].
    + case_bool_decide as Hne.
      * rewrite decide_False by (intros [[=]|?]; done). cbn [fst].
        rewrite bind_eq, ask_eq. cbn beta iota.
        set (scmPath := os_path_normpath (os_path_join path d)).
        assert (∀ w1 : World, bob w1 = bob w →
                  ∃ wA pre, (moveToAttic sys path cs items (delete (Some d) cur)
                               (setDir path (delete (Some d) cur) w1))
                            = (Ok (dropOutdated cs items (delete (Some d) cur)), wA)
                    ∧ trace wA = pre ++ trace w1
                    ∧ (∀ e, e ∈ pre → ∃ d0 v0 name,
                         e = EvAttic (os_path_normpath (os_path_join path d0)) name
                         ∧ (Some d0, v0) ∈ (Some d, v) :: items ∧ v0 ≠ dictGet cs (Some d0))
                    ∧ bob wA = bob (setDir path (dropOutdated cs items (delete (Some d) cur)) w))
          as Hrest.
        { intros w1 Hb.
          destruct (IH (delete (Some d) cur) (setDir path (delete (Some d) cur) w1))
            as (wA & pre & E & T & F & B).
          exists wA, pre. split_and!; [done|done| |].
          - intros e (d0 & v0 & name & ? & ? & ?)%F. exists d0, v0, name.
            split_and!; [done|by right|done].
          - rewrite B. unfold setDir, BobStateOps.setDirectoryState, set_bob, modify.
            cbn [snd bob]. rewrite Hb.
            destruct (decide (Forall (current cs) items)) as [Hall|_].
            + by rewrite dropOutdated_all_current.
            + cbn [bsDirectoryState bsVariantId bsInputHashes bsResultHash bsBuildId
                   bsBuildState]. by rewrite insert_insert_eq. }
        rewrite decide_False; last first.
        { intros Hall%Forall_cons_1. destruct Hall as [[[=]|Hc] _]. by destruct Hne. }
        destruct (os_path_exists sys w scmPath).
        -- munfold. mrun.
           match goal with |- context [moveToAttic _ _ _ _ _ ?w1] =>
             destruct (Hrest {| bob := bob w; wasRun := wasRun w; wasSkipped := wasSkipped w;
                                srcBuildIds := srcBuildIds w;
                                buildDistBuildIds := buildDistBuildIds w;
                                statistic := statistic w;
                                trace := EvAttic scmPath
                                  (now_isoformat sys w +:+ "_" +:+ os_path_basename scmPath)
                                  :: trace w |} eq_refl)
               as (wA & pre & E & T & F & B) end.
           exists wA, (pre ++ [EvAttic scmPath
                                 (now_isoformat sys w +:+ "_" +:+ os_path_basename scmPath)]).
           split_and!; [exact E| | |exact B].
           ++ rewrite T. cbn [trace]. by rewrite <- app_assoc.
           ++ intros e [?|He%list_elem_of_singleton]%elem_of_app; [by apply F|subst e].
              eexists d, v, _. split_and!; [done|left|done].
        -- munfold. mrun.
           destruct (Hrest w eq_refl) as (wA & pre & E & T & F & B).
           exists wA, pre. split_and!; [exact E|done|done|exact B].
      * rewrite decide_True by (by right). destruct (IH cur w) as (wA & pre & E & T & F & B).
        exists wA, pre. split_and!; [done|done| |].
        -- intros e (d0 & v0 & name & ? & ? & ?)%F. exists d0, v0, name.
           split_and!; [done|by right|done].
        -- rewrite B. destruct (decide (Forall (current cs) items)) as [Hall|Hn].
           ++ rewrite decide_True; [done|]. constructor; [by right|done].
           ++ rewrite decide_False; [done|]. by intros [_ ?]%Forall_cons_1.
    + rewrite decide_True by (by left). destruct (IH cur w) as (wA & pre & E & T & F & B).
      exists wA, pre. split_and!; [done|done| |].
      * intros e (d0 & v0 & name & ? & ? & ?)%F. exists d0, v0, name.
        split_and!; [done|by right|done].
      * rewrite B. destruct (decide (Forall (current cs) items)) as [Hall|Hn].
        -- rewrite decide_True; [done|]. constructor; [by left|done].
        -- rewrite decide_False; [done|]. by intros [_ ?]%Forall_cons_1.
Qed.

(** X9: Before a checkout runs, the stored checkout state loses exactly the
    SCM directories whose digest is not the one of the new state; the
    entries that are still good stay.  Only directories that are dropped
    are moved to the attic, nothing else is done, and the stored
    directory state is the reduced one if an entry was dropped. *)
Theorem attic_keeps_current (sys : Sys) (path : string)
    (cs old : gmap (option string) (option bytes)) (w : World) :
  let kept := filter (current cs) old in
  ∃ (wA : World) (pre : list Event),
    moveToAttic sys path cs (map_to_list old) old w = (Ok kept, wA)
    ∧ trace wA = pre ++ trace w
    ∧ (∀ e, e ∈ pre → ∃ d v name,
         e = EvAttic (os_path_normpath (os_path_join path d)) name
         ∧ old !! Some d = Some v ∧ v ≠ dictGet cs (Some d))
    ∧ bob wA = (if decide (kept = old) then bob w
                else bob (BobStateOps.setDirectoryState path (DSCheckout kept) w).2).
Proof.
  intros kept. destruct (moveToAttic_run sys path cs (map_to_list old) old w)
    as (wA & pre & E & T & F & B).
  rewrite dropOutdated_filter in E, B. fold kept in E, B.
  exists wA, pre. split_and!; [done|done| |].
  - intros e (d & v & name & ? & ?%elem_of_map_to_list & ?)%F. by exists d, v, name.
  - rewrite B. destruct (decide (Forall (current cs) (map_to_list old))) as [Hall|Hn].
    + rewrite decide_True; [done|]. subst kept. apply map_eq. intros k.
      destruct (old !! k) as [v|] eqn:Ek.
      * apply map_lookup_filter_Some. split; [done|].
        rewrite Forall_forall in Hall. by apply (Hall (k, v)), elem_of_map_to_list.
      * apply map_lookup_filter_None. by left.
    + rewrite decide_False; [done|]. intros Heq. apply Hn, Forall_forall.
      intros [k v] Hin%elem_of_map_to_list. rewrite <- Heq in Hin.
      by apply map_lookup_filter_Some in Hin as [_ ?].
Qed.

(** ** Collisions *)

(** X10: The collision check changes nothing.  It passes if and only if no
    new SCM directory other than ["."], for which the old state has no
    digest, exists in the workspace; otherwise it ends in the build error
    that names such a directory. *)
Theorem collision_check (sys : Sys) (path : string)
    (old : gmap (option string) (option bytes)) (scmDirs : list (option string))
    (w : World) :
  let res := checkCollisions sys path old scmDirs w in
  res.2 = w
  ∧ (res.1 = Ok tt ↔ ∀ d, Some d ∈ scmDirs → ¬ collides sys w path old d)
  ∧ (∀ e, res.1 = Raise e →
       ∃ d, Some d ∈ scmDirs ∧ collides sys w path old d
            ∧ e = BuildError ("New SCM checkout '" +:+ d +:+
                              "' collides with existing file in workspace '" +:+
                              path +:+ "'!") "").
Proof.
  cbn zeta. induction scmDirs as [|[d|] scmDirs IH]; cbn [checkCollisions].
  - split_and!; [done| |done]. split; [|done]. by intros _ d ?%elem_of_nil.
  - destruct IH as (IH1 & IH2 & IH3).
    assert (¬ collides sys w path old d →
            (∀ d0, Some d0 ∈ Some d :: scmDirs → ¬ collides sys w path old d0)
            ↔ (∀ d0, Some d0 ∈ scmDirs → ¬ collides sys w path old d0)) as Hstep.
    { intros Hd. split; intros H d0 Hin.
      - apply H. by right.
      - apply elem_of_cons in Hin as [[= ->]|?]; [done|by apply H]. }
    assert (∀ e, (∃ d0, Some d0 ∈ scmDirs ∧ collides sys w path old d0
                  ∧ e = BuildError ("New SCM checkout '" +:+ d0 +:+
                              "' collides with existing file in workspace '" +:+
                              path +:+ "'!") "") →
                 ∃ d0, Some d0 ∈ Some d :: scmDirs ∧ collides sys w path old d0
                  ∧ e = BuildError ("New SCM checkout '" +:+ d0 +:+
                              "' collides with existing file in workspace '" +:+
                              path +:+ "'!") "") as Hmore.
    { intros e (d0 & ? & ? & ?). exists d0. split_and!; [by right|done..]. }
    destruct (String.eqb d ".") eqn:Edot.
    { apply String.eqb_eq in Edot. split_and!; [done| |by eauto].
      rewrite IH2. symmetry. apply Hstep. by intros [? _]. }
    case_bool_decide as Hold.
    { split_and!; [done| |by eauto].
      rewrite IH2. symmetry. apply Hstep. by intros (_ & ? & _). }
    rewrite bind_eq, ask_eq. cbn beta iota.
    destruct (os_path_exists sys w _) eqn:Eex.
    + rewrite raise_eq. cbn [fst snd].
      assert (collides sys w path old d) as Hcol.
      { split_and!; [by apply String.eqb_neq| |done].
        destruct (decide (dictGet old (Some d) = None)); [done|by destruct Hold]. }
      split_and!; [done| |].
      * split; [done|]. intros H. destruct (H d); [left|done].
      * intros e [= <-]. exists d. split_and!; [left|done..].
    + split_and!; [done| |by eauto].
      rewrite IH2. symmetry. apply Hstep. intros (_ & _ & ?). congruence.
  - destruct IH as (IH1 & IH2 & IH3). split_and!; [done| |].
    + rewrite IH2. split; intros H d Hin.
      * apply elem_of_cons in Hin as [[=]|?]. by apply H.
      * apply H. by right.
    + intros e (d & ? & ? & ?)%IH3. exists d. split_and!; [by right|done..].
Qed.

(** ** Dirty sources with [--clean-checkout] *)

Lemma composeCheckoutState_Some (step : Step) (d : string) :
  composeCheckoutState step !! Some d = Some <$> getScmDirectories step !! d.
Proof.
  unfold composeCheckoutState. rewrite lookup_insert_ne by done.
  by rewrite (lookup_kmap Some), lookup_fmap.
Qed.

(** X11: With [--clean-checkout], an SCM directory whose digest did not
    change but whose SCM reports it dirty or in error is treated like a
    changed one: the checkout is not skipped, and the directory is
    dropped from the stored state (and so moved to the attic if it
    exists).  A directory whose SCM reports something else keeps its
    entry. *)
Theorem dirty_source_checked_out_again (sys : Sys) (cfg : Config) (step : Step)
    (old : gmap (option string) (option bytes)) (w : World) (d : string) (digest : bytes)
    (resultHash : option ResultHash) (hashes : list (option ResultHash))
    (stored : option InputHashes) :
  let cs := composeCheckoutState step in
  let old' := invalidateDirty sys w step cs old in
  let status := scm_status sys w step d in
  old !! Some d = Some (Some digest) →
  getScmDirectories step !! d = Some digest →
  (status = "dirty" ∨ status = "error" →
     checkoutMustRun cfg step resultHash cs old' hashes stored = true
     ∧ filter (current cs) old' !! Some d = None)
  ∧ (status ≠ "dirty" → status ≠ "error" →
     old' !! Some d = Some (Some digest)
     ∧ filter (current cs) old' !! Some d = Some (Some digest)).
Proof.
  intros cs old' status Hold Hnew.
  assert (cs !! Some d = Some (Some digest)) as Hcs.
  { subst cs. by rewrite composeCheckoutState_Some, Hnew. }
  assert (dictGet cs (Some d) = Some digest) as Hget.
  { unfold dictGet. by rewrite Hcs. }
  assert (old' !! Some d
          = Some (if String.eqb status "dirty" || String.eqb status "error"
                  then None else Some digest)) as Hold'.
  { subst old'. unfold invalidateDirty. rewrite map_lookup_imap, Hold. cbn.
    rewrite Hget. rewrite bool_decide_eq_false_2 by (by intros []).
    fold status. by destruct (_ || _). }
  split.
  - intros Hs.
    assert (String.eqb status "dirty" || String.eqb status "error" = true) as Hb.
    { apply orb_true_iff. destruct Hs as [-> | ->]; [by left|by right]. }
    rewrite Hb in Hold'. split.
    + unfold checkoutMustRun.
      assert (cs ≠ old') as Hne by (intros Heq; rewrite <- Heq in Hold'; congruence).
      rewrite (bool_decide_eq_true_2 _ Hne). by rewrite !orb_true_r.
    + apply map_lookup_filter_None. right. intros v Hv [[=]|Hc].
      cbn [fst snd] in Hc. rewrite Hget in Hc. congruence.
  - intros H1 H2.
    assert (String.eqb status "dirty" || String.eqb status "error" = false) as Hb.
    { apply orb_false_iff. split; by apply String.eqb_neq. }
    rewrite Hb in Hold'. split; [done|].
    apply map_lookup_filter_Some. split; [done|]. right. cbn [fst snd]. by rewrite Hget.
Qed.

Lemma dirty_source_checked_out_again_witness :
  let sys := Scenario.sysWith "dirty" false 0 false Example.nothing in
  let cs := composeCheckoutState Example.srcWithTool in
  checkoutMustRun (Example.cfg false) Example.srcWithTool (Some (RHash "h")) cs
    (invalidateDirty sys LocalBuilder_init Example.srcWithTool cs Scenario.libCheckedOut)
    [] (Some (IHList [])) = true.
Proof.
  intros sys cs.
  apply (dirty_source_checked_out_again sys (Example.cfg false) Example.srcWithTool
           Scenario.libCheckedOut LocalBuilder_init "lib" "scm-digest").
  - vm_compute. reflexivity.
  - vm_compute. reflexivity.
  - left. reflexivity.
Defined.

End CheckoutState.

(** * The build step: when its script runs *)

Module BuildDecision.

Import Soundness StepSoundness CookEvents Execution CheckoutDecision.

#[local] Arguments _runShell : simpl never.
#[local] Arguments _generateAudit : simpl never.
#[local] Arguments _getBuildId : simpl never.
#[local] Arguments mapM : simpl never.

Lemma constructDir_eq (sys : Sys) (step : Step) (w : World) :
  _constructDir sys step w
  = (Ok (getWorkspacePath step, negb (os_path_isdir sys w (getWorkspacePath step))),
     if os_path_isdir sys w (getWorkspacePath step) then w
     else (emit (EvMakedirs (getWorkspacePath step)) w).2).
Proof. unfold _constructDir. mrun. by destruct (os_path_isdir sys w _). Qed.

Section Build.
Variables (sys : Sys) (cfg : Config) (running : bool).
Variable cookRec : list Step → PackageT → bool → N → M unit.
Variable buildIdRec : list Step → N → M (list (option ResultHash)).
Hypothesis HcookRec : ∀ a b c d, sound cfg (cookRec a b c d).
Hypothesis HbuildIdRec : ∀ a b, sound cfg (buildIdRec a b).


End Build.




End BuildDecision.

(** * The scheduler and the bookkeeping of cooked steps *)

Module Scheduler.

Import Soundness StepSoundness CookEvents Execution Mispredict.

#[local] Arguments _runShell : simpl never.
#[local] Arguments _generateAudit : simpl never.
#[local] Arguments _getBuildId : simpl never.
#[local] Arguments mapM : simpl never.

Lemma wrapTask_errors (cfg : Config) (r : Res unit) (e : Exc) :
  e ∈ buildErrors (wrapTask cfg Sched_fresh r).1 →
  r = Raise e ∧ e ≠ RestartBuildException ∧ e ≠ CancelBuildException.
Proof.
  destruct r as [[]|e0]; [by intros ?%elem_of_nil|].
  destruct e0; cbn; try (by intros ?%elem_of_nil);
    intros ->%list_elem_of_singleton; done.
Qed.

Lemma cookLoop_no_internal (sys : Sys) (cfg : Config) (fuel rounds : nat) (steps : list Step)
    (checkoutOnly : bool) (depth : N) (sc : Sched) (w : World) (e : Exc) :
  (cookLoop sys cfg fuel rounds steps checkoutOnly depth sc w).1.1 = Raise e →
  e ≠ RestartBuildException ∧ e ≠ CancelBuildException.
Proof.
  revert sc w. induction rounds as [|n IH]; intros sc w; cbn [cookLoop].
  - destruct (sc_restart sc); [by intros [= <-]|].
    destruct (negb (sc_running sc)); [by intros [= <-]|done].
  - destruct (sc_restart sc); [|destruct (negb (sc_running sc)); [by intros [= <-]|done]].
    destruct (dispatcher sys cfg _ fuel steps checkoutOnly depth w) as [r w1].
    pose proof (wrapTask_errors cfg r) as Herr.
    destruct (wrapTask cfg Sched_fresh r) as [sc2 r2]. cbn [fst] in Herr.
    destruct (buildErrors sc2) as [|e1 [|e2 l]]; cbn [fst snd].
    + apply IH.
    + intros [= <-]. apply Herr. left.
    + by intros [= <-].
Qed.

(** X17: [cook] never lets the exceptions through that only steer the
    traversal.  If the first round of the dispatcher succeeds, so does
    [cook]; if it ends in an error that is neither a restart nor a
    cancellation, [cook] raises this very error.  In both cases no
    second round is run. *)
Theorem cook_outcome (sys : Sys) (cfg : Config) (fuel rounds : nat) (steps : list Step)
    (checkoutOnly : bool) (depth : N) (w : World) :
  let first := dispatcher sys cfg true fuel steps checkoutOnly depth w in
  let res := cook sys cfg fuel (S rounds) steps checkoutOnly depth w in
  (∀ e, res.1.1 = Raise e → e ≠ RestartBuildException ∧ e ≠ CancelBuildException)
  ∧ (first.1 = Ok tt → res.1.1 = Ok tt ∧ res.2 = first.2)
  ∧ (∀ e, first.1 = Raise e → e ≠ RestartBuildException → e ≠ CancelBuildException →
       res.1.1 = Raise e ∧ res.2 = first.2).
Proof.
  intros first res. split_and!.
  - intros e. apply cookLoop_no_internal.
  - subst res. unfold cook. rewrite cookLoop_enter by done. cbn [sc_running Sched_fresh].
    fold first. destruct first as [r w1]. cbn [fst snd]. intros ->. cbn.
    by destruct rounds.
  - intros e. subst res. unfold cook. rewrite cookLoop_enter by done.
    cbn [sc_running Sched_fresh]. fold first. destruct first as [r w1]. cbn [fst snd].
    intros -> H1 H2. by destruct e.
Qed.

(** ** A step is cooked once *)



Lemma setAlreadyRun_eq (step : Step) (isCheckout skipped : bool) (w : World) :
  ∃ w1, _setAlreadyRun step isCheckout skipped w = (Ok tt, w1)
        ∧ wasRun w1 !! getWorkspacePath step = Some (getVariantId step, isCheckout)
        ∧ wasSkipped w1 !! getWorkspacePath step = Some skipped.
Proof.
  unfold _setAlreadyRun, set_wasRun, set_wasSkipped. mrun. eexists. split; [done|].
  cbn [wasRun wasSkipped]. by rewrite !lookup_insert_eq.
Qed.

Section Once.
Variables (sys : Sys) (cfg : Config) (running : bool).
Variable cookRec : list Step → PackageT → bool → N → M unit.
Variable buildIdRec : list Step → N → M (list (option ResultHash)).

Lemma checkoutFinish_recorded (step : Step) (depth : N) (path : string) (created executed : bool)
    (w w' : World) :
  checkoutFinish sys cfg running cookRec buildIdRec step depth path created executed w
    = (Ok tt, w') →
  wasRun w' !! getWorkspacePath step = Some (getVariantId step, true)
  ∧ wasSkipped w' !! getWorkspacePath step = Some false.
Proof.
  unfold checkoutFinish. rewrite bind_eq, getResultHash_eq. cbn beta iota.
  unfold hashWorkspace at 1. rewrite bind_eq, ask_eq. cbn beta iota.
  rewrite bind_eq. unfold BobStateOps.setResultHash at 1, set_bob at 1. mrun.
  match goal with |- context [(if ?b then ?m else ret tt) ?w0] =>
    destruct ((if b then m else ret tt) w0) as [[[]|e] w2]; [|done] end.
  cbn beta iota. rewrite bind_eq.
  match goal with |- context [(if ?b then ?m else ret tt) w2] =>
    assert (∃ w3, (if b then m else ret tt) w2 = (Ok tt, w3)) as [w3 ->] end.
  { destruct (_ && _); [|by eexists].
    rewrite bind_eq, ask_eq. cbn beta iota.
    destruct (calcLiveBuildId sys w2 step); [|by eexists]. unfold emit. mrun. by eexists. }
  cbn beta iota. rewrite bind_eq.
  destruct (setAlreadyRun_eq step true false w3) as (w4 & -> & Hr & Hs).
  cbn beta iota. rewrite bind_eq, get_world_eq. cbn beta iota.
  destruct (default _ _) as [bid predicted].
  case_bool_decide.
  - destruct predicted; [|by rewrite raise_eq].
    unfold __handleChangedBuildId. rewrite bind_eq.
    destruct (__invalidateLiveBuildId step w4) as [[[]|e] w5]; [|done].
    cbn beta iota. unfold set_srcBuildIds, set_buildDistBuildIds, _clearWasRun, set_wasRun.
    mrun. done.
  - rewrite ret_eq. by intros [= <-].
Qed.

Lemma cookCheckoutStep_recorded (step : Step) (depth : N) (w w' : World) :
  _cookCheckoutStep sys cfg running cookRec buildIdRec step depth w = (Ok tt, w') →
  wasRun w' !! getWorkspacePath step = Some (getVariantId step, true)
  ∧ wasSkipped w' !! getWorkspacePath step = Some false.
Proof.
  unfold _cookCheckoutStep. rewrite bind_eq.
  destruct (cookRec _ _ _ _ w) as [[[]|e] w1]; [|done]. cbn beta iota.
  rewrite bind_eq.
  destruct (_constructDir sys step w1) as [[[p c]|e] w2]; [|done]. cbn beta iota.
  rewrite bind_eq, getDirectoryState_eq. cbn beta iota. rewrite bind_eq.
  destruct (bsDirectoryState (bob w2) !! p) as [[m|l|d]|];
    rewrite ?ret_eq, ?raise_eq; cbn beta iota; [|done|done|].
  all: rewrite bind_eq.
  all: match goal with |- context [(if ?c0 then ?m else ?m') ?w0] =>
    destruct ((if c0 then m else m') w0) as [[old'|e] w4]; [|done] end.
  all: cbn beta iota; rewrite bind_eq, getResultHash_eq; cbn beta iota; rewrite bind_eq.
  all: match goal with |- context [(if ?b then ?m else ?m') ?w0] =>
    destruct ((if b then m else m') w0) as [[x|e] w5]; [|done] end.
  all: cbn beta iota; apply checkoutFinish_recorded.
Qed.


End Once.


End Scheduler.

(** * What a run never does

    A second invariant of computations, kept like the first one by
    [bind] and the loops: every action is [policy]. *)

Module Policy.

Import Soundness StepSoundness CookEvents Execution CheckoutDecision CheckoutState.

Section Obeys.
Variable P : Event → Prop.

Lemma obeys_at_silent {A} (m : M A) w : trace (m w).2 = trace w → obeys_at P m w.
Proof. intros H. exists []. by rewrite H. Qed.

Lemma obeys_silent {A} (m : M A) : (∀ w, trace (m w).2 = trace w) → obeys P m.
Proof. intros H w. by apply obeys_at_silent. Qed.

Lemma obeys_ret {A} (a : A) : obeys P (ret a).
Proof. by apply obeys_silent. Qed.

Lemma obeys_raise {A} e : obeys P (@raise A e).
Proof. by apply obeys_silent. Qed.

Lemma obeys_get_world : obeys P get_world.
Proof. by apply obeys_silent. Qed.

Lemma obeys_modify f : (∀ w, trace (f w) = trace w) → obeys P (modify f).
Proof. intros H. by apply obeys_silent. Qed.

Lemma obeys_emit e : P e → obeys P (emit e).
Proof. intros H w. exists [e]. split; [done|by constructor]. Qed.

Lemma obeys_at_bind {A B} (m : M A) (f : A → M B) w :
  obeys_at P m w → (∀ a w1, m w = (Ok a, w1) → obeys_at P (f a) w1) →
  obeys_at P (bind m f) w.
Proof.
  intros (evs & E & F) Hf. unfold obeys_at, bind.
  destruct (m w) as [[a|e] w1] eqn:Em; cbn [snd] in *.
  - destruct (Hf a w1 eq_refl) as (evs' & E' & F').
    exists (evs' ++ evs). rewrite E', E, app_assoc. split; [done|by apply Forall_app].
  - by exists evs.
Qed.

Lemma obeys_bind {A B} (m : M A) (f : A → M B) :
  obeys P m → (∀ a, returns m a → obeys P (f a)) → obeys P (bind m f).
Proof.
  intros Hm Hf w. apply obeys_at_bind; [apply Hm|].
  intros a w1 E. apply Hf. by exists w, w1.
Qed.

Lemma obeys_forM {A} (l : list A) (f : A → M unit) :
  (∀ x, x ∈ l → obeys P (f x)) → obeys P (forM l f).
Proof.
  induction l as [|x l IH]; intros H; cbn [forM].
  - apply obeys_ret.
  - apply obeys_bind; [apply H; left | intros _ _; apply IH; intros; apply H; by right].
Qed.

Lemma obeys_mapM {A B} (f : A → M B) (l : list A) :
  (∀ x, x ∈ l → obeys P (f x)) → obeys P (mapM f l).
Proof.
  induction l as [|x l IH]; intros H; cbn [mapM].
  - apply obeys_ret.
  - apply obeys_bind; [apply H; left|]. intros y _.
    apply obeys_bind; [apply IH; intros; apply H; by right|]. intros; apply obeys_ret.
Qed.

Lemma obeys_filterM {A} (f : A → M bool) (l : list A) :
  (∀ x, x ∈ l → obeys P (f x)) → obeys P (filterM f l).
Proof.
  induction l as [|x l IH]; intros H; cbn [filterM].
  - apply obeys_ret.
  - apply obeys_bind; [apply H; left|]. intros y _.
    apply obeys_bind; [apply IH; intros; apply H; by right|]. intros; apply obeys_ret.
Qed.

Lemma obeys_at_runShell sys step scriptName clean w :
  (∀ r, P (EvRunShell step scriptName clean (bob w) r)) →
  P (EvEmptyDirectory (getWorkspacePath step)) →
  P (EvMakedirs (getWorkspacePath step)) →
  obeys_at P (_runShell sys step scriptName clean) w.
Proof.
  intros Hok He Hm.
  destruct (runShell_spec sys step scriptName clean w)
    as (pre & w1 & Hpre & _ & _ & Ht & _).
  eexists. split; [rewrite Ht; by rewrite app_comm_cons|].
  constructor; [apply Hok|]. eapply Forall_impl; [exact Hpre|].
  by intros e [-> | ->].
Qed.

End Obeys.

Ltac obeys_prim :=
  first
    [ apply obeys_ret
    | apply obeys_raise
    | apply obeys_get_world
    | apply obeys_modify; intros; reflexivity
    | apply obeys_emit; first [ exact I | assumption | done ] ].

Ltac obeys_hook :=
  repeat match goal with
  | H : returns (_constructDir _ ?s) (?p, _) |- _ =>
      apply constructDir_returns in H; subst p
  end.

Ltac obeys_all :=
  repeat first
    [ obeys_prim
    | assumption
    | match goal with H : context [obeys] |- _ => apply H end
    | apply obeys_bind; [ | intros ? ? ]
    | progress unfold when, ask, stepMessage, hashWorkspace, set_bob, set_wasRun,
        set_wasSkipped, set_srcBuildIds, set_buildDistBuildIds, set_statistic,
        BobStateOps.getVariantId, BobStateOps.setVariantId,
        BobStateOps.getDirectoryState, BobStateOps.setDirectoryState,
        BobStateOps.getInputHashes, BobStateOps.setInputHashes,
        BobStateOps.delInputHashes, BobStateOps.setResultHash,
        BobStateOps.getResultHash,
        BobStateOps.resetWorkspaceState,
        BobStateOps.getBuildId, BobStateOps.setBuildId, BobStateOps.delBuildId,
        _wasAlreadyRun, _setAlreadyRun, _clearWasRun, __yieldJobWhile,
        __getIncrementalVariantId
    | match goal with
      | |- obeys _ (if ?b then _ else _) => destruct b eqn:?
      | |- obeys _ (match ?x with _ => _ end) => destruct x eqn:?
      | |- obeys _ (let '(_, _) := ?x in _) => destruct x eqn:?
      end; obeys_hook ].

Section Steps.
Variables (sys : Sys) (cfg : Config) (running : bool).
Variable cookRec : list Step → PackageT → bool → N → M unit.
Variable buildIdRec : list Step → N → M (list (option ResultHash)).
Hypothesis HcookRec : ∀ a b c d, obeys (policy sys cfg) (cookRec a b c d).
Hypothesis HbuildIdRec : ∀ a b, obeys (policy sys cfg) (buildIdRec a b).

#[local] Abbreviation obeying := (obeys (policy sys cfg)).

Lemma obeys_runShell_build step :
  obeying (_runShell sys step "build" (cleanBuild cfg)).
Proof. intros w. by apply obeys_at_runShell. Qed.

Lemma obeys_runShell_package step : obeying (_runShell sys step "package" true).
Proof. intros w. by apply obeys_at_runShell. Qed.

Lemma obeys_constructDir step : obeying (_constructDir sys step).
Proof. unfold _constructDir. obeys_all. Qed.

Lemma obeys_getBuildIdList steps depth :
  obeying (__getBuildIdList sys cfg running cookRec buildIdRec steps depth).
Proof.
  unfold __getBuildIdList. apply obeys_mapM. intros step _.
  unfold __getBuildIdTask, __getBuildIdSingle, __getCheckoutStepBuildId, getDigestCoro,
    __queryLiveBuildId, __translateLiveBuildId.
  obeys_all; auto.
Qed.

Lemma obeys_getBuildId step depth :
  obeying (_getBuildId sys cfg running cookRec buildIdRec step depth).
Proof.
  unfold _getBuildId. apply obeys_bind; [apply obeys_getBuildIdList|]. intros. obeys_all.
Qed.

Lemma obeys_generateAudit step depth h x :
  obeying (_generateAudit sys cfg running cookRec buildIdRec step depth h x).
Proof.
  unfold _generateAudit. destruct (isCheckoutStep step) eqn:Hc.
  - apply obeys_bind; [obeys_all|]. intros bid (w & w' & [= <- _]). obeys_all.
  - apply obeys_bind; [apply obeys_getBuildId|]. intros bid _.
    apply obeys_bind; [|intros; obeys_all]. apply obeys_emit. cbn. by rewrite Hc.
Qed.

Lemma obeys_handleChangedBuildId step h : obeying (__handleChangedBuildId step h).
Proof. unfold __handleChangedBuildId, __invalidateLiveBuildId. obeys_all. Qed.

Lemma obeys_checkoutFinish step depth p c x :
  obeying (checkoutFinish sys cfg running cookRec buildIdRec step depth p c x).
Proof.
  unfold checkoutFinish. pose proof obeys_generateAudit. pose proof obeys_handleChangedBuildId.
  obeys_all.
  all: apply obeys_emit; cbn;
    repeat match goal with
           | H : _ && _ = true |- _ => apply andb_true_iff in H as [? ?]
           end; done.
Qed.

Lemma obeys_moveToAttic p cs items old : obeying (moveToAttic sys p cs items old).
Proof.
  revert old. induction items as [|[d v] items IH]; intros old; cbn [moveToAttic];
    [obeys_all|].
  destruct d; [|apply IH]. case_bool_decide; [|apply IH]. obeys_all.
Qed.

Lemma obeys_checkCollisions p old keys : obeying (checkCollisions sys p old keys).
Proof.
  induction keys as [|[d|] keys IH]; cbn [checkCollisions]; obeys_all.
Qed.

Lemma obeys_at_checkoutUnlessBuildOnly step cs old w :
  (buildOnly cfg = true → bsResultHash (bob w) !! getWorkspacePath step = None) →
  obeys_at (policy sys cfg)
    (checkoutUnlessBuildOnly sys cfg step (getWorkspacePath step) cs old) w.
Proof.
  intros Hpre. unfold checkoutUnlessBuildOnly.
  apply obeys_at_bind; [by apply obeys_at_silent|]. intros w0 w1 [= <- <-].
  apply obeys_at_bind.
  { apply obeys_mapM. intros. obeys_all. }
  intros hashes w1 E1. rewrite mapM_getResultHash in E1. injection E1 as <- <-.
  apply obeys_at_bind; [by apply obeys_at_silent|]. intros rh w1 [= <- <-].
  apply obeys_at_bind; [by apply obeys_at_silent|]. intros stored w1 [= <- <-].
  destruct (checkoutMustRun _ _ _ _ _ _ _); [|obeys_all].
  apply obeys_at_bind; [apply obeys_moveToAttic|]. intros oldA wA EA.
  assert (bsResultHash (bob wA) = bsResultHash (bob w)) as HA.
  { match type of EA with moveToAttic _ _ _ ?items ?cur _ = _ =>
      destruct (moveToAttic_run sys (getWorkspacePath step) cs items cur w)
        as (wA' & pre & E & _ & _ & B) end.
    rewrite EA in E. injection E as _ <-. rewrite B. by destruct (decide _). }
  apply obeys_at_bind; [apply obeys_checkCollisions|]. intros [] wB EB.
  assert (wB = wA) as ->.
  { destruct (checkCollisions_spec sys (getWorkspacePath step) oldA
                (map_to_list cs).*1 wA) as [Hc|(? & ? & Hc)]; rewrite Hc in EB; congruence. }
  apply obeys_at_bind; [by apply obeys_at_silent|]. intros [] w2 [= <-].
  apply obeys_at_bind; [by apply obeys_at_silent|]. intros rh2 w3 [= <- <-].
  apply obeys_at_bind.
  { destruct (bsResultHash (bob wA) !! getWorkspacePath step);
      apply obeys_at_silent; reflexivity. }
  intros [] w3 E3.
  apply obeys_at_bind; [|intros; obeys_all].
  apply obeys_at_runShell; [|done..]. intros r. cbn. split; [done|].
  intros Hb. revert E3. cbn [bob bsResultHash]. rewrite HA, (Hpre Hb). rewrite ret_eq.
  intros [= <-]. cbn [bob bsResultHash]. by rewrite ?HA, (Hpre Hb).
Qed.

Lemma obeys_cookCheckoutStep step depth :
  obeying (_cookCheckoutStep sys cfg running cookRec buildIdRec step depth).
Proof.
  unfold _cookCheckoutStep. intros w.
  apply obeys_at_bind; [apply HcookRec|]. intros [] w1 _.
  apply obeys_at_bind; [apply obeys_constructDir|]. intros [p c] w2 Hc.
  assert (p = getWorkspacePath step) as ->.
  { eapply constructDir_returns. by exists w1, w2. }
  apply obeys_at_bind; [by apply obeys_at_silent|]. intros stored w3 [= <- <-].
  apply obeys_at_bind.
  { destruct (bsDirectoryState (bob w2) !! getWorkspacePath step) as [[]|];
      by apply obeys_at_silent. }
  intros old w3 _.
  apply obeys_at_bind.
  { destruct c; [|by apply obeys_at_silent]. by apply obeys_at_silent. }
  intros old' w4 _.
  apply obeys_at_bind; [by apply obeys_at_silent|]. intros rh w5 [= <- <-].
  apply obeys_at_bind; [|intros; apply obeys_checkoutFinish].
  destruct (buildOnly cfg) eqn:Hb; cbn [andb].
  - case_bool_decide as Hrh.
    + cbv beta. obeys_all.
    + apply obeys_at_checkoutUnlessBuildOnly. intros _.
      destruct (bsResultHash (bob w4) !! getWorkspacePath step); [by destruct Hrh|done].
  - apply obeys_at_checkoutUnlessBuildOnly. intros ?. congruence.
Qed.

Lemma obeys_cookBuildStep step co depth :
  obeying (_cookBuildStep sys cfg running cookRec buildIdRec step co depth).
Proof.
  unfold _cookBuildStep.
  pose proof obeys_constructDir. pose proof obeys_generateAudit.
  pose proof obeys_runShell_build.
  obeys_all. all: try (apply obeys_mapM; intros; obeys_all).
Qed.

Lemma obeys_packageBuildIdOf step depth :
  obeying (packageBuildIdOf sys cfg running cookRec buildIdRec step depth).
Proof. unfold packageBuildIdOf. pose proof obeys_getBuildId. obeys_all. Qed.

Lemma obeys_packageDownload step co depth path pbid oid oih owd :
  obeying (packageDownload sys cfg step co depth path pbid oid oih owd).
Proof.
  unfold packageDownload.
  destruct pbid as [bid|]; [|obeys_all].
  destruct (negb co && truthy bid && (downloadDepth cfg <=? depth)%N) eqn:Hc; [|obeys_all].
  apply andb_prop in Hc as [[_ Ht]%andb_prop _].
  assert (∀ ok, policy sys cfg (EvDownloadPackage step depth bid ok)) by done.
  obeys_all.
Qed.

Lemma obeys_packageBuild step co depth path pbid oih :
  obeying (packageBuild sys cfg running cookRec buildIdRec step co depth path pbid oih).
Proof.
  unfold packageBuild. pose proof obeys_generateAudit. pose proof obeys_runShell_package.
  obeys_all. all: try (apply obeys_mapM; intros; obeys_all).
  all: apply obeys_emit; cbn;
    repeat match goal with
           | H : _ && _ = true |- _ => apply andb_true_iff in H as [? ?]
           end; done.
Qed.

Lemma obeys_cookPackageStep step co depth :
  obeying (_cookPackageStep sys cfg running cookRec buildIdRec step co depth).
Proof.
  unfold _cookPackageStep.
  pose proof obeys_constructDir. pose proof obeys_packageBuildIdOf.
  pose proof obeys_packageDownload. pose proof obeys_packageBuild.
  obeys_all.
Qed.

Lemma obeys_cookStep step co depth :
  obeying (_cookStep sys cfg running cookRec buildIdRec step co depth).
Proof.
  unfold _cookStep.
  pose proof obeys_cookCheckoutStep. pose proof obeys_cookBuildStep.
  pose proof obeys_cookPackageStep.
  obeys_all.
Qed.

Lemma obeys_cook steps pkg co depth :
  obeying (_cook sys cfg running cookRec buildIdRec steps pkg co depth).
Proof.
  unfold _cook. apply obeys_bind.
  - apply obeys_filterM. intros. obeys_all.
  - intros. apply obeys_forM. intros. pose proof obeys_cookStep. obeys_all.
Qed.

Lemma obeys_cookTask step co depth :
  obeying (_cookTask sys cfg running cookRec buildIdRec step co depth).
Proof. unfold _cookTask. pose proof obeys_cook. obeys_all. Qed.

End Steps.

Lemma obeys_cookFuel sys cfg running fuel :
  (∀ a b c d, obeys (policy sys cfg) ((cookFuel sys cfg running fuel).1 a b c d))
  ∧ (∀ a b, obeys (policy sys cfg) ((cookFuel sys cfg running fuel).2 a b)).
Proof.
  induction fuel as [|n [IH1 IH2]]; cbn [cookFuel fst snd].
  - split; intros; apply obeys_raise.
  - split; intros; [by apply obeys_cook | by apply obeys_getBuildIdList].
Qed.

Lemma obeys_dispatcher sys cfg running fuel steps co depth :
  obeys (policy sys cfg) (dispatcher sys cfg running fuel steps co depth).
Proof.
  unfold dispatcher. destruct (obeys_cookFuel sys cfg running fuel).
  apply obeys_forM. intros. by apply obeys_cookTask.
Qed.

Lemma cookLoop_obeys sys cfg fuel rounds steps co depth sc w :
  ∃ evs, trace (cookLoop sys cfg fuel rounds steps co depth sc w).2 = evs ++ trace w
         ∧ Forall (policy sys cfg) evs.
Proof.
  revert sc w. induction rounds as [|n IH]; intros sc w; cbn [cookLoop].
  - destruct (sc_restart sc); [|destruct (negb (sc_running sc))]; by exists [].
  - destruct (sc_restart sc); [|destruct (negb (sc_running sc)); by exists []].
    destruct (obeys_dispatcher sys cfg true fuel steps co depth w) as (evs & E & F).
    cbn [sc_running Sched_fresh].
    destruct (dispatcher sys cfg true fuel steps co depth w) as [r w1] eqn:Ed.
    cbn [snd] in E. destruct (wrapTask cfg Sched_fresh r) as [sc2 r2].
    destruct (buildErrors sc2) as [|e1 [|e2 l]]; cbn [snd]; eauto.
    destruct (IH sc2 w1) as (evs' & E' & F').
    exists (evs' ++ evs). rewrite E', E, app_assoc. split; [done|by apply Forall_app].
Qed.

(** X18: Nothing is uploaded to an archive that does not take uploads: in a
    whole run of [cook], a package is uploaded only if the archive can
    upload and the package has a build-id that is not empty, and a live
    build-id is uploaded only if the archive can upload and the checkout
    step has a live build-id. *)
Theorem uploads_only_to_archive (sys : Sys) (cfg : Config) (fuel rounds : nat)
    (steps : list Step) (checkoutOnly : bool) (depth : N) (w : World) :
  ∃ evs,
    trace (cook sys cfg fuel rounds steps checkoutOnly depth w).2 = evs ++ trace w
    ∧ (∀ s buildId, EvUploadPackage s buildId ∈ evs →
         canUploadLocal sys = true ∧ truthy buildId = true)
    ∧ (∀ s liveBId realId, EvUploadLiveBuildId s liveBId realId ∈ evs →
         canUploadLocal sys = true ∧ hasLiveBuildId s = true).
Proof.
  destruct (cookLoop_obeys sys cfg fuel rounds steps checkoutOnly depth
              {| sc_running := true; sc_restart := true; cookTasks := ∅;
                 buildIdTasks := ∅; buildErrors := [] |} w) as (evs & E & F).
  exists evs. rewrite Forall_forall in F. split; [exact E|].
  split; intros; by match goal with H : _ ∈ evs |- _ => apply F in H end.
Qed.

(** X19: Which scripts a run starts, and in which workspace: in a whole run
    of [cook] every script is a checkout, build or package script; the
    checkout script never starts in a workspace that was emptied for it,
    the package script always does, and the build script does so exactly
    with [--clean-build]. *)
Theorem scripts_clean_as_told (sys : Sys) (cfg : Config) (fuel rounds : nat)
    (steps : list Step) (checkoutOnly : bool) (depth : N) (w : World) :
  ∃ evs,
    trace (cook sys cfg fuel rounds steps checkoutOnly depth w).2 = evs ++ trace w
    ∧ ∀ s scriptName clean store r, EvRunShell s scriptName clean store r ∈ evs →
        (scriptName = "checkout" ∧ clean = false)
        ∨ (scriptName = "build" ∧ clean = cleanBuild cfg)
        ∨ (scriptName = "package" ∧ clean = true).
Proof.
  destruct (cookLoop_obeys sys cfg fuel rounds steps checkoutOnly depth
              {| sc_running := true; sc_restart := true; cookTasks := ∅;
                 buildIdTasks := ∅; buildErrors := [] |} w) as (evs & E & F).
  exists evs. rewrite Forall_forall in F. split; [exact E|].
  intros s name clean store r Hin%F. cbn in Hin.
  destruct (String.eqb name "checkout") eqn:E1.
  { apply String.eqb_eq in E1. left. by destruct Hin. }
  destruct (String.eqb name "build") eqn:E2.
  { apply String.eqb_eq in E2. right. left. done. }
  right. right. done.
Qed.

(** X20: With [--build-only] the sources that are there are left alone: in a
    whole run of [cook], a checkout script is started only in a workspace
    for which no result is stored. *)
Theorem build_only_keeps_sources (sys : Sys) (cfg : Config) (fuel rounds : nat)
    (steps : list Step) (checkoutOnly : bool) (depth : N) (w : World) :
  buildOnly cfg = true →
  ∃ evs,
    trace (cook sys cfg fuel rounds steps checkoutOnly depth w).2 = evs ++ trace w
    ∧ ∀ s clean store r, EvRunShell s "checkout" clean store r ∈ evs →
        bsResultHash store !! getWorkspacePath s = None.
Proof.
  intros Hb.
  destruct (cookLoop_obeys sys cfg fuel rounds steps checkoutOnly depth
              {| sc_running := true; sc_restart := true; cookTasks := ∅;
                 buildIdTasks := ∅; buildErrors := [] |} w) as (evs & E & F).
  exists evs. rewrite Forall_forall in F. split; [exact E|].
  intros s clean store r Hin%F. cbn in Hin. by apply Hin.
Qed.

Lemma build_only_keeps_sources_witness :
  ∃ evs,
    trace (cook (Example.sys 0 false Example.nothing) (Config_init false false true false)
             5 2 [Example.buildStep] false 0 LocalBuilder_init).2 = evs ++ []
    ∧ ∀ s clean store r, EvRunShell s "checkout" clean store r ∈ evs →
        bsResultHash store !! getWorkspacePath s = None.
Proof.
  apply (build_only_keeps_sources (Example.sys 0 false Example.nothing)
           (Config_init false false true false) 5 2 [Example.buildStep] false 0%N
           LocalBuilder_init).
  reflexivity.
Defined.

End Policy.

(** * The package step: when its script runs *)

Module PackageDecision.

Import Soundness StepSoundness CookEvents Execution CheckoutDecision CheckoutState BuildDecision Policy.

#[local] Arguments _runShell : simpl never.
#[local] Arguments _generateAudit : simpl never.
#[local] Arguments _getBuildId : simpl never.
#[local] Arguments mapM : simpl never.




End PackageDecision.

(** * What a cooked step leaves behind *)

Module StepResults.

Import Soundness StepSoundness CookEvents Execution CheckoutDecision PackageSteps BuildDecision Scheduler.

#[local] Arguments _runShell : simpl never.
#[local] Arguments _generateAudit : simpl never.
#[local] Arguments _getBuildId : simpl never.
#[local] Arguments mapM : simpl never.

Section Results.
Variables (sys : Sys) (cfg : Config) (running : bool).
Variable cookRec : list Step → PackageT → bool → N → M unit.
Variable buildIdRec : list Step → N → M (list (option ResultHash)).

Lemma checkoutFinish_result (step : Step) (depth : N) (created executed : bool)
    (w w' : World) :
  isCheckoutStep step = true →
  checkoutFinish sys cfg running cookRec buildIdRec step depth (getWorkspacePath step)
    created executed w = (Ok tt, w') →
  ∃ h : bytes,
    bsResultHash (bob w') !! getWorkspacePath step = Some (RHash h)
    ∧ (∀ bid p, srcBuildIds w' !! (getWorkspacePath step, getVariantId step) = Some (bid, p) →
         bid = Some (RHash h)).
Proof.
  intros Hco. unfold checkoutFinish. rewrite bind_eq, getResultHash_eq. cbn beta iota.
  unfold hashWorkspace at 1. rewrite bind_eq, ask_eq. cbn beta iota.
  set (h := hashDirectory sys w (getWorkspacePath step)).
  rewrite bind_eq. unfold BobStateOps.setResultHash at 1, set_bob at 1. mrun.
  match goal with |- context [(if ?b then ?m else ret tt) ?w0] =>
    assert (∃ w2, (if b then m else ret tt) w0 = (Ok tt, w2)
                  ∧ bob w2 = bob w0 ∧ srcBuildIds w2 = srcBuildIds w0) as (w2 & -> & Hb2 & Hs2) end.
  { destruct (_ || _); [|by eexists].
    unfold _generateAudit. rewrite Hco. unfold emit. mrun. by eexists. }
  cbn beta iota. rewrite bind_eq.
  match goal with |- context [(if ?b then ?m else ret tt) w2] =>
    assert (∃ w3, (if b then m else ret tt) w2 = (Ok tt, w3)
                  ∧ bob w3 = bob w2 ∧ srcBuildIds w3 = srcBuildIds w2) as (w3 & -> & Hb3 & Hs3) end.
  { destruct (_ && _); [|by eexists].
    rewrite bind_eq, ask_eq. cbn beta iota.
    destruct (calcLiveBuildId sys w2 step); [|by eexists]. unfold emit. mrun. by eexists. }
  cbn beta iota. rewrite bind_eq.
  unfold _setAlreadyRun at 1, set_wasRun, set_wasSkipped. mrun.
  rewrite Hs3, Hs2. cbn [srcBuildIds].
  destruct (default _ _) as [bid predicted] eqn:Ed.
  case_bool_decide as Hne.
  - destruct predicted; [|by rewrite raise_eq].
    unfold __handleChangedBuildId. rewrite bind_eq.
    match goal with |- context [__invalidateLiveBuildId step ?w0] =>
      destruct (__invalidateLiveBuildId step w0) as [[[]|e] w5]; [|done] end.
    cbn beta iota. unfold set_srcBuildIds, set_buildDistBuildIds, _clearWasRun, set_wasRun.
    mrun. done.
  - rewrite ret_eq. intros [= <-]. cbn [bob srcBuildIds]. rewrite ?Hb3, ?Hb2.
    cbn [bob bsResultHash]. rewrite ?Hs3, ?Hs2. cbn [srcBuildIds].
    exists h. split; [apply lookup_insert_eq|].
    intros bid' p Hk. rewrite Hk in Ed. cbn in Ed. injection Ed as -> ->.
    by destruct (decide (bid = Some (RHash h))); [|destruct Hne].
Qed.

(** X12: When a checkout step was cooked with success, the stored result of
    its workspace is the hash of the directory, the step is recorded as
    run, and a build-id that is on record for the step is this hash: a
    predicted build-id that turned out wrong never survives a
    successful checkout. *)
Theorem checkout_result (step : Step) (depth : N) (w w' : World) :
  isCheckoutStep step = true →
  _cookCheckoutStep sys cfg running cookRec buildIdRec step depth w = (Ok tt, w') →
  ∃ h : bytes,
    bsResultHash (bob w') !! getWorkspacePath step = Some (RHash h)
    ∧ (∀ bid p, srcBuildIds w' !! (getWorkspacePath step, getVariantId step) = Some (bid, p) →
         bid = Some (RHash h))
    ∧ wasRun w' !! getWorkspacePath step = Some (getVariantId step, true)
    ∧ wasSkipped w' !! getWorkspacePath step = Some false.
Proof.
  intros Hco Hcook.
  destruct (cookCheckoutStep_recorded sys cfg running cookRec buildIdRec step depth w w' Hcook)
    as [Hr Hs].
  revert Hcook. unfold _cookCheckoutStep. rewrite bind_eq.
  destruct (cookRec _ _ _ _ w) as [[[]|e] w1]; [|done]. cbn beta iota.
  rewrite bind_eq, constructDir_eq. cbn beta iota.
  rewrite bind_eq, getDirectoryState_eq. cbn beta iota. rewrite bind_eq.
  match goal with |- context [bsDirectoryState (bob ?w0) !! _] =>
    destruct (bsDirectoryState (bob w0) !! getWorkspacePath step) as [[m|l|d]|] end;
    rewrite ?ret_eq, ?raise_eq; cbn beta iota; [|done|done|].
  all: rewrite bind_eq.
  all: match goal with |- context [(if ?c0 then ?m else ?m') ?w0] =>
    destruct ((if c0 then m else m') w0) as [[old'|e] w4]; [|done] end.
  all: cbn beta iota; rewrite bind_eq, getResultHash_eq; cbn beta iota; rewrite bind_eq.
  all: match goal with |- context [(if ?b then ?m else ?m') ?w0] =>
    destruct ((if b then m else m') w0) as [[x|e] w5]; [|done] end.
  all: cbn beta iota; intros Hf; apply checkoutFinish_result in Hf as (h & ? & ?); [|done].
  all: by exists h.
Qed.



End Results.

Lemma checkout_result_witness :
  let w' := (_cookCheckoutStep (Example.sys 0 false Example.nothing) (Example.cfg false) true
               Example.noCook Example.noBuildIds Example.srcStep 0 LocalBuilder_init).2 in
  ∃ h : bytes, bsResultHash (bob w') !! getWorkspacePath Example.srcStep = Some (RHash h).
Proof.
  intros w'.
  destruct (checkout_result (Example.sys 0 false Example.nothing) (Example.cfg false) true
              Example.noCook Example.noBuildIds Example.srcStep 0%N LocalBuilder_init w')
    as (h & Hh & _).
  - reflexivity.
  - vm_compute. reflexivity.
  - by exists h.
Defined.


End StepResults.

(** * The statistics of a run

    The counters and the trace move together: every computation of the
    builder keeps [counted]. *)

Module Statistics.

Import Soundness StepSoundness CookEvents Execution.

Lemma count_cons (p : Event → bool) (e : Event) (tr : list Event) :
  count p (e :: tr) = if p e then S (count p tr) else count p tr.
Proof.
  unfold count. rewrite filter_cons. destruct (p e) eqn:E.
  - by rewrite decide_True.
  - by rewrite decide_False by congruence.
Qed.

Lemma count_app_quiet (p : Event → bool) (pre tr : list Event) :
  Forall (λ e, p e = false) pre → count p (pre ++ tr) = count p tr.
Proof.
  induction 1 as [|e pre He _ IH]; [done|]. cbn [app]. by rewrite count_cons, He.
Qed.

Section Keeps.

Lemma keeps_ret {A} (a : A) : preserves counted (ret a).
Proof. by intros w. Qed.

Lemma keeps_raise {A} e : preserves counted (@raise A e).
Proof. by intros w. Qed.

Lemma keeps_get_world : preserves counted get_world.
Proof. by intros w. Qed.

Lemma keeps_modify f :
  (∀ w, trace (f w) = trace w) → (∀ w, statistic (f w) = statistic w) →
  preserves counted (modify f).
Proof. intros Ht Hs w. unfold counted, modify. cbn [snd]. by rewrite Ht, Hs. Qed.

Lemma keeps_emit e :
  succeeded "checkout" e = false → succeeded "package" e = false → downloaded e = false →
  preserves counted (emit e).
Proof.
  intros H1 H2 H3 w. unfold counted, emit, modify. cbn [snd trace statistic].
  by rewrite !count_cons, H1, H2, H3.
Qed.

Lemma keeps_bind {A B} (m : M A) (f : A → M B) :
  preserves counted m → (∀ a, preserves counted (f a)) → preserves counted (bind m f).
Proof.
  intros Hm Hf w Hw. unfold bind. specialize (Hm w Hw).
  destruct (m w) as [[a|e] w1]; cbn [snd] in *; [by apply Hf|done].
Qed.

Lemma keeps_forM {A} (l : list A) (f : A → M unit) :
  (∀ x, preserves counted (f x)) → preserves counted (forM l f).
Proof.
  intros H. induction l as [|x l IH]; cbn [forM]; [apply keeps_ret|].
  apply keeps_bind; [apply H|by intros _].
Qed.

Lemma keeps_mapM {A B} (f : A → M B) (l : list A) :
  (∀ x, preserves counted (f x)) → preserves counted (mapM f l).
Proof.
  intros H. induction l as [|x l IH]; cbn [mapM]; [apply keeps_ret|].
  apply keeps_bind; [apply H|]. intros y.
  apply keeps_bind; [apply IH|]. intros; apply keeps_ret.
Qed.

Lemma keeps_filterM {A} (f : A → M bool) (l : list A) :
  (∀ x, preserves counted (f x)) → preserves counted (filterM f l).
Proof.
  intros H. induction l as [|x l IH]; cbn [filterM]; [apply keeps_ret|].
  apply keeps_bind; [apply H|]. intros y.
  apply keeps_bind; [apply IH|]. intros; apply keeps_ret.
Qed.

(** What a script does to the counts. *)
Lemma runShell_counts sys step scriptName clean w :
  let res := _runShell sys step scriptName clean w in
  statistic res.2 = statistic w
  ∧ ∀ name,
      count (succeeded name) (trace res.2)
      = (if String.eqb scriptName name && isOk res.1
         then S (count (succeeded name) (trace w)) else count (succeeded name) (trace w))
  ∧ count downloaded (trace res.2) = count downloaded (trace w).
Proof.
  intros res.
  destruct (runShell_spec sys step scriptName clean w)
    as (pre & w1 & Hpre & _ & _ & Ht & _ & _ & _ & _ & _ & Hs & Hr).
  fold res in Ht, Hs, Hr. split; [done|]. intros name. rewrite Ht, !count_cons.
  assert (∀ p, (∀ e, e = EvEmptyDirectory (getWorkspacePath step)
                     ∨ e = EvMakedirs (getWorkspacePath step) → p e = false) →
               count p (pre ++ trace w) = count p (trace w)) as Hq.
  { intros p Hp. apply count_app_quiet. eapply Forall_impl; [exact Hpre|]. exact Hp. }
  rewrite !Hq by (by intros e [-> | ->]). cbn [downloaded]. split; [|done].
  rewrite Hr. cbn [succeeded].
  destruct (run_wrapper sys w1 step scriptName) as [code|err].
  - unfold checkReturnCode. destruct (String.eqb scriptName name); cbn [andb]; [|done].
    case_bool_decide as H1.
    { rewrite raise_eq. cbn [fst isOk]. subst code. done. }
    case_bool_decide as H2.
    { rewrite raise_eq. cbn [fst isOk]. by destruct (Z.eqb_spec code 0). }
    rewrite ret_eq. cbn [fst isOk].
    destruct (Z.eqb_spec code 0); [done|]. by destruct H2.
  - cbn [isOk]. by rewrite andb_false_r.
Qed.

Lemma keeps_runShell_build sys step clean : preserves counted (_runShell sys step "build" clean).
Proof.
  intros w (H1 & H2 & H3).
  destruct (runShell_counts sys step "build" clean w) as (Hs & Hc).
  unfold counted. rewrite Hs.
  destruct (Hc "checkout") as [-> ->]. destruct (Hc "package") as [-> _]. done.
Qed.

Lemma keeps_checkout_counted sys step clean {B} (k : unit → M B) :
  (∀ a, preserves counted (k a)) →
  preserves counted
    (bind (_runShell sys step "checkout" clean) (λ _,
     bind (set_statistic (λ st, {| checkouts := S (checkouts st);
                                   packagesBuilt := packagesBuilt st;
                                   packagesDownloaded := packagesDownloaded st |})) k)).
Proof.
  intros Hk w (H1 & H2 & H3). rewrite bind_eq.
  destruct (runShell_counts sys step "checkout" clean w) as (Hs & Hc).
  destruct (Hc "checkout") as [Hc1 Hd]. destruct (Hc "package") as [Hc2 _].
  destruct (_runShell sys step "checkout" clean w) as [[[]|e] w1]; cbn [fst snd] in *.
  - rewrite bind_eq. unfold set_statistic at 1. rewrite modify_eq. cbn beta iota.
    apply Hk. unfold counted. cbn [statistic trace checkouts packagesBuilt packagesDownloaded].
    rewrite Hs, Hc1, Hc2, Hd. cbn. by rewrite H1.
  - unfold counted. rewrite Hs, Hc1, Hc2, Hd. done.
Qed.

Lemma keeps_package_counted sys step clean {B} (k : bytes → bytes → unit → M B) :
  (∀ h d a, preserves counted (k h d a)) →
  preserves counted
    (bind (_runShell sys step "package" clean) (λ _,
     bind (hashWorkspace sys step) (λ packageHash,
     bind (__getIncrementalVariantId sys step) (λ packageDigest,
     bind (set_statistic (λ st, {| checkouts := checkouts st;
                                   packagesBuilt := S (packagesBuilt st);
                                   packagesDownloaded := packagesDownloaded st |}))
          (k packageHash packageDigest))))).
Proof.
  intros Hk w (H1 & H2 & H3). rewrite bind_eq.
  destruct (runShell_counts sys step "package" clean w) as (Hs & Hc).
  destruct (Hc "checkout") as [Hc1 Hd]. destruct (Hc "package") as [Hc2 _].
  destruct (_runShell sys step "package" clean w) as [[[]|e] w1]; cbn [fst snd] in *.
  - unfold hashWorkspace, __getIncrementalVariantId, set_statistic. mrun.
    apply Hk. unfold counted. cbn [statistic trace checkouts packagesBuilt packagesDownloaded].
    rewrite Hs, Hc1, Hc2, Hd. cbn. by rewrite H2.
  - unfold counted. rewrite Hs, Hc1, Hc2, Hd. done.
Qed.

Lemma keeps_download s depth bid ok {B} (k1 : unit → M B) (k2 : M B) :
  (∀ a, preserves counted (k1 a)) → preserves counted k2 →
  preserves counted
    (bind (emit (EvDownloadPackage s depth bid ok)) (λ _,
       if ok
       then bind (set_statistic (λ st, {| checkouts := checkouts st;
                                          packagesBuilt := packagesBuilt st;
                                          packagesDownloaded := S (packagesDownloaded st) |}))
                 k1
       else k2)).
Proof.
  intros Hk1 Hk2 w (H1 & H2 & H3). unfold emit. rewrite bind_eq, modify_eq. cbn beta iota.
  destruct ok.
  - unfold set_statistic. rewrite bind_eq, modify_eq. cbn beta iota. apply Hk1.
    unfold counted. cbn [statistic trace checkouts packagesBuilt packagesDownloaded].
    rewrite !count_cons. cbn. by rewrite H3.
  - apply Hk2. unfold counted. cbn [statistic trace]. by rewrite !count_cons.
Qed.

End Keeps.

Ltac keeps_prim :=
  first
    [ apply keeps_ret
    | apply keeps_raise
    | apply keeps_get_world
    | apply keeps_modify; intros; reflexivity
    | apply keeps_emit; reflexivity ].

Ltac keeps_all :=
  repeat first
    [ keeps_prim
    | assumption
    | match goal with H : context [preserves] |- _ => apply H end
    | apply keeps_checkout_counted; intros ?
    | apply keeps_download; [ intros ? | ]
    | apply keeps_bind; [ | intros ? ]
    | progress unfold when, ask, stepMessage, hashWorkspace, set_bob, set_wasRun,
        set_wasSkipped, set_srcBuildIds, set_buildDistBuildIds,
        BobStateOps.getVariantId, BobStateOps.setVariantId,
        BobStateOps.getDirectoryState, BobStateOps.setDirectoryState,
        BobStateOps.getInputHashes, BobStateOps.setInputHashes,
        BobStateOps.delInputHashes, BobStateOps.setResultHash,
        BobStateOps.getResultHash,
        BobStateOps.resetWorkspaceState,
        BobStateOps.getBuildId, BobStateOps.setBuildId, BobStateOps.delBuildId,
        _wasAlreadyRun, _setAlreadyRun, _clearWasRun, __yieldJobWhile,
        __getIncrementalVariantId
    | match goal with
      | |- preserves _ (if ?b then _ else _) => destruct b eqn:?
      | |- preserves _ (match ?x with _ => _ end) => destruct x eqn:?
      | |- preserves _ (let '(_, _) := ?x in _) => destruct x eqn:?
      end ].

Section Steps.
Variables (sys : Sys) (cfg : Config) (running : bool).
Variable cookRec : list Step → PackageT → bool → N → M unit.
Variable buildIdRec : list Step → N → M (list (option ResultHash)).
Hypothesis HcookRec : ∀ a b c d, preserves counted (cookRec a b c d).
Hypothesis HbuildIdRec : ∀ a b, preserves counted (buildIdRec a b).

Lemma keeps_constructDir step : preserves counted (_constructDir sys step).
Proof. unfold _constructDir. keeps_all. Qed.

Lemma keeps_getBuildIdList steps depth :
  preserves counted (__getBuildIdList sys cfg running cookRec buildIdRec steps depth).
Proof.
  unfold __getBuildIdList. apply keeps_mapM. intros step.
  unfold __getBuildIdTask, __getBuildIdSingle, __getCheckoutStepBuildId, getDigestCoro,
    __queryLiveBuildId, __translateLiveBuildId.
  keeps_all; auto.
Qed.

Lemma keeps_getBuildId step depth :
  preserves counted (_getBuildId sys cfg running cookRec buildIdRec step depth).
Proof.
  unfold _getBuildId. apply keeps_bind; [apply keeps_getBuildIdList|]. intros. keeps_all.
Qed.

Lemma keeps_generateAudit step depth h x :
  preserves counted (_generateAudit sys cfg running cookRec buildIdRec step depth h x).
Proof. unfold _generateAudit. pose proof keeps_getBuildId. keeps_all. Qed.

Lemma keeps_handleChangedBuildId step h : preserves counted (__handleChangedBuildId step h).
Proof. unfold __handleChangedBuildId, __invalidateLiveBuildId. keeps_all. Qed.

Lemma keeps_checkoutFinish step depth p c x :
  preserves counted (checkoutFinish sys cfg running cookRec buildIdRec step depth p c x).
Proof.
  unfold checkoutFinish. pose proof keeps_generateAudit. pose proof keeps_handleChangedBuildId.
  keeps_all.
Qed.

Lemma keeps_moveToAttic p cs items old : preserves counted (moveToAttic sys p cs items old).
Proof.
  revert old. induction items as [|[d v] items IH]; intros old; cbn [moveToAttic];
    [keeps_all|].
  destruct d; [|apply IH]. case_bool_decide; [|apply IH]. keeps_all.
Qed.

Lemma keeps_checkCollisions p old keys : preserves counted (checkCollisions sys p old keys).
Proof.
  induction keys as [|[d|] keys IH]; cbn [checkCollisions]; keeps_all.
Qed.

Lemma keeps_checkoutUnlessBuildOnly step p cs old :
  preserves counted (checkoutUnlessBuildOnly sys cfg step p cs old).
Proof.
  unfold checkoutUnlessBuildOnly.
  pose proof keeps_moveToAttic. pose proof keeps_checkCollisions.
  keeps_all. all: try (apply keeps_mapM; intros; keeps_all).
Qed.

Lemma keeps_cookCheckoutStep step depth :
  preserves counted (_cookCheckoutStep sys cfg running cookRec buildIdRec step depth).
Proof.
  unfold _cookCheckoutStep.
  pose proof keeps_constructDir. pose proof keeps_checkoutUnlessBuildOnly.
  pose proof keeps_checkoutFinish.
  keeps_all.
Qed.

Lemma keeps_cookBuildStep step co depth :
  preserves counted (_cookBuildStep sys cfg running cookRec buildIdRec step co depth).
Proof.
  unfold _cookBuildStep.
  pose proof keeps_constructDir. pose proof keeps_generateAudit.
  pose proof keeps_runShell_build.
  keeps_all. all: try (apply keeps_mapM; intros; keeps_all).
Qed.

Lemma keeps_packageBuildIdOf step depth :
  preserves counted (packageBuildIdOf sys cfg running cookRec buildIdRec step depth).
Proof. unfold packageBuildIdOf. pose proof keeps_getBuildId. keeps_all. Qed.

Lemma keeps_packageDownload step co depth path pbid oid oih owd :
  preserves counted (packageDownload sys cfg step co depth path pbid oid oih owd).
Proof. unfold packageDownload. keeps_all. Qed.

Lemma keeps_packageBuild step co depth path pbid oih :
  preserves counted (packageBuild sys cfg running cookRec buildIdRec step co depth path pbid oih).
Proof.
  unfold packageBuild. pose proof keeps_generateAudit.
  apply keeps_bind; [apply HcookRec|]. intros [].
  apply keeps_bind; [apply keeps_mapM; intros; keeps_all|]. intros hashes.
  destruct co; [keeps_all|].
  destruct (_ && _); [keeps_all|].
  apply keeps_bind; [keeps_all|]. intros [].
  apply keeps_bind; [keeps_all|]. intros t.
  apply keeps_bind; [keeps_all|]. intros [].
  apply keeps_package_counted. intros h d []. keeps_all.
Qed.

Lemma keeps_cookPackageStep step co depth :
  preserves counted (_cookPackageStep sys cfg running cookRec buildIdRec step co depth).
Proof.
  unfold _cookPackageStep.
  pose proof keeps_constructDir. pose proof keeps_packageBuildIdOf.
  pose proof keeps_packageDownload. pose proof keeps_packageBuild.
  keeps_all.
Qed.

Lemma keeps_cookStep step co depth :
  preserves counted (_cookStep sys cfg running cookRec buildIdRec step co depth).
Proof.
  unfold _cookStep.
  pose proof keeps_cookCheckoutStep. pose proof keeps_cookBuildStep.
  pose proof keeps_cookPackageStep.
  keeps_all.
Qed.

Lemma keeps_cook steps pkg co depth :
  preserves counted (_cook sys cfg running cookRec buildIdRec steps pkg co depth).
Proof.
  unfold _cook. apply keeps_bind.
  - apply keeps_filterM. intros. keeps_all.
  - intros. apply keeps_forM. intros. pose proof keeps_cookStep. keeps_all.
Qed.

Lemma keeps_cookTask step co depth :
  preserves counted (_cookTask sys cfg running cookRec buildIdRec step co depth).
Proof. unfold _cookTask. pose proof keeps_cook. keeps_all. Qed.

End Steps.

Lemma keeps_cookFuel sys cfg running fuel :
  (∀ a b c d, preserves counted ((cookFuel sys cfg running fuel).1 a b c d))
  ∧ (∀ a b, preserves counted ((cookFuel sys cfg running fuel).2 a b)).
Proof.
  induction fuel as [|n [IH1 IH2]]; cbn [cookFuel fst snd].
  - split; intros; apply keeps_raise.
  - split; intros; [by apply keeps_cook | by apply keeps_getBuildIdList].
Qed.

Lemma keeps_dispatcher sys cfg running fuel steps co depth :
  preserves counted (dispatcher sys cfg running fuel steps co depth).
Proof.
  unfold dispatcher. destruct (keeps_cookFuel sys cfg running fuel).
  apply keeps_forM. intros. by apply keeps_cookTask.
Qed.

Lemma cookLoop_counted sys cfg fuel rounds steps co depth sc w :
  counted w → counted (cookLoop sys cfg fuel rounds steps co depth sc w).2.
Proof.
  revert sc w. induction rounds as [|n IH]; intros sc w Hw; cbn [cookLoop].
  - by destruct (sc_restart sc); [|destruct (negb (sc_running sc))].
  - destruct (sc_restart sc); [|by destruct (negb (sc_running sc))].
    pose proof (keeps_dispatcher sys cfg true fuel steps co depth w Hw) as Hd.
    cbn [sc_running Sched_fresh].
    destruct (dispatcher sys cfg true fuel steps co depth w) as [r w1].
    cbn [snd] in Hd. destruct (wrapTask cfg Sched_fresh r) as [sc2 r2].
    destruct (buildErrors sc2) as [|e1 [|e2 l]]; cbn [snd]; [by apply IH|done..].
Qed.

(** X21: The statistic that is printed at the end of a build is right: if
    the counters agree with what was done before, then after a whole run
    of [cook], however it ends, the number of checkouts is the number of
    checkout scripts that returned 0, the number of packages built is
    the number of package scripts that returned 0, and the number of
    downloads is the number of downloads that succeeded. *)
Theorem statistics_count (sys : Sys) (cfg : Config) (fuel rounds : nat) (steps : list Step)
    (checkoutOnly : bool) (depth : N) (w : World) :
  counted w → counted (cook sys cfg fuel rounds steps checkoutOnly depth w).2.
Proof. apply cookLoop_counted. Qed.

Lemma statistics_count_witness :
  counted (cook (Example.sys 0 false Example.nothing) (Example.cfg false) 5 2
             [Example.distStep true] false 0 LocalBuilder_init).2.
Proof.
  apply (statistics_count (Example.sys 0 false Example.nothing) (Example.cfg false) 5 2
           [Example.distStep true] false 0%N LocalBuilder_init).
  split_and!; reflexivity.
Defined.

End Statistics.

(** * The commands: what is cleaned, what is shown *)

Module CommandFacts.

Import Paths Numbering FirstPass Traversal Reachability.

Import DevelopDirOracle PackageTree Commands.

Section Paths.
Variable workspacePath : Step → option string.

Lemma collectPaths_eq (package : PackageNode) :
  collectPaths workspacePath package
  = foldl (λ paths d, paths ∪ collectPaths workspacePath d)
      (ownPaths workspacePath package) (getDirectDeps package).
Proof.
  destruct package as [id deps ps bs cs]. cbn [collectPaths]. f_equal.
  unfold ownPaths. cbn [nodeCheckoutStep getBuildStep getPackageStep].
  destruct (isValid cs), (isValid bs); apply set_eq; intros x;
    rewrite ?elem_of_union, ?elem_of_empty, ?elem_of_singleton; tauto.
Qed.

Lemma elem_of_foldl_union (f : PackageNode → gset (option string))
    (deps : list PackageNode) (init : gset (option string)) (p : option string) :
  p ∈ foldl (λ paths d, paths ∪ f d) init deps ↔ p ∈ init ∨ ∃ d, d ∈ deps ∧ p ∈ f d.
Proof.
  revert init. induction deps as [|d deps IH]; intros init; cbn [foldl].
  - split; [by left|]. intros [?|(d & ?%elem_of_nil & _)]; done.
  - rewrite IH, elem_of_union. split.
    + intros [[?|?]|(d' & ? & ?)]; [by left| |].
      * right. exists d. split; [left|done].
      * right. exists d'. split; [by right|done].
    + intros [?|(d' & [->|?]%elem_of_cons & ?)]; [by left; left|by left; right|].
      right. by exists d'.
Qed.

Lemma collectPaths_reachable (root : PackageNode) (p : option string) :
  p ∈ collectPaths workspacePath root
  ↔ ∃ q, reachable root q ∧ p ∈ ownPaths workspacePath q.
Proof.
  revert p. induction root as [id deps ps bs cs Hdeps] using PackageNode_nested_ind.
  intros p. rewrite collectPaths_eq, elem_of_foldl_union. cbn [getDirectDeps].
  rewrite Forall_forall in Hdeps. split.
  - intros [?|(d & Hd & Hp)].
    + eexists. split; [apply reach_refl|done].
    + apply (Hdeps d Hd) in Hp as (q & Hq & ?). exists q. split; [|done].
      by apply (reach_dep _ d).
  - intros (q & Hq & Hp). apply reachable_inv in Hq as [->|(d & Hd & Hq)]; [by left|].
    right. exists d. split; [done|]. apply (Hdeps d Hd). by exists q.
Qed.

Lemma cleanLoop_actions (args : CleanArgs) (removePath : string → Res unit)
    (ds : list string) :
  let res := cleanLoop args removePath ds in
  (∀ d, RemovePath d ∈ res.2 → dry_run args = false ∧ d ∈ ds)
  ∧ (∀ line, PrintLine line ∈ res.2 →
       (verbose args = true ∨ dry_run args = true) ∧ ∃ d, d ∈ ds ∧ line = "rm " +:+ d)
  ∧ ((∀ d, d ∈ ds → removePath d = Ok tt) →
     res.1 = Ok tt
     ∧ (dry_run args = false → ∀ d, d ∈ ds → RemovePath d ∈ res.2)
     ∧ (verbose args = true ∨ dry_run args = true →
        ∀ d, d ∈ ds → PrintLine ("rm " +:+ d) ∈ res.2)).
Proof.
  induction ds as [|d ds IH]; cbn [cleanLoop].
  - split_and!.
    + by intros d ?%elem_of_nil.
    + by intros l ?%elem_of_nil.
    + intros _. split_and!; [done|by intros _ d ?%elem_of_nil..].
  - cbn zeta in IH. destruct IH as (IH1 & IH2 & IH3).
    destruct (cleanLoop args removePath ds) as [r actions]. cbn [fst snd] in *.
    assert (∀ x, x ∈ (if verbose args || dry_run args then [PrintLine ("rm " +:+ d)] else [])
                 → x = PrintLine ("rm " +:+ d) ∧ (verbose args = true ∨ dry_run args = true))
      as Hprinted.
    { intros x. destruct (verbose args) eqn:Ev; cbn [orb].
      - intros ->%list_elem_of_singleton. by split; [|left].
      - destruct (dry_run args); [|by intros ?%elem_of_nil].
        intros ->%list_elem_of_singleton. by split; [|right]. }
    assert (verbose args = true ∨ dry_run args = true →
            PrintLine ("rm " +:+ d)
              ∈ (if verbose args || dry_run args then [PrintLine ("rm " +:+ d)] else []))
      as Hprints.
    { intros [-> | ->]; rewrite ?orb_true_r; cbn [orb]; left. }
    destruct (dry_run args) eqn:Edry; cbn [negb].
    + split_and!.
      * intros x [[[=] _]%Hprinted|[[=] _]%IH1]%elem_of_app.
      * intros l [[[= ->] ?]%Hprinted|[? (d' & ? & ?)]%IH2]%elem_of_app.
        -- split; [done|]. exists d. split; [left|done].
        -- split; [done|]. exists d'. split; [by right|done].
      * intros Hok. destruct IH3 as (I1 & I2 & I3); [intros; apply Hok; by right|].
        split_and!; [done|done|].
        intros Hv x [->|Hx]%elem_of_cons; apply elem_of_app; [left; by apply Hprints|].
        right. by apply I3.
    + destruct (removePath d) as [[]|e] eqn:Erm; cbn [fst snd].
      * split_and!.
        -- intros x [[[=] _]%Hprinted|[[= ->]|[_ ?]%IH1]%elem_of_cons]%elem_of_app.
           ++ split; [done|left].
           ++ split; [done|by right].
        -- intros l [[[= ->] ?]%Hprinted|[[=]|[? (d' & ? & ?)]%IH2]%elem_of_cons]%elem_of_app.
           ++ split; [done|]. exists d. split; [left|done].
           ++ split; [done|]. exists d'. split; [by right|done].
        -- intros Hok. destruct IH3 as (I1 & I2 & I3); [intros; apply Hok; by right|].
           split_and!; [done| |].
           ++ intros _ x [->|Hx]%elem_of_cons; apply elem_of_app; right; [left|].
              right. by apply I2.
           ++ intros Hv x [->|Hx]%elem_of_cons; apply elem_of_app; [left; by apply Hprints|].
              right. right. by apply I3.
      * split_and!.
        -- intros x [[[=] _]%Hprinted|[= ->]%list_elem_of_singleton]%elem_of_app.
           split; [done|left].
        -- intros l [[[= ->] ?]%Hprinted|[=]%list_elem_of_singleton]%elem_of_app.
           split; [done|]. exists d. split; [left|done].
        -- intros Hok. rewrite Hok in Erm by left. done.
Qed.

(** X22: [bob clean] never removes what the recipes still use: a path is
    removed only if the run is no dry run, the path is the workspace of a
    directory of the release mapping, of a source directory only with
    [-s], it exists, and it is not the workspace of the package step, a
    valid build step or a valid checkout step of any package that is
    reachable from the root, with or without sandbox.  If no removal
    fails, all such paths are removed (and printed with [-v]); a dry run
    prints all of them. *)
Theorem clean_spares_used (args : CleanArgs) (rootSandbox rootNoSandbox : PackageNode)
    (getAllNameDirectores : list (string * bool)) (os_path_exists : string → bool)
    (removePath : string → Res unit) :
  let res := doClean workspacePath args rootSandbox rootNoSandbox getAllNameDirectores
               os_path_exists removePath in
  let unused d := os_path_exists d = true
    ∧ (∃ dir isSourceDir, (dir, isSourceDir) ∈ getAllNameDirectores
         ∧ d = os_path_join dir "workspace" ∧ (isSourceDir = true → src args = true))
    ∧ ∀ root q, root = rootSandbox ∨ root = rootNoSandbox → reachable root q →
        Some d ∉ ownPaths workspacePath q in
  (∀ d, RemovePath d ∈ res.2 → dry_run args = false ∧ unused d)
  ∧ (∀ line, PrintLine line ∈ res.2 →
       (verbose args = true ∨ dry_run args = true) ∧ ∃ d, unused d ∧ line = "rm " +:+ d)
  ∧ ((∀ d, removePath d = Ok tt) →
     res.1 = Ok tt
     ∧ (dry_run args = false → ∀ d, unused d → RemovePath d ∈ res.2)
     ∧ (verbose args = true ∨ dry_run args = true →
        ∀ d, unused d → PrintLine ("rm " +:+ d) ∈ res.2)).
Proof.
  intros res unused. subst res. unfold doClean.
  set (ds := filter _ (elements _)).
  assert (∀ d, d ∈ ds ↔ unused d) as Hds.
  { intros d. subst ds unused. cbv beta.
    rewrite list_elem_of_filter, elem_of_elements, elem_of_list_to_set, list_elem_of_filter,
      list_elem_of_fmap.
    rewrite !not_elem_of_union, !collectPaths_reachable. split.
    - intros [[[_ H1] H2] [He ([dir isSrc] & -> & [Hf Hin]%list_elem_of_filter)]].
      cbn [fst snd] in *. split_and!; [done| |].
      + exists dir, isSrc. split_and!; [done..|]. intros ->. by destruct (src args).
      + intros root q [-> | ->] Hq Hown; [apply H1|apply H2]; by exists q.
    - intros (He & (dir & isSrc & Hin & -> & Hsrc) & Hun). split_and!.
      + apply not_elem_of_empty.
      + intros (q & Hq & Hown). by apply (Hun rootSandbox q); [left|..].
      + intros (q & Hq & Hown). by apply (Hun rootNoSandbox q); [right|..].
      + done.
      + exists (dir, isSrc). split; [done|]. apply list_elem_of_filter. split; [|done].
        cbn [fst snd]. destruct isSrc; [|done]. by rewrite Hsrc. }
  destruct (cleanLoop_actions args removePath ds) as (H1 & H2 & H3).
  split_and!.
  - intros d [? ?%Hds]%H1. done.
  - intros line [? (d & ?%Hds & ->)]%H2. split; [done|]. by exists d.
  - intros Hok. destruct H3 as (I1 & I2 & I3); [by intros|].
    split_and!; [done| |].
    + intros Hd d ?%Hds. by apply I2.
    + intros Hv d ?%Hds. by apply I3.
Qed.

End Paths.

Lemma string_app_assoc (a b c : string) : (a +:+ b) +:+ c = a +:+ (b +:+ c).
Proof. induction a as [|x a IH]; [done|]. rewrite !append_cons. by f_equal. Qed.

Lemma string_app_nil_r (a : string) : a +:+ "" = a.
Proof. induction a as [|x a IH]; [done|]. rewrite append_cons. by f_equal. Qed.

Section Query.
Variable workspacePath : Step → option string.
Variable os_path_isdir : string → bool.
Variable package : PackageNode.

#[local] Abbreviation value := (fieldValue workspacePath os_path_isdir package).
#[local] Abbreviation line := (lineOf workspacePath os_path_isdir package).

Lemma appendStep_spec (step : Step) (st : State) :
  appendStep workspacePath os_path_isdir step st
  = match shownDir workspacePath os_path_isdir step with
    | Some dir => appendText dir st
    | None => {| packageText := packageText st; showPackage := false |}
    end.
Proof.
  unfold appendStep, shownDir. destruct (workspacePath step); [|done].
  by destruct (_ && _).
Qed.

Lemma formatFields_spec (fields : list (string * option string)) (st : State) :
  match formatFields workspacePath os_path_isdir package fields st with
  | inl err =>
      ∃ v, Some v ∈ fields.*2 ∧ (v ∉ knownFields) ∧ err = "Unknown field '{" +:+ v +:+ "}'"
  | inr st' =>
      (∀ v, Some v ∈ fields.*2 → v ∈ knownFields)
      ∧ (showPackage st' = true ↔
           showPackage st = true ∧ ∀ var, var ∈ fields.*2 → is_Some (value var))
      ∧ (showPackage st' = true → packageText st' = packageText st +:+ line fields)
  end.
Proof.
  revert st. induction fields as [|[text var] fields IH]; intros st; cbn [formatFields].
  - split_and!.
    + by intros v ?%elem_of_nil.
    + split; [|by intros [? _]]. intros ?. split; [done|]. by intros v ?%elem_of_nil.
    + intros _. cbn. by rewrite string_app_nil_r.
  - change (((text, var) :: fields).*2) with (var :: fields.*2).
    assert (∀ (val : string) (st1 : State),
              value var = Some val →
              (∀ v, var = Some v → v ∈ knownFields) →
              st1 = appendText val (appendText text st) →
              match formatFields workspacePath os_path_isdir package fields st1 with
              | inl err =>
                  ∃ v, Some v ∈ (var :: fields.*2) ∧ (v ∉ knownFields)
                       ∧ err = "Unknown field '{" +:+ v +:+ "}'"
              | inr st' =>
                  (∀ v, Some v ∈ (var :: fields.*2) → v ∈ knownFields)
                  ∧ (showPackage st' = true ↔
                       showPackage st = true
                       ∧ ∀ var0, var0 ∈ (var :: fields.*2) → is_Some (value var0))
                  ∧ (showPackage st' = true →
                     packageText st' = packageText st +:+ line ((text, var) :: fields))
              end) as Hshown.
    { intros val st1 Hval Hknown ->. specialize (IH (appendText val (appendText text st))).
      destruct (formatFields _ _ _ fields _) as [err|st'].
      - destruct IH as (v & ? & ? & ?). exists v. split_and!; [by right|done..].
      - destruct IH as (I1 & I2 & I3). split_and!.
        + intros v [Hv|?]%elem_of_cons; [by apply Hknown|by apply I1].
        + rewrite I2. cbn [showPackage appendText]. split.
          * intros [? Hall]. split; [done|].
            intros var0 [->|?]%elem_of_cons; [by rewrite Hval|by apply Hall].
          * intros [? Hall]. split; [done|]. intros var0 ?. apply Hall. by right.
        + intros Hs. rewrite (I3 Hs). cbn [packageText appendText lineOf foldr fst snd].
          rewrite Hval. cbn [default]. by rewrite !string_app_assoc. }
    assert (∀ (st1 : State),
              value var = None →
              (∀ v, var = Some v → v ∈ knownFields) →
              showPackage st1 = false →
              match formatFields workspacePath os_path_isdir package fields st1 with
              | inl err =>
                  ∃ v, Some v ∈ (var :: fields.*2) ∧ (v ∉ knownFields)
                       ∧ err = "Unknown field '{" +:+ v +:+ "}'"
              | inr st' =>
                  (∀ v, Some v ∈ (var :: fields.*2) → v ∈ knownFields)
                  ∧ (showPackage st' = true ↔
                       showPackage st = true
                       ∧ ∀ var0, var0 ∈ (var :: fields.*2) → is_Some (value var0))
                  ∧ (showPackage st' = true →
                     packageText st' = packageText st +:+ line ((text, var) :: fields))
              end) as Hhidden.
    { intros st1 Hval Hknown Hs1. specialize (IH st1).
      destruct (formatFields _ _ _ fields st1) as [err|st'].
      - destruct IH as (v & ? & ? & ?). exists v. split_and!; [by right|done..].
      - destruct IH as (I1 & I2 & I3).
        assert (showPackage st' = false) as Hs'.
        { destruct (showPackage st') eqn:E; [|done]. destruct (proj1 I2 eq_refl) as [? _].
          congruence. }
        split_and!.
        + intros v [Hv|?]%elem_of_cons; [by apply Hknown|by apply I1].
        + rewrite Hs'. split; [done|]. intros [_ Hall].
          destruct (Hall var) as [? ?]; [left|congruence].
        + rewrite Hs'. done. }
    destruct var as [v|].
    + destruct (String.eqb v "name") eqn:E1.
      { apply String.eqb_eq in E1 as ->. eapply Hshown; [done| |done].
        intros ? [= <-]. left. }
      destruct (String.eqb v "src") eqn:E2.
      { apply String.eqb_eq in E2 as ->. rewrite appendStep_spec.
        destruct (shownDir _ _ (nodeCheckoutStep package)) as [dir|] eqn:Ed.
        - apply (Hshown dir); [by cbn; rewrite Ed| |done]. intros ? [= <-]. right; left.
        - apply Hhidden; [by cbn; rewrite Ed| |done]. intros ? [= <-]. right; left. }
      destruct (String.eqb v "build") eqn:E3.
      { apply String.eqb_eq in E3 as ->. rewrite appendStep_spec.
        destruct (shownDir _ _ (getBuildStep package)) as [dir|] eqn:Ed.
        - apply (Hshown dir); [by cbn; rewrite Ed| |done].
          intros ? [= <-]. right; right; left.
        - apply Hhidden; [by cbn; rewrite Ed| |done]. intros ? [= <-]. right; right; left. }
      destruct (String.eqb v "dist") eqn:E4.
      { apply String.eqb_eq in E4 as ->. rewrite appendStep_spec.
        destruct (shownDir _ _ (getPackageStep package)) as [dir|] eqn:Ed.
        - apply (Hshown dir); [by cbn; rewrite Ed| |done].
          intros ? [= <-]. right; right; right; left.
        - apply Hhidden; [by cbn; rewrite Ed| |done].
          intros ? [= <-]. right; right; right; left. }
      exists v. split_and!; [left| |done].
      apply String.eqb_neq in E1, E2, E3, E4. unfold knownFields.
      rewrite !elem_of_cons, elem_of_nil. tauto.
    + apply (Hshown ""); [done|done|]. unfold appendText. cbn [packageText showPackage].
      by rewrite string_app_nil_r.
Qed.

(** X23: [bob query-path] prints the line of a package if and only if every
    placeholder of the format is one of [name], [src], [build] and
    [dist] and every directory that is asked for can be shown: its step
    is valid, has a workspace path, and the path is a directory.  The
    line is the text of the format with the values in place of the
    placeholders.  An unknown placeholder ends the command with a parse
    error that names it. *)
Theorem query_line (fields : list (string * option string)) :
  let res := queryPackage workspacePath os_path_isdir package fields in
  let known := ∀ v, Some v ∈ fields.*2 → v ∈ knownFields in
  let shown := ∀ var, var ∈ fields.*2 → is_Some (value var) in
  ((∃ text, res = inr (Some text)) ↔ known ∧ shown)
  ∧ (∀ text, res = inr (Some text) → text = line fields)
  ∧ (res = inr None ↔ known ∧ ¬ shown)
  ∧ (∀ err, res = inl err →
       ∃ v, Some v ∈ fields.*2 ∧ (v ∉ knownFields) ∧ err = "Unknown field '{" +:+ v +:+ "}'").
Proof.
  intros res known shown. subst res. unfold queryPackage.
  pose proof (formatFields_spec fields State_init) as H.
  destruct (formatFields _ _ _ fields State_init) as [err|st].
  - destruct H as (v & Hin & Hun & ->). split_and!.
    + split; [by intros [? [=]]|]. intros [Hk _]. destruct Hun. by apply Hk.
    + by intros ? [=].
    + split; [by intros [=]|]. intros [Hk _]. destruct Hun. by apply Hk.
    + intros ? [= <-]. by exists v.
  - destruct H as (Hk & Hs & Ht). cbn [showPackage State_init] in Hs.
    destruct (showPackage st) eqn:E.
    + destruct (proj1 Hs eq_refl) as [_ Hall]. split_and!.
      * split; [done|]. intros _. by eexists.
      * intros ? [= <-]. rewrite Ht by done. done.
      * split; [by intros [=]|]. by intros [_ ?].
      * by intros ? [=].
    + split_and!.
      * split; [by intros [? [=]]|]. intros [_ Hall]. by pose proof (proj2 Hs (conj eq_refl Hall)).
      * by intros ? [=].
      * split; [|done]. intros _. split; [done|]. intros Hall. by pose proof (proj2 Hs (conj eq_refl Hall)).
      * by intros ? [=].
Qed.

End Query.

(** ** The results of a build *)

Lemma addResults_cons (s : Step) (backlog : list Step) (results : list string) :
  addResults (s :: backlog) results
  = addResults backlog
      (if bool_decide (getWorkspacePath s ∉ results)
       then results ++ [getWorkspacePath s] else results).
Proof. reflexivity. Qed.

Lemma addResults_spec (backlog : list Step) (results : list string) :
  NoDup results →
  NoDup (addResults backlog results)
  ∧ (∀ p, p ∈ addResults backlog results ↔ p ∈ results ∨ p ∈ getWorkspacePath <$> backlog)
  ∧ ∃ new, addResults backlog results = results ++ new.
Proof.
  revert results. induction backlog as [|s backlog IH]; intros results Hnd.
  - cbn. split_and!; [done| |by exists []; rewrite app_nil_r].
    intros p. split; [by left|]. intros [?|?%elem_of_nil]; done.
  - rewrite addResults_cons. case_bool_decide as Hin.
    + destruct (IH (results ++ [getWorkspacePath s])) as (I1 & I2 & new & I3).
      { apply NoDup_app. split_and!; [done| |apply NoDup_singleton].
        intros x ? ->%list_elem_of_singleton. done. }
      split_and!; [done| |].
      * intros p. rewrite I2, elem_of_app, list_elem_of_singleton, fmap_cons, elem_of_cons.
        tauto.
      * exists ([getWorkspacePath s] ++ new). by rewrite I3, <- app_assoc.
    + destruct (IH results Hnd) as (I1 & I2 & new & I3). split_and!; [done| |by exists new].
      intros p. rewrite I2, fmap_cons, elem_of_cons. split; [tauto|].
      intros [H|[H|H]]; [left; exact H| |right; exact H]. subst p. left.
      exact Hin.
Qed.

(** X24: The results that [bob build] and [bob dev] report, and hand to the
    post-build hook, name every workspace once.  The hook is told
    ["success"] exactly if both calls of [cook] succeeded, and then the
    results are the workspaces of all package steps asked for and of the
    provided dependencies, those of the packages asked for first.  If
    the first call fails there are no results; if the second fails, the
    results are the workspaces of the packages asked for. *)
Theorem build_results (cookBacklog cookProvided : Res unit)
    (backlog providedBacklog : list Step) :
  let res := buildResults cookBacklog cookProvided backlog providedBacklog in
  NoDup res.2
  ∧ (res.1 = true ↔ cookBacklog = Ok tt ∧ cookProvided = Ok tt)
  ∧ (∀ p, p ∈ res.2 ↔
       (cookBacklog = Ok tt ∧ p ∈ getWorkspacePath <$> backlog)
       ∨ (cookBacklog = Ok tt ∧ cookProvided = Ok tt
          ∧ p ∈ getWorkspacePath <$> providedBacklog))
  ∧ (cookBacklog = Ok tt → ∃ more, res.2 = addResults backlog [] ++ more).
Proof.
  intros res. subst res. unfold buildResults.
  destruct (addResults_spec backlog []) as (A1 & A2 & _); [constructor|].
  destruct (addResults_spec providedBacklog (addResults backlog []) A1) as (B1 & B2 & new & B3).
  destruct cookBacklog as [[]|e1]; cbn [fst snd].
  - destruct cookProvided as [[]|e2]; cbn [fst snd].
    + split_and!; [done|done| |by exists new].
      intros p. rewrite B2, A2, elem_of_nil. tauto.
    + split_and!; [done|by split; [|intros [_ [=]]]| |by exists []; rewrite app_nil_r].
      intros p. rewrite A2, elem_of_nil. split; [tauto|].
      intros [[_ ?]|(_ & [=] & _)]. by right.
  - split_and!; [constructor|by split; [|intros [[=] _]]| |by intros [=]].
    intros p. rewrite elem_of_nil. split; [done|]. by intros [[[=] _]|([=] & _)].
Qed.

End CommandFacts.

